(** * Terrain heightmap pipeline: tiles, stitching, cropping, normalising

    A shallow embedding of the terrain pipeline of [src/lib/openscad.ts]
    (slippy-map tile math, [fetchAndDecodeTile], [generateHeightmap]: fetch,
    decode, stitch, crop, normalize) and of [heightmapToDat] of the SCAD
    template, with the properties the design document states about them.
    The code around the pipeline follows: [parseDatHeightmap] of the demo
    loader, [generateScad], [formatSize] and [heightmapToPngBlob], with
    further properties of all of it.

    Conventions of the embedding.
    - A JavaScript number is an exact rational, or one of NaN, +Infinity,
      -Infinity ([num]).  Rounding of binary64 and binary32 arithmetic is
      not modelled; the sign of zero is not modelled.
    - [undefined], the result of reading a typed array out of range, is
      represented by [NaN]: every use the program makes of such a value
      (arithmetic, comparison, storing into a typed array) treats the two
      alike.
    - Typed arrays are lists; an out-of-range write is ignored, as the
      language specifies for typed arrays.  The limit that an engine puts
      on the length of a typed array is not modelled.
    - The completion order of the concurrent requests is a parameter, the
      schedule; so are the network, the smoothing filter of the canvas and,
      for the rational reading of the arithmetic, the [Math] functions. *)

From Stdlib Require Import ZArith QArith Qround Qminmax Reals Zfloor Psatz Lia.
From Stdlib Require Import Ascii.
From stdpp Require Import base list list_numbers strings pretty.

Local Open Scope Z_scope.

(** ** Numbers *)

Inductive num : Type :=
| NaN
| NegInf
| Fin (q : Q)
| PosInf.

Definition num_of_Z (z : Z) : num := Fin (inject_Z z).

Definition Qis_zero (q : Q) : bool := Qnum q =? 0.
Definition Qsign (q : Q) : Z := Z.sgn (Qnum q).

(** [a + b] *)
Definition num_add (a b : num) : num :=
  match a, b with
  | NaN, _ | _, NaN => NaN
  | PosInf, NegInf | NegInf, PosInf => NaN
  | PosInf, _ | _, PosInf => PosInf
  | NegInf, _ | _, NegInf => NegInf
  | Fin x, Fin y => Fin (x + y)
  end.

(** [-a] *)
Definition num_neg (a : num) : num :=
  match a with
  | NaN => NaN
  | NegInf => PosInf
  | PosInf => NegInf
  | Fin x => Fin (- x)
  end.

(** [a - b] *)
Definition num_sub (a b : num) : num :=
  match a, b with
  | Fin x, Fin y => Fin (x - y)
  | _, _ => num_add a (num_neg b)
  end.

Definition inf_of_sign (s : Z) : num :=
  match s with
  | Z0 => NaN
  | Zpos _ => PosInf
  | Zneg _ => NegInf
  end.

Definition num_sign (a : num) : option Z :=
  match a with
  | NaN => None
  | NegInf => Some (-1)
  | PosInf => Some 1
  | Fin x => Some (Qsign x)
  end.

(** [a * b]; infinity times zero is NaN. *)
Definition num_mul (a b : num) : num :=
  match a, b with
  | Fin x, Fin y => Fin (x * y)
  | _, _ =>
      match num_sign a, num_sign b with
      | Some s, Some t => inf_of_sign (s * t)
      | _, _ => NaN
      end
  end.

(** [a / b]; a finite non-zero number over zero is an infinity, zero over
    zero and infinity over infinity are NaN. *)
Definition num_div (a b : num) : num :=
  match a, b with
  | NaN, _ | _, NaN => NaN
  | Fin x, Fin y => if Qis_zero y then inf_of_sign (Qsign x) else Fin (x / y)
  | Fin _, _ => Fin 0
  | _, Fin y => if Qis_zero y then a else inf_of_sign (match a with PosInf => Qsign y | _ => - Qsign y end)
  | _, _ => NaN
  end.

(** [a < b]; false as soon as one side is NaN. *)
Definition num_lt (a b : num) : bool :=
  match a, b with
  | NaN, _ | _, NaN => false
  | _, NegInf => false
  | NegInf, _ => true
  | PosInf, _ => false
  | _, PosInf => true
  | Fin x, Fin y => match (x ?= y)%Q with Lt => true | _ => false end
  end.

(** [a > b] *)
Definition num_gt (a b : num) : bool := num_lt b a.

(** Truthiness of a number: NaN and zero are falsy. *)
Definition num_truthy (a : num) : bool :=
  match a with
  | NaN => false
  | Fin x => negb (Qis_zero x)
  | _ => true
  end.

(** [a || b] on numbers. *)
Definition num_or (a b : num) : num := if num_truthy a then a else b.

(** The nearest integer, ties towards +Infinity. *)
Definition Qround_half_up (x : Q) : Z := Qfloor (x + (1 # 2)).

(** [Math.round] on a number of the raster. *)
Definition num_round (a : num) : num :=
  match a with
  | Fin x => Fin (inject_Z (Qround_half_up x))
  | _ => a
  end.

(** Conversion applied by a store into a [Uint8Array]: non-finite values
    become 0, finite ones are truncated towards zero and taken modulo 256. *)
Definition toUint8 (a : num) : Z :=
  match a with
  | Fin x => (Qnum x ÷ Z.pos (Qden x)) mod 256
  | _ => 0
  end.

(** Order on numbers used in statements: both finite orders and the two
    infinities; NaN is related to nothing. *)
Definition num_le (a b : num) : Prop :=
  match a, b with
  | NaN, _ | _, NaN => False
  | NegInf, _ => True
  | _, PosInf => True
  | Fin x, Fin y => (x <= y)%Q
  | _, _ => False
  end.

Definition is_finite (a : num) : Prop :=
  match a with Fin _ => True | _ => False end.

(** Numerical equality of two numbers (the rationals up to [Qeq]). *)
Definition num_eq (a b : num) : Prop :=
  match a, b with
  | NaN, NaN | NegInf, NegInf | PosInf, PosInf => True
  | Fin x, Fin y => (x == y)%Q
  | _, _ => False
  end.

(** ** Typed arrays *)

(** [a[i]]: the element, or nothing ([undefined]) out of range. *)
Definition read {A : Type} (a : list A) (i : Z) : option A :=
  if i <? 0 then None else a !! Z.to_nat i.

(** [a[i]] on an array of numbers, where it is used as a number. *)
Definition get (a : list num) (i : Z) : num := default NaN (read a i).

(** [a[i] = v]: out of range writes are ignored. *)
Definition set {A : Type} (a : list A) (i : Z) (v : A) : list A :=
  if i <? 0 then a else <[Z.to_nat i := v]> a.

(** [for (let i = lo; i < hi; i++) body] as a state transformer. *)
Definition for_range {S : Type} (lo hi : Z) (body : Z -> S -> S) (s : S) : S :=
  foldl (fun s i => body i s) s (seqZ lo (hi - lo)).

(** ** Exceptions *)

Inductive error : Type :=
| Error (message : string)        (* [new Error(message)] *)
| RangeError                      (* invalid typed array length *)
| TypeError                       (* network failure of [fetch], invalid canvas size *)
| DOMException (name : string).   (* raised by the image and canvas interfaces *)

Inductive outcome (A : Type) : Type :=
| Returned (a : A)
| Threw (e : error).
Arguments Returned {A} a.
Arguments Threw {A} e.

#[export] Instance outcome_ret : MRet outcome := fun A a => Returned a.
#[export] Instance outcome_bind : MBind outcome := fun A B f m =>
  match m with
  | Returned a => f a
  | Threw e => Threw e
  end.

(** [new Float32Array(len)]: zero-filled; a negative length is a RangeError. *)
Definition newFloat32Array (len : Z) : outcome (list num) :=
  if len <? 0 then Threw RangeError
  else Returned (replicate (Z.to_nat len) (Fin 0)).

(** ** Fetch + decode a single Terrarium tile *)

(** What [getImageData] hands back: RGBA bytes, row-major. *)
Record ImageData : Type := {
  img_data : list Z;
  img_width : Z;
  img_height : Z;
}.

(** A well-formed image: four bytes per pixel, each in 0..255. *)
Definition wf_image (img : ImageData) : Prop :=
  0 <= img_width img /\ 0 <= img_height img /\
  Z.of_nat (length (img_data img)) = img_width img * img_height img * 4 /\
  Forall (fun b => 0 <= b <= 255) (img_data img).

(** What the network answers for a URL: [fetch] rejects, or resolves with a
    response whose body decodes to an image or fails to decode. *)
Record Response : Type := {
  res_ok : bool;
  res_status : Z;
  res_image : outcome ImageData;
}.

Definition Network : Type := string -> outcome Response.

Record DecodedTile : Type := {
  elev : list num;
  width : Z;
  height : Z;
}.

(** [data[i]] on the byte array of an image. *)
Definition byte_get (d : list Z) (i : Z) : num :=
  match read d i with
  | Some b => num_of_Z b
  | None => NaN
  end.

(** [data[off] * 256 + data[off + 1] + data[off + 2] / 256 - 32768] *)
Definition terrarium (data : list Z) (off : Z) : num :=
  num_sub
    (num_add
       (num_add (num_mul (byte_get data off) (num_of_Z 256))
                (byte_get data (off + 1)))
       (num_div (byte_get data (off + 2)) (num_of_Z 256)))
    (num_of_Z 32768).

Definition decodeImage (img : ImageData) : outcome DecodedTile :=
  elev0 ← newFloat32Array (img_width img * img_height img);
  let elev :=
    for_range 0 (Z.of_nat (length elev0))
      (fun i elev => let off := i * 4 in set elev i (terrarium (img_data img) off))
      elev0 in
  mret {| elev := elev; width := img_width img; height := img_height img |}.

Definition tileUrl (z x y : Z) : string :=
  "https://s3.amazonaws.com/elevation-tiles-prod/terrarium/"
    +:+ pretty z +:+ "/" +:+ pretty x +:+ "/" +:+ pretty y +:+ ".png".

Definition tileErrorMessage (z x y status : Z) : string :=
  "Tile " +:+ pretty z +:+ "/" +:+ pretty x +:+ "/" +:+ pretty y
    +:+ " → " +:+ pretty status.

Definition fetchAndDecodeTile (net : Network) (z x y : Z) : outcome DecodedTile :=
  let url := tileUrl z x y in
  res ← net url;
  if negb (res_ok res) then Threw (Error (tileErrorMessage z x y (res_status res)))
  else
    img ← res_image res;
    decodeImage img.

(** ** Arithmetic of the geographic computations

    The coordinate computations are written once, over an interface of
    arithmetic; they are read over the rationals with the host's [Math]
    functions as parameters (to run them), and over the real numbers with
    the true functions (to state what they compute). *)

Class Arith (N : Type) : Type := {
  lit : Z -> N;
  n_add : N -> N -> N;
  n_sub : N -> N -> N;
  n_mul : N -> N -> N;
  n_div : N -> N -> N;
  n_opp : N -> N;
  n_is_zero : N -> bool;
  Math_floor : N -> Z;
  Math_PI : N;
  Math_cos : N -> N;
  Math_tan : N -> N;
  Math_log : N -> N;
  Math_exp : N -> N;
  Math_atan : N -> N;
}.

Declare Scope js_scope.
Delimit Scope js_scope with js.
Notation "a + b" := (n_add a b) : js_scope.
Notation "a - b" := (n_sub a b) : js_scope.
Notation "a * b" := (n_mul a b) : js_scope.
Notation "a / b" := (n_div a b) : js_scope.
Notation "- a" := (n_opp a) : js_scope.

(** [ToInt32] and the left shift [a << b] of 32-bit integers. *)
Definition toInt32 (z : Z) : Z := (z + 2 ^ 31) mod 2 ^ 32 - 2 ^ 31.
Definition shl (a b : Z) : Z := toInt32 (Z.shiftl (toInt32 a) (b mod 32)).

Definition TS : Z := 256.

Record GeoBoundingBox (N : Type) : Type := {
  west : N;
  east : N;
  south : N;
  north : N;
}.
Arguments west {N}.
Arguments east {N}.
Arguments south {N}.
Arguments north {N}.

Record TerrainParams (N : Type) : Type := {
  centerLat : N;
  centerLon : N;
  areaKm : N;
  outputPx : Z;
  zoom : Z;
}.
Arguments centerLat {N}.
Arguments centerLon {N}.
Arguments areaKm {N}.
Arguments outputPx {N}.
Arguments zoom {N}.

Record TileGrid : Type := {
  txMin : Z;
  txMax : Z;
  tyMin : Z;
  tyMax : Z;
}.

Definition tw (g : TileGrid) : Z := txMax g - txMin g + 1.
Definition th (g : TileGrid) : Z := tyMax g - tyMin g + 1.
Definition fullW (g : TileGrid) : Z := tw g * TS.
Definition fullH (g : TileGrid) : Z := th g * TS.

Record CropWindow : Type := {
  cropL : Z;
  cropR : Z;
  cropT : Z;
  cropB : Z;
}.

Definition cw (c : CropWindow) : Z := cropR c - cropL c.
Definition ch (c : CropWindow) : Z := cropB c - cropT c.

Section Geometry.
Context {N : Type} `{Arith N}.
Local Open Scope js_scope.

(** [Math.round(x)] *)
Definition Math_round (x : N) : Z := Math_floor (x + lit 1 / lit 2).

(** *** Slippy-map tile math *)

Definition lonToX (lon : N) (n : Z) : Z :=
  Math_floor (((lon + lit 180) / lit 360) * lit n).

Definition latToY (lat : N) (n : Z) : Z :=
  let r := (lat * Math_PI) / lit 180 in
  Math_floor
    (((lit 1 - Math_log (Math_tan r + lit 1 / Math_cos r) / Math_PI) / lit 2) * lit n).

Definition xToLon (x : Z) (n : Z) : N :=
  (lit x / lit n) * lit 360 - lit 180.

Definition yToLat (y : Z) (n : Z) : N :=
  let v := Math_PI - (lit 2 * Math_PI * lit y) / lit n in
  (lit 180 / Math_PI) * Math_atan ((lit 1 / lit 2) * (Math_exp v - Math_exp (- v))).

(** *** The bounding box of the request *)

(** The constant 111.32 is written as the quotient 11132 / 100. *)
Definition bboxOf (p : TerrainParams N) : GeoBoundingBox N :=
  let KM_PER_DEG_LAT := lit 11132 / lit 100 in
  let KM_PER_DEG_LON :=
    (lit 11132 / lit 100) * Math_cos ((centerLat p * Math_PI) / lit 180) in
  let halfSpanLat := areaKm p / lit 2 / KM_PER_DEG_LAT in
  let halfSpanLon := areaKm p / lit 2 / KM_PER_DEG_LON in
  {| west := centerLon p - halfSpanLon;
     east := centerLon p + halfSpanLon;
     south := centerLat p - halfSpanLat;
     north := centerLat p + halfSpanLat |}.

(** *** The tiles that cover a bounding box *)

Definition tileGrid (bbox : GeoBoundingBox N) (zoom : Z) : TileGrid :=
  let n := shl 1 zoom in
  {| txMin := lonToX (west bbox) n;
     txMax := lonToX (east bbox) n;
     tyMin := latToY (north bbox) n;
     tyMax := latToY (south bbox) n |}.

(** *** Pixel coordinates of the bounding box inside the tile grid *)

Definition cropOffsets (bbox : GeoBoundingBox N) (gridW gridE gridN gridS : N)
    (fullW fullH : Z) : CropWindow :=
  {| cropL := Math_round (((west bbox - gridW) / (gridE - gridW)) * lit fullW);
     cropR := Math_round (((east bbox - gridW) / (gridE - gridW)) * lit fullW);
     cropT := Math_round (((gridN - north bbox) / (gridN - gridS)) * lit fullH);
     cropB := Math_round (((gridN - south bbox) / (gridN - gridS)) * lit fullH) |}.

(** The crop window of a request.  When the grid has no extent in one
    direction the quotients above are not finite numbers in the program
    (a division by zero); [None] stands for that case. *)
Definition cropWindow (bbox : GeoBoundingBox N) (g : TileGrid) (zoom : Z)
    : option CropWindow :=
  let n := shl 1 zoom in
  let gridW := xToLon (txMin g) n in
  let gridE := xToLon (txMax g + 1) n in
  let gridN := yToLat (tyMin g) n in
  let gridS := yToLat (tyMax g + 1) n in
  if n_is_zero (gridE - gridW) || n_is_zero (gridN - gridS) then None
  else Some (cropOffsets bbox gridW gridE gridN gridS (fullW g) (fullH g)).
End Geometry.

(** ** Download and stitch *)

(** The body of the [then] callback of one tile: copy the decoded tile into
    the full raster at pixel offset [(ox, oy)]. *)
Definition copyTile (full : list num) (fullW : Z) (ox oy : Z) (t : DecodedTile)
    : list num :=
  for_range 0 (height t) (fun y =>
    for_range 0 (width t) (fun x full =>
      set full ((oy + y) * fullW + (ox + x)) (get (elev t) (y * width t + x))))
    full.

(** The tiles requested, in the order the two loops issue the requests:
    [ty] from [tyMin] to [tyMax], and for each [tx] from [txMin] to [txMax]. *)
Definition tileRequests (g : TileGrid) : list (Z * Z) :=
  ty ← seqZ (tyMin g) (tyMax g - tyMin g + 1);
  tx ← seqZ (txMin g) (txMax g - txMin g + 1);
  [(tx, ty)].

(** [await Promise.all(promises)].  The requests complete in an order the
    program does not control: [schedule] lists the positions of the
    requests in the order in which they settle.  A fulfilled request runs
    its callback at that moment; the first rejected one rejects the whole
    and the pipeline throws its error. *)
Fixpoint awaitAll (net : Network) (zoom : Z) (g : TileGrid)
    (schedule : list nat) (full : list num) : outcome (list num) :=
  match schedule with
  | [] => Returned full
  | k :: rest =>
      match tileRequests g !! k with
      | None => awaitAll net zoom g rest full
      | Some (tx, ty) =>
          match fetchAndDecodeTile net zoom tx ty with
          | Threw e => Threw e
          | Returned t =>
              let ox := (tx - txMin g) * TS in
              let oy := (ty - tyMin g) * TS in
              awaitAll net zoom g rest (copyTile full (fullW g) ox oy t)
          end
      end
  end.

Definition stitch (net : Network) (zoom : Z) (g : TileGrid) (schedule : list nat)
    : outcome (list num) :=
  full ← newFloat32Array (fullW g * fullH g);
  awaitAll net zoom g schedule full.

(** ** Extract + find range *)

Record CropState : Type := {
  cropped : list num;
  lo : num;
  hi : num;
}.

Definition cropPixel (full : list num) (fullW : Z) (c : CropWindow) (y x : Z)
    (s : CropState) : CropState :=
  let v := get full ((cropT c + y) * fullW + (cropL c + x)) in
  {| cropped := set (cropped s) (y * cw c + x) v;
     lo := if num_lt v (lo s) then v else lo s;
     hi := if num_gt v (hi s) then v else hi s |}.

Definition crop (full : list num) (fullW : Z) (c : CropWindow) : outcome CropState :=
  cropped0 ← newFloat32Array (cw c * ch c);
  mret (for_range 0 (ch c) (fun y =>
          for_range 0 (cw c) (fun x => cropPixel full fullW c y x))
        {| cropped := cropped0; lo := PosInf; hi := NegInf |}).

(** ** Normalize to 0..255 *)

(** [new Uint8Array(len)] *)
Definition newUint8Array (len : Z) : outcome (list Z) :=
  if len <? 0 then Threw RangeError
  else Returned (replicate (Z.to_nat len) 0).

(** [Math.round(((v - lo) / range) * 255)] as stored into a [Uint8Array]. *)
Definition normalizePixel (v lo range : num) : Z :=
  toUint8 (num_round (num_mul (num_div (num_sub v lo) range) (num_of_Z 255))).

Definition normalize (s : CropState) (c : CropWindow) : outcome (list Z) :=
  let range := num_or (num_sub (hi s) (lo s)) (num_of_Z 1) in
  u8 ← newUint8Array (cw c * ch c);
  mret (for_range 0 (Z.of_nat (length (cropped s)))
          (fun i u8 => set u8 i (normalizePixel (get (cropped s) i) (lo s) range))
          u8).

(** ** Resize to [outputPx] *)

(** [new OffscreenCanvas(sw, sh)] followed by [createImageData(sw, sh)]:
    the canvas rejects a negative size, [createImageData] a zero one;
    otherwise the pixels are transparent black. *)
Definition createImageData (sw sh : Z) : outcome (list Z) :=
  if (sw <? 0) || (sh <? 0) then Threw TypeError
  else if (sw =? 0) || (sh =? 0) then Threw (DOMException "IndexSizeError")
  else Returned (replicate (Z.to_nat (4 * sw * sh)) 0).

(** [u8[i]]; the bytes are written into a [Uint8ClampedArray], where an
    undefined value is stored as 0. *)
Definition u8_get (a : list Z) (i : Z) : Z := default 0 (read a i).

(** The grayscale data as RGBA. *)
Definition grayToRGBA (u8 : list Z) (data : list Z) : list Z :=
  for_range 0 (Z.of_nat (length u8)) (fun i data =>
    let v := u8_get u8 i in
    let data := set data (i * 4) v in
    let data := set data (i * 4 + 1) v in
    let data := set data (i * 4 + 2) v in
    set data (i * 4 + 3) 255) data.

(** The smoothing filter of the canvas, [drawImage] from a [sw] x [sh]
    canvas onto an [outputPx] x [outputPx] one followed by [getImageData],
    is the browser's: a parameter of the pipeline. *)
Definition Resampler : Type := list Z -> Z -> Z -> Z -> outcome (list Z).

Definition redChannel (outputPx : Z) (dstData : list Z) : outcome (list Z) :=
  heightmap ← newUint8Array (outputPx * outputPx);
  mret (for_range 0 (Z.of_nat (length heightmap)) (fun i heightmap =>
          set heightmap i (u8_get dstData (i * 4))) heightmap).

Definition resize (resample : Resampler) (u8 : list Z) (c : CropWindow)
    (outputPx : Z) : outcome (list Z) :=
  srcImg ← createImageData (cw c) (ch c);
  let srcImg := grayToRGBA u8 srcImg in
  dstData ← resample srcImg (cw c) (ch c) outputPx;
  redChannel outputPx dstData.

(** ** Main pipeline *)

Record HeightmapResult : Type := {
  heightmap : list Z;
  hm_width : Z;
  hm_height : Z;
  elevMin : num;
  elevMax : num;
}.

(** The host's [Math] object, on rationals. *)
Record HostMath : Type := {
  host_PI : Q;
  host_cos : Q -> Q;
  host_tan : Q -> Q;
  host_log : Q -> Q;
  host_exp : Q -> Q;
  host_atan : Q -> Q;
}.

#[export] Instance Q_Arith (h : HostMath) : Arith Q := {|
  lit := inject_Z;
  n_add := Qplus;
  n_sub := Qminus;
  n_mul := Qmult;
  n_div := Qdiv;
  n_opp := Qopp;
  n_is_zero := Qis_zero;
  Math_floor := Qfloor;
  Math_PI := host_PI h;
  Math_cos := host_cos h;
  Math_tan := host_tan h;
  Math_log := host_log h;
  Math_exp := host_exp h;
  Math_atan := host_atan h;
|}.

Section Pipeline.
Context {N : Type} `{Arith N}.
Context (net : Network) (schedule : list nat) (resample : Resampler).

(** The stages after the tiles have been stitched. *)
Definition finish (full : list num) (g : TileGrid) (c : CropWindow)
    (outputPx : Z) : outcome HeightmapResult :=
  s ← crop full (fullW g) c;
  u8 ← normalize s c;
  heightmap ← resize resample u8 c outputPx;
  mret {| heightmap := heightmap; hm_width := outputPx; hm_height := outputPx;
          elevMin := lo s; elevMax := hi s |}.

(** A crop window that is not made of finite numbers makes every
    allocation and canvas of the later stages fail, or the crop loop run
    for ever: no result is returned.  [TypeError] stands for that. *)
Definition generateHeightmap (params : TerrainParams N) : outcome HeightmapResult :=
  let bbox := bboxOf params in
  let g := tileGrid bbox (zoom params) in
  full ← stitch net (zoom params) g schedule;
  match cropWindow bbox g (zoom params) with
  | None => Threw TypeError
  | Some c => finish full g c (outputPx params)
  end.
End Pipeline.

(** ** The same computations over the real numbers *)

#[export] Instance R_Arith : Arith R := {|
  lit := IZR;
  n_add := Rplus;
  n_sub := Rminus;
  n_mul := Rmult;
  n_div := Rdiv;
  n_opp := Ropp;
  n_is_zero := fun x => if Req_dec_T x 0 then true else false;
  Math_floor := Zfloor;
  Math_PI := PI;
  Math_cos := cos;
  Math_tan := tan;
  Math_log := ln;
  Math_exp := exp;
  Math_atan := atan;
|}.

(** ** The interchange text for the CAD compiler *)

(** How [Array.prototype.join] renders one element: a number in decimal,
    [undefined] as the empty string. *)
Definition showElement (e : option Z) : string :=
  match e with
  | Some b => pretty b
  | None => ""
  end.

(** [row.join(sep)] *)
Definition join (sep : string) (l : list string) : string := String.concat sep l.

(** The inner loop: the elements pushed onto [row] for image row [y]. *)
Definition datRow (heightmap : list Z) (width : Z) (y : Z) : list (option Z) :=
  for_range 0 width (fun x row => row ++ [read heightmap (y * width + x)]) [].

(** [for (let y = height - 1; y >= 0; y--) body] *)
Definition for_down {S : Type} (height : Z) (body : Z -> S -> S) (s : S) : S :=
  foldl (fun s y => body y s) s (reverse (seqZ 0 height)).

Definition datLines (heightmap : list Z) (width height : Z) : list string :=
  for_down height (fun y lines =>
    lines ++ [join " " (showElement <$> datRow heightmap width y)]) [].

(** The line feed character, as a string. *)
Definition LF : string := String (Ascii.ascii_of_nat 10) EmptyString.

Definition heightmapToDat (heightmap : list Z) (width height : Z) : string :=
  join LF (datLines heightmap width height) +:+ LF.

(** ** Reference definitions, following the design document *)

Definition Qclamp (x a b : Q) : Q := Qmax a (Qmin x b).

(** [round(clamp((v - elevMin) / max(elevMax - elevMin, eps), 0, 1) * 255)] *)
Definition normalize_ref (eps v elevMin elevMax : Q) : Z :=
  Qround_half_up (Qclamp ((v - elevMin) / Qmax (elevMax - elevMin) eps) 0 1 * 255).

(** ** A host for running the pipeline on examples

    An equirectangular stand-in for the [Math] functions: with it the tile
    rows are linear in the latitude, and the two directions of the tile
    math are inverse to each other, as they are for the true functions. *)
Definition linearHost : HostMath := {|
  host_PI := 3;
  host_cos := fun _ => 1%Q;
  host_tan := fun x => x;
  host_log := fun x => (x - 1)%Q;
  host_exp := fun x => x;
  host_atan := fun x => x;
|}.

(** A resampler that repeats the first pixel of its source. *)
Definition flatResampler : Resampler := fun src sw sh outputPx =>
  if outputPx <=? 0 then Threw (DOMException "IndexSizeError")
  else Returned (replicate (Z.to_nat (4 * outputPx * outputPx)) (u8_get src 0)).

(** A network that serves the same 2 x 2 image for every tile. *)
Definition smallImage : ImageData := {|
  img_data := [128; 10; 0; 255;  128; 20; 128; 255;
               128; 30; 0; 255;  128; 40; 64; 255];
  img_width := 2;
  img_height := 2;
|}.

Definition okResponse (img : ImageData) : Response :=
  {| res_ok := true; res_status := 200; res_image := Returned img |}.

Definition smallNet : Network := fun _ => Returned (okResponse smallImage).


(** A request whose bounding box is the top-left 2 x 2 pixels of tile
    (4, 3) at zoom 3 under [linearHost]. *)
Definition smallParams : TerrainParams Q := {|
  centerLat := 44.82421875%Q;
  centerLon := 0.17578125%Q;
  areaKm := 39.1359375%Q;
  outputPx := 3;
  zoom := 3;
|}.

(** ** Auxiliary notions for the proofs *)

(** A sequence of writes [a[idx k] = val k], one for each [k] of a list. *)
Definition writes {A K : Type} (idx : K -> Z) (val : K -> A) (ks : list K)
    (a : list A) : list A :=
  foldl (fun a k => set a (idx k) (val k)) a ks.

(** The pairs of indices that two nested loops visit, in row-major order. *)
Definition pairs (ys xs : list Z) : list (Z * Z) :=
  y ← ys; x ← xs; [(y, x)].

(** Row [r] of a row-major grid of width [w]. *)
Definition row (heightmap : list Z) (w r : Z) : list Z :=
  take (Z.to_nat w) (drop (Z.to_nat (r * w)) heightmap).

(** A text made of lines, each ended by a line feed. *)
Definition unlines (ls : list string) : string :=
  foldr (fun l s => l +:+ LF +:+ s) "" ls.

(** One line of the interchange text: the values in decimal, separated by
    single spaces. *)
Definition datLine (values : list Z) : string := join " " (pretty <$> values).

(** The decoded tile at a coordinate, when its request succeeds. *)
Definition tileAt (net : Network) (zoom tx ty : Z) : DecodedTile :=
  match fetchAndDecodeTile net zoom tx ty with
  | Returned t => t
  | Threw _ => {| elev := []; width := 0; height := 0 |}
  end.

(** The callback of the request at position [k] of the request list. *)
Definition settleOne (net : Network) (zoom : Z) (g : TileGrid) (full : list num)
    (k : nat) : list num :=
  match tileRequests g !! k with
  | None => full
  | Some (tx, ty) =>
      copyTile full (fullW g) ((tx - txMin g) * TS) ((ty - tyMin g) * TS)
        (tileAt net zoom tx ty)
  end.

(** Every tile of the grid is served, as an image of 256 x 256 pixels. *)
Definition tiles_ok (net : Network) (zoom : Z) (g : TileGrid) : Prop :=
  forall tx ty, (tx, ty) ∈ tileRequests g ->
    exists t, fetchAndDecodeTile net zoom tx ty = Returned t /\
      width t = TS /\ height t = TS.

(** The tile whose region holds index [j] of the stitched raster, and the
    pixel of that tile stored there. *)
Definition owner (g : TileGrid) (j : Z) : Z * Z :=
  (txMin g + (j mod fullW g) / TS, tyMin g + (j / fullW g) / TS).

Definition ownerPixel (g : TileGrid) (j : Z) : Z :=
  ((j / fullW g) mod TS) * TS + (j mod fullW g) mod TS.

(** The index in the stitched raster of pixel [(x, y)] of tile [(tx, ty)]. *)
Definition stitchedIndex (g : TileGrid) (tx ty x y : Z) : Z :=
  ((ty - tyMin g) * TS + y) * fullW g + ((tx - txMin g) * TS + x).

(** A network that serves the same flat 256 x 256 image for every tile. *)
Definition flatImage : ImageData := {|
  img_data := replicate (Z.to_nat (TS * TS * 4)) 128;
  img_width := TS;
  img_height := TS;
|}.

Definition flatNet : Network := fun _ => Returned (okResponse flatImage).

(** The grid made of the single tile (4, 3). *)
Definition oneTile : TileGrid := {| txMin := 4; txMax := 4; tyMin := 3; tyMax := 3 |}.

(** The running minimum and maximum of the crop loop over a list of values. *)
Definition trackMin (vs : list num) (l : num) : num :=
  foldl (fun l v => if num_lt v l then v else l) l vs.

Definition trackMax (vs : list num) (u : num) : num :=
  foldl (fun u v => if num_gt v u then v else u) u vs.

(** The value of the stitched raster under pixel [(x, y)] of the window. *)
Definition windowValue (full : list num) (fullW : Z) (c : CropWindow) (p : Z * Z)
    : num :=
  get full ((cropT c + p.1) * fullW + (cropL c + p.2)).

(** The pixels of the crop window, row by row. *)
Definition windowPixels (c : CropWindow) : list (Z * Z) :=
  pairs (seqZ 0 (ch c)) (seqZ 0 (cw c)).

(** The crop window lies inside a raster of [fullW] x [fullH] pixels. *)
Definition inside (fullW fullH : Z) (c : CropWindow) : Prop :=
  0 <= cropL c <= cropR c /\ cropR c <= fullW /\
  0 <= cropT c <= cropB c /\ cropB c <= fullH.

(** [m] is the least (greatest) value of the raster over the window. *)
Definition window_min (full : list num) (fullW : Z) (c : CropWindow) (m : num)
    : Prop :=
  (forall x y, 0 <= x < cw c -> 0 <= y < ch c ->
     num_le m (windowValue full fullW c (y, x))) /\
  (exists x y, 0 <= x < cw c /\ 0 <= y < ch c /\
     m = windowValue full fullW c (y, x)).

Definition window_max (full : list num) (fullW : Z) (c : CropWindow) (m : num)
    : Prop :=
  (forall x y, 0 <= x < cw c -> 0 <= y < ch c ->
     num_le (windowValue full fullW c (y, x)) m) /\
  (exists x y, 0 <= x < cw c /\ 0 <= y < ch c /\
     m = windowValue full fullW c (y, x)).



Definition smallWindow : CropWindow :=
  {| cropL := 0; cropR := 2; cropT := 0; cropB := 2 |}.


(** A cropped raster of 2 x 2 pixels with its range. *)
Definition smallCrop : CropState :=
  {| cropped := [Fin 10; Fin 20.5; Fin 30; Fin 40.25];
     lo := Fin 10;
     hi := Fin 40.25 |}.


(** The images that the network serves are well formed. *)
Definition net_wf (net : Network) : Prop :=
  forall url res img,
    net url = Returned res -> res_image res = Returned img -> wf_image img.

(** The result of the pipeline on [smallParams]. *)
Definition smallResult : HeightmapResult :=
  Eval vm_compute in
    match generateHeightmap (H := Q_Arith linearHost) smallNet [0%nat] flatResampler
            smallParams with
    | Returned r => r
    | Threw _ =>
        {| heightmap := []; hm_width := 0; hm_height := 0; elevMin := NaN; elevMax := NaN |}
    end.





(** The Mercator ordinate [ln(tan r + 1 / cos r)] of a latitude in radians. *)
Definition mercator (r : R) : R := ln (tan r + 1 / cos r).


(** The character [c] occurs in the string [s]. *)
Fixpoint occurs (c : Ascii.ascii) (s : string) : Prop :=
  match s with
  | EmptyString => False
  | String c' s' => c = c' \/ occurs c s'
  end.

(** The characters of a decimal numeral. *)
Definition numeral_char (c : Ascii.ascii) : Prop :=
  c ∈ ["0"; "1"; "2"; "3"; "4"; "5"; "6"; "7"; "8"; "9"; "-"]%char.

(** A multiple of 1/256 of magnitude below 2^16: such a number has at most
    24 significant bits and is stored without rounding in a
    [Float32Array]. *)
Definition on_grid256 (q : Q) : Prop :=
  exists m : Z, - 2 ^ 24 < m < 2 ^ 24 /\ (q == inject_Z m * (1 # 256))%Q.

(** ** The demo heightmap: [parseDatHeightmap] of [src/lib/demo-assets.ts]

    Strings are sequences of 8-bit characters here; the characters that
    the pattern [\s] and [trim] treat as white space are, among these, the
    codes 9 to 13, 32 and 160.  [Number], the conversion of a string to a
    number, is the host's and a parameter. *)

Definition is_space (c : Ascii.ascii) : bool :=
  existsb (Nat.eqb (Ascii.nat_of_ascii c)) [9; 10; 11; 12; 13; 32; 160]%nat.

Definition is_LF (c : Ascii.ascii) : bool := Nat.eqb (Ascii.nat_of_ascii c) 10.
Definition is_CR (c : Ascii.ascii) : bool := Nat.eqb (Ascii.nat_of_ascii c) 13.

(** [s + c] *)
Definition snoc (s : string) (c : Ascii.ascii) : string := s +:+ String c "".

(** [content.split(/\r?\n/)]: [cur] is the piece being read. *)
Fixpoint splitLines_from (s : string) (cur : string) : list string :=
  match s with
  | EmptyString => [cur]
  | String c s' =>
      if is_LF c then cur :: splitLines_from s' ""
      else if is_CR c then
        match s' with
        | String c' s'' =>
            if is_LF c' then cur :: splitLines_from s'' ""
            else splitLines_from s' (snoc cur c)
        | EmptyString => splitLines_from s' (snoc cur c)
        end
      else splitLines_from s' (snoc cur c)
  end.

Definition splitLines (s : string) : list string := splitLines_from s "".

(** [line.split(/\s+/)]: a separator is a maximal run of white space;
    [inSep] tells that the previous character belonged to one. *)
Fixpoint splitSpaces_from (s : string) (cur : string) (inSep : bool) : list string :=
  match s with
  | EmptyString => [cur]
  | String c s' =>
      if is_space c then
        if inSep then splitSpaces_from s' cur true
        else cur :: splitSpaces_from s' "" true
      else splitSpaces_from s' (snoc cur c) false
  end.

Definition splitSpaces (s : string) : list string := splitSpaces_from s "" false.

Fixpoint trimStart (s : string) : string :=
  match s with
  | EmptyString => ""
  | String c s' => if is_space c then trimStart s' else s
  end.

Fixpoint trimEnd (s : string) : string :=
  match s with
  | EmptyString => ""
  | String c s' =>
      match trimEnd s' with
      | EmptyString => if is_space c then "" else String c ""
      | t => String c t
      end
  end.

(** [line.trim()] *)
Definition trim (s : string) : string := trimEnd (trimStart s).

(** [Math.min(a, b)] and [Math.max(a, b)] *)
Definition num_min (a b : num) : num :=
  match a, b with
  | NaN, _ | _, NaN => NaN
  | _, _ => if num_lt b a then b else a
  end.

Definition num_max (a b : num) : num :=
  match a, b with
  | NaN, _ | _, NaN => NaN
  | _, _ => if num_lt a b then b else a
  end.

(** [Number.isFinite(a)] *)
Definition num_isFinite (a : num) : bool :=
  match a with Fin _ => true | _ => false end.

(** A loop whose body may throw. *)
Definition for_range_try {S : Type} (lo hi : Z) (body : Z -> S -> outcome S) (s : S)
    : outcome S :=
  foldl (fun acc i => s ← acc; body i s) (Returned s) (seqZ lo (hi - lo)).

Record ParseState : Type := {
  ps_heightmap : list Z;
  ps_elevMin : num;
  ps_elevMax : num;
}.

Definition rowCountMessage (y : Z) : string :=
  "Demo heightmap row " +:+ pretty (y + 1) +:+ " has inconsistent column count".

Definition invalidValueMessage (y x : Z) : string :=
  "Demo heightmap has invalid value at row " +:+ pretty (y + 1)
    +:+ ", col " +:+ pretty (x + 1).

Section ParseDat.
Context (Number : string -> num).

(** The body of the inner loop, for column [x] of text row [y]. *)
Definition parseCell (values : list string) (width targetY y x : Z)
    (st : ParseState) : outcome ParseState :=
  let parsed := match read values x with Some v => Number v | None => NaN end in
  if negb (num_isFinite parsed) then Threw (Error (invalidValueMessage y x))
  else
    let value := num_max (num_of_Z 0) (num_min (num_of_Z 255) (num_round parsed)) in
    mret {| ps_heightmap := set (ps_heightmap st) (targetY * width + x) (toUint8 value);
            ps_elevMin := num_min (ps_elevMin st) value;
            ps_elevMax := num_max (ps_elevMax st) value |}.

(** The body of the outer loop, for text row [y]. *)
Definition parseRow (rows : list string) (width height y : Z) (st : ParseState)
    : outcome ParseState :=
  let values := splitSpaces (default "" (read rows y)) in
  if negb (Z.of_nat (length values) =? width) then Threw (Error (rowCountMessage y))
  else
    let targetY := height - 1 - y in
    for_range_try 0 width (parseCell values width targetY y) st.

Definition parseDatHeightmap (content : string) : outcome HeightmapResult :=
  let rows :=
    filter (fun line => 0 < String.length line)%nat (trim <$> splitLines content) in
  if Z.of_nat (length rows) =? 0 then Threw (Error "Demo heightmap is empty")
  else
    let firstRowValues := splitSpaces (default "" (read rows 0)) in
    let width := Z.of_nat (length firstRowValues) in
    let height := Z.of_nat (length rows) in
    if width =? 0 then Threw (Error "Demo heightmap has no columns")
    else
      heightmap ← newUint8Array (width * height);
      st ← for_range_try 0 height (parseRow rows width height)
             {| ps_heightmap := heightmap; ps_elevMin := PosInf; ps_elevMax := NegInf |};
      mret {| heightmap := ps_heightmap st; hm_width := width; hm_height := height;
              elevMin := ps_elevMin st; elevMax := ps_elevMax st |}.
End ParseDat.

(** A [Number] for examples: it reads a string of decimal digits as the
    host does, and gives NaN for every other string. *)
Definition digitValue (c : Ascii.ascii) : option Z :=
  let n := Ascii.nat_of_ascii c in
  if (48 <=? n)%nat && (n <=? 57)%nat then Some (Z.of_nat n - 48) else None.

Fixpoint decimal_from (s : string) (acc : Z) : option Z :=
  match s with
  | EmptyString => Some acc
  | String c s' =>
      match digitValue c with
      | Some d => decimal_from s' (acc * 10 + d)
      | None => None
      end
  end.

Definition decimalNumber (s : string) : num :=
  match decimal_from s 0 with
  | Some z => num_of_Z z
  | None => NaN
  end.

(** A text without white space. *)
Definition plain (s : string) : Prop :=
  forall c, occurs c s -> is_space c = false.

(** The first index of a loop at which a test fails. *)
Definition firstBad (ok : Z -> bool) (lo hi : Z) : option Z :=
  snd <$> list_find (fun i => ok i = false) (seqZ lo (hi - lo)).

(** What the loops of [parseDatHeightmap] compute for the field in column
    [x] of text row [y]: the number parsed, the value stored and tracked,
    and the step on the state when the number is finite. *)
Definition cellParsed (Number : string -> num) (rows : list string) (y x : Z) : num :=
  match read (splitSpaces (default "" (read rows y))) x with
  | Some v => Number v
  | None => NaN
  end.

Definition cellValue (Number : string -> num) (rows : list string) (y x : Z) : num :=
  num_max (num_of_Z 0) (num_min (num_of_Z 255) (num_round (cellParsed Number rows y x))).

Definition cellStep (Number : string -> num) (rows : list string) (width height : Z)
    (y x : Z) (st : ParseState) : ParseState :=
  {| ps_heightmap :=
       set (ps_heightmap st) ((height - 1 - y) * width + x)
         (toUint8 (cellValue Number rows y x));
     ps_elevMin := num_min (ps_elevMin st) (cellValue Number rows y x);
     ps_elevMax := num_max (ps_elevMax st) (cellValue Number rows y x) |}.

Definition cellOk (Number : string -> num) (rows : list string) (y x : Z) : bool :=
  num_isFinite (cellParsed Number rows y x).

Definition rowLength (rows : list string) (y : Z) : Z :=
  Z.of_nat (length (splitSpaces (default "" (read rows y)))).

Definition rowOk (Number : string -> num) (rows : list string) (width y : Z) : bool :=
  (rowLength rows y =? width)
  && bool_decide (firstBad (cellOk Number rows y) 0 width = None).

Definition rowError (Number : string -> num) (rows : list string) (width y : Z) : error :=
  if rowLength rows y =? width then
    Error (invalidValueMessage y (default 0 (firstBad (cellOk Number rows y) 0 width)))
  else Error (rowCountMessage y).

(** The non-empty trimmed lines of a text. *)
Definition datRows (content : string) : list string :=
  filter (fun line => 0 < String.length line)%nat (trim <$> splitLines content).

(** The byte that a text of [h] rows gives for pixel [(x, y)] of the image:
    the rows of the text run bottom-up. *)
Definition byteAt (Number : string -> num) (rows : list string) (h y x : Z) : Z :=
  toUint8 (cellValue Number rows (h - 1 - y) x).

(** A text without line breaks, and a text made of white space only. *)
Definition oneLine (s : string) : Prop :=
  forall c, occurs c s -> is_LF c = false /\ is_CR c = false.

Definition blank (s : string) : Prop :=
  forall c, occurs c s -> is_space c = true.

(** A small demo text and what [parseDatHeightmap] makes of it. *)
Definition demoText : string := heightmapToDat [1; 2; 3; 4; 5; 6] 3 2.

Definition demoResult : HeightmapResult :=
  Eval vm_compute in
    match parseDatHeightmap decimalNumber demoText with
    | Returned r => r
    | Threw _ =>
        {| heightmap := []; hm_width := 0; hm_height := 0; elevMin := NaN; elevMax := NaN |}
    end.

(** A text of white space only, and a text whose second row is short. *)
Definition blankText : string :=
  String " " (String (Ascii.ascii_of_nat 13) (String (Ascii.ascii_of_nat 10)
    (String (Ascii.ascii_of_nat 9) (String (Ascii.ascii_of_nat 10) "")))).

Definition raggedText : string := "1 2" +:+ LF +:+ "3" +:+ LF.

(** ** Formatting numbers

    [Number.prototype.toString] on an arbitrary number is the host's, a
    parameter.  [toFixed(f)] is modelled by what the language
    specification prescribes on exact values: for a finite [x] of
    magnitude below 10^21, the integer [n] nearest to [|x| * 10^f] (the
    larger one on a tie) written with [f] fraction digits, after the sign
    of [x]. *)

Fixpoint zeros (k : nat) : string :=
  match k with
  | O => ""
  | S k' => String "0" (zeros k')
  end.

(** [s] padded on the left with zeros to [f] characters. *)
Definition padStart (f : nat) (s : string) : string :=
  zeros (f - String.length s) +:+ s.

(** The digits of [n / 10^f] with [f] fraction digits. *)
Definition fixedDigits (f : nat) (n : Z) : string :=
  match f with
  | O => pretty n
  | _ => pretty (n / 10 ^ Z.of_nat f) +:+ "."
           +:+ padStart f (pretty (n mod 10 ^ Z.of_nat f))
  end.

Definition toFixed (toString : num -> string) (f : nat) (a : num) : string :=
  match a with
  | Fin x =>
      let s := if num_lt a (num_of_Z 0) then "-" else "" in
      let x := if num_lt a (num_of_Z 0) then (- x)%Q else x in
      if num_lt (Fin x) (num_of_Z (10 ^ 21)) then
        s +:+ fixedDigits f (Qround_half_up (x * inject_Z (10 ^ Z.of_nat f)))
      else s +:+ toString (Fin x)
  | _ => toString a
  end.

(** The double quote, as a string. *)
Definition DQ : string := String (Ascii.ascii_of_nat 34) EmptyString.

(** ** [formatSize] of [src/lib/openscad.ts] *)

Definition formatSize (toString : num -> string) (bytes : num) : string :=
  if num_lt bytes (num_of_Z 1024) then toString bytes +:+ " B"
  else if num_lt bytes (num_of_Z (1024 * 1024)) then
    toFixed toString 1 (num_div bytes (num_of_Z 1024)) +:+ " KB"
  else toFixed toString 1 (num_div bytes (num_of_Z (1024 * 1024))) +:+ " MB".

(** ** The SCAD template: [generateScad] *)

Module Scad.
Record ScadParams : Type := {
  centerLat : num;
  centerLon : num;
  areaKm : num;
  outputPx : num;
  modelMm : num;
  zExag : num;
  baseMm : num;
  elevMin : num;
  elevMax : num;
}.

Definition gridSpan (p : ScadParams) : num :=
  num_max (num_sub (outputPx p) (num_of_Z 1)) (num_of_Z 1).

Definition xyScale (p : ScadParams) : num := num_div (modelMm p) (gridSpan p).

Definition modelHeightMM (p : ScadParams) : num :=
  num_mul
    (num_mul
       (num_div (num_sub (elevMax p) (elevMin p))
                (num_mul (areaKm p) (num_of_Z 1000)))
       (modelMm p))
    (zExag p).

Definition zScale (p : ScadParams) : num := num_div (modelHeightMM p) (num_of_Z 255).

Definition generateScad (toString : num -> string) (p : ScadParams) : string :=
  "// 3D terrain model" +:+ LF
  +:+ "// Center: " +:+ toString (centerLat p) +:+ "°N, "
      +:+ toString (centerLon p) +:+ "°E" +:+ LF
  +:+ "// Area:   ~" +:+ toString (areaKm p) +:+ " km × "
      +:+ toString (areaKm p) +:+ " km" +:+ LF
  +:+ "// Elev:   " +:+ toFixed toString 0 (elevMin p) +:+ " m – "
      +:+ toFixed toString 0 (elevMax p) +:+ " m" +:+ LF
  +:+ "// Z exag: " +:+ toString (zExag p) +:+ "×" +:+ LF
  +:+ "// Model:  " +:+ toString (modelMm p) +:+ " mm × "
      +:+ toString (modelMm p) +:+ " mm, height ~"
      +:+ toFixed toString 1 (modelHeightMM p) +:+ " mm" +:+ LF
  +:+ LF
  +:+ "xy = " +:+ toFixed toString 6 (xyScale p) +:+ ";" +:+ LF
  +:+ "z  = " +:+ toFixed toString 6 (zScale p) +:+ ";" +:+ LF
  +:+ "base = " +:+ toString (baseMm p) +:+ ";" +:+ LF
  +:+ LF
  +:+ "union() {" +:+ LF
  +:+ "  // terrain surface" +:+ LF
  +:+ "  scale([xy, xy, z])" +:+ LF
  +:+ "    surface(file = " +:+ DQ +:+ "heightmap.dat" +:+ DQ +:+ ", center = true);" +:+ LF
  +:+ LF
  +:+ "  // base slab, same XY footprint as terrain. Slight Z overlap removes seam." +:+ LF
  +:+ "  translate([0, 0, -(base - 0.5) / 2])" +:+ LF
  +:+ "    cube([" +:+ toString (modelMm p) +:+ ", " +:+ toString (modelMm p)
      +:+ ", base + 0.5], center = true);" +:+ LF
  +:+ "}" +:+ LF.
End Scad.

(** A [toString] for examples: integers in decimal, and a placeholder for
    every other number. *)
Definition integerToString (a : num) : string :=
  match a with
  | Fin x => if Qeq_bool x (inject_Z (Qfloor x)) then pretty (Qfloor x) else "?"
  | NaN => "NaN"
  | PosInf => "Infinity"
  | NegInf => "-Infinity"
  end.



(** ** The preview image: [src/lib/heightmap.ts]

    [putImageData] followed by [convertToBlob] is the browser's PNG
    encoder, and [FileReader.readAsDataURL] its reader: parameters. *)
Section Preview.
Context {Blob : Type}.
Context (encode : list Z -> Z -> Z -> outcome Blob).
Context (readAsDataURL : Blob -> outcome string).

Definition heightmapToPngBlob (heightmap : list Z) (width height : Z) : outcome Blob :=
  imgData ← createImageData width height;
  let imgData := grayToRGBA heightmap imgData in
  encode imgData width height.

Definition heightmapToDataUrl (heightmap : list Z) (width height : Z) : outcome string :=
  blob ← heightmapToPngBlob heightmap width height;
  readAsDataURL blob.
End Preview.

(** An encoder for examples: the blob is the image itself. *)
Definition rawEncoder : list Z -> Z -> Z -> outcome (list Z) :=
  fun data _ _ => Returned data.

(** A request so small that its crop window is empty under [linearHost]. *)
Definition tinyParams : TerrainParams Q := {|
  centerLat := 44.82421875%Q;
  centerLon := 0.17578125%Q;
  areaKm := 0.001%Q;
  outputPx := 3;
  zoom := 3;
|}.


(** A text made of lines, each ended by a carriage return and a line feed. *)
Definition CRLF : string :=
  String (Ascii.ascii_of_nat 13) (String (Ascii.ascii_of_nat 10) EmptyString).

Definition unlinesCRLF (ls : list string) : string :=
  foldr (fun l s => l +:+ CRLF +:+ s) "" ls.

(** A value that the decoder can produce, or the zero that fills the
    raster: a multiple of 1/256 from -32768 up to, but not including,
    32768. *)
Definition elevation_value (v : num) : Prop :=
  exists q, v = Fin q /\ on_grid256 q /\ (-32768 <= q < 32768)%Q.

(** * Properties *)

(** ** Typed arrays: reading after writing *)

Section Arrays.
Context {A : Type}.
Implicit Types (a : list A) (i j : Z) (v : A).

Lemma read_Some_lt a i v : read a i = Some v -> 0 <= i < Z.of_nat (length a).
Proof.
  unfold read. destruct (Z.ltb_spec i 0); [done|].
  intros Hl. apply lookup_lt_Some in Hl. lia.
Qed.

Lemma read_is_Some a i : 0 <= i < Z.of_nat (length a) -> is_Some (read a i).
Proof.
  intros Hi. unfold read. destruct (Z.ltb_spec i 0); [lia|].
  apply lookup_lt_is_Some. lia.
Qed.

Lemma read_None a i : ~ (0 <= i < Z.of_nat (length a)) -> read a i = None.
Proof.
  intros Hi. destruct (read a i) eqn:E; [|done].
  apply read_Some_lt in E. lia.
Qed.

Lemma length_set a i v : length (set a i v) = length a.
Proof. unfold set. destruct (i <? 0); [done|]. apply length_insert. Qed.

Lemma read_set_eq a i v :
  0 <= i < Z.of_nat (length a) -> read (set a i v) i = Some v.
Proof.
  intros Hi. unfold read, set. destruct (Z.ltb_spec i 0); [lia|].
  apply list_lookup_insert_eq. lia.
Qed.

Lemma read_set_ne a i j v : i <> j -> read (set a i v) j = read a j.
Proof.
  intros Hij. unfold read, set.
  destruct (Z.ltb_spec j 0); [done|]. destruct (Z.ltb_spec i 0); [done|].
  apply list_lookup_insert_ne. lia.
Qed.

Lemma read_ext a b :
  length a = length b -> (forall i, read a i = read b i) -> a = b.
Proof.
  intros Hlen Hrd. apply list_eq. intros n.
  specialize (Hrd (Z.of_nat n)). unfold read in Hrd.
  destruct (Z.ltb_spec (Z.of_nat n) 0); [lia|]. by rewrite Nat2Z.id in Hrd.
Qed.

Context {K : Type} (idx : K -> Z) (val : K -> A).

Lemma length_writes ks a : length (writes idx val ks a) = length a.
Proof.
  unfold writes. revert a. induction ks as [|k ks IH]; intros a; [done|].
  simpl. rewrite IH. apply length_set.
Qed.

Lemma read_writes_other ks a j :
  (forall k, k ∈ ks -> idx k <> j) -> read (writes idx val ks a) j = read a j.
Proof.
  unfold writes. revert a. induction ks as [|k ks IH]; intros a Hks; [done|].
  simpl. rewrite IH.
  - apply read_set_ne, Hks. left.
  - intros k' Hk'. apply Hks. by right.
Qed.

(** If every write to [j] stores [v], and [j] holds [v] already or is
    written at least once, then [j] holds [v] in the end. *)
Lemma read_writes_inv ks a j v :
  0 <= j < Z.of_nat (length a) ->
  (forall k, k ∈ ks -> idx k = j -> val k = v) ->
  read a j = Some v \/ (exists k, k ∈ ks /\ idx k = j) ->
  read (writes idx val ks a) j = Some v.
Proof.
  unfold writes. revert a. induction ks as [|k ks IH]; intros a Hj Hv Hor.
  - destruct Hor as [Hor|(k & Hk & _)]; [done|]. by apply elem_of_nil in Hk.
  - simpl. apply IH.
    + by rewrite length_set.
    + intros k' Hk'. apply Hv. by right.
    + destruct (decide (idx k = j)) as [Heq|Hne].
      * left. rewrite Heq. rewrite read_set_eq by done.
        f_equal. apply Hv; [left|done].
      * rewrite read_set_ne by done.
        destruct Hor as [Hor|(k' & Hk' & Hidx)]; [by left|].
        right. exists k'. split; [|done].
        apply elem_of_cons in Hk' as [->|Hk']; [done|done].
Qed.
End Arrays.

Lemma get_read (a : list num) i v : read a i = Some v -> get a i = v.
Proof. unfold get. by intros ->. Qed.

(** ** Loops *)

(** Two nested loops run their body on the pairs of indices in row-major
    order. *)
Lemma foldl_pairs {S : Type} (body : Z -> Z -> S -> S) ys xs s :
  foldl (fun s y => foldl (fun s x => body y x s) s xs) s ys
  = foldl (fun s p => body p.1 p.2 s) s (pairs ys xs).
Proof.
  revert s. induction ys as [|y ys IH]; intros s; [done|].
  unfold pairs in *. simpl. rewrite foldl_app, <- IH. f_equal.
  generalize s. clear. induction xs as [|x xs IH]; intros s; [done|].
  simpl. apply IH.
Qed.

Lemma for_range_nested {S : Type} h w (body : Z -> Z -> S -> S) s :
  for_range 0 h (fun y => for_range 0 w (fun x => body y x)) s
  = foldl (fun s p => body p.1 p.2 s) s (pairs (seqZ 0 h) (seqZ 0 w)).
Proof. unfold for_range. rewrite !Z.sub_0_r. apply foldl_pairs. Qed.

Lemma elem_of_pairs ys xs y x :
  (y, x) ∈ pairs ys xs <-> y ∈ ys /\ x ∈ xs.
Proof.
  unfold pairs. rewrite list_elem_of_bind. split.
  - intros (y' & Hin & Hy'). apply list_elem_of_bind in Hin as (x' & Hin & Hx').
    apply list_elem_of_singleton in Hin. by simplify_eq.
  - intros [Hy Hx]. exists y. split; [|done].
    apply list_elem_of_bind. exists x. split; [|done]. by apply list_elem_of_singleton.
Qed.

(** A loop that fills an array element by element. *)
Lemma read_fill {A : Type} (f : Z -> A) (a : list A) n i :
  0 <= i < n -> i < Z.of_nat (length a) ->
  read (for_range 0 n (fun i a => set a i (f i)) a) i = Some (f i).
Proof.
  intros Hi Hlen. unfold for_range.
  change (foldl _ a ?ks) with (writes (fun k : Z => k) f ks a).
  apply read_writes_inv; [lia|by intros k _ ->|].
  right. exists i. split; [|done]. apply elem_of_seqZ. lia.
Qed.

Lemma length_fill {A : Type} (f : Z -> A) (a : list A) n :
  length (for_range 0 n (fun i a => set a i (f i)) a) = length a.
Proof.
  unfold for_range.
  change (foldl _ a ?ks) with (writes (fun k : Z => k) f ks a).
  apply length_writes.
Qed.

Lemma newFloat32Array_Returned len :
  0 <= len -> newFloat32Array len = Returned (replicate (Z.to_nat len) (Fin 0)).
Proof. intros Hl. unfold newFloat32Array. by destruct (Z.ltb_spec len 0); [lia|]. Qed.

Lemma newUint8Array_Returned len :
  0 <= len -> newUint8Array len = Returned (replicate (Z.to_nat len) 0).
Proof. intros Hl. unfold newUint8Array. by destruct (Z.ltb_spec len 0); [lia|]. Qed.

(** ** Decoding a tile *)

Lemma wf_image_read img i :
  wf_image img -> 0 <= i < img_width img * img_height img * 4 ->
  exists b, read (img_data img) i = Some b /\ 0 <= b <= 255.
Proof.
  intros (Hw & Hh & Hlen & Hall) Hi.
  destruct (read_is_Some (img_data img) i) as [b Hb]; [lia|].
  exists b. split; [done|].
  unfold read in Hb. destruct (i <? 0); [done|].
  rewrite Forall_forall in Hall. apply Hall.
  by apply list_elem_of_lookup_2 in Hb.
Qed.

Lemma terrarium_value data off r g b :
  read data off = Some r -> read data (off + 1) = Some g ->
  read data (off + 2) = Some b ->
  terrarium data off
  = Fin (inject_Z r * inject_Z 256 + inject_Z g + inject_Z b / inject_Z 256
         - inject_Z 32768).
Proof. intros Hr Hg Hb. unfold terrarium, byte_get. by rewrite Hr, Hg, Hb. Qed.

Lemma fetchAndDecodeTile_ok net z x y res img :
  net (tileUrl z x y) = Returned res ->
  res_ok res = true ->
  res_image res = Returned img ->
  fetchAndDecodeTile net z x y = decodeImage img.
Proof.
  intros Hnet Hok Hbody. unfold fetchAndDecodeTile.
  rewrite Hnet. cbn [mbind outcome_bind]. rewrite Hok. cbn [negb].
  rewrite Hbody. reflexivity.
Qed.

Lemma decodeImage_Returned img :
  wf_image img ->
  exists t, decodeImage img = Returned t /\
    width t = img_width img /\ height t = img_height img /\
    Z.of_nat (length (elev t)) = img_width img * img_height img /\
    forall i, 0 <= i < img_width img * img_height img ->
      read (elev t) i = Some (terrarium (img_data img) (i * 4)).
Proof.
  intros (Hw & Hh & Hlen & Hall). unfold decodeImage.
  rewrite newFloat32Array_Returned by lia. eexists. split; [reflexivity|].
  simpl. split; [done|]. split; [done|]. split.
  - rewrite length_fill, length_replicate. lia.
  - intros i Hi. apply (read_fill (fun i => terrarium (img_data img) (i * 4)));
      rewrite length_replicate; lia.
Qed.

(** C3.  A tile that is fetched successfully is decoded pixel by pixel:
    the elevation stored for pixel [i] is [R * 256 + G + B / 256 - 32768]
    of the three colour bytes of that pixel, and the grid has one
    elevation per pixel of the image. *)
Theorem fetchAndDecodeTile_terrarium net z x y res img :
  net (tileUrl z x y) = Returned res ->
  res_ok res = true ->
  res_image res = Returned img ->
  wf_image img ->
  exists t, fetchAndDecodeTile net z x y = Returned t /\
    width t = img_width img /\ height t = img_height img /\
    Z.of_nat (length (elev t)) = img_width img * img_height img /\
    forall i, 0 <= i < img_width img * img_height img ->
      exists r g b,
        read (img_data img) (i * 4) = Some r /\
        read (img_data img) (i * 4 + 1) = Some g /\
        read (img_data img) (i * 4 + 2) = Some b /\
        num_eq (get (elev t) i)
               (Fin (inject_Z r * 256 + inject_Z g + inject_Z b / 256 - 32768)).
Proof.
  intros Hnet Hok Hbody Hwf.
  destruct (decodeImage_Returned img Hwf) as (t & Ht & Hwd & Hht & Hlen & Hpx).
  exists t. split.
  { by rewrite (fetchAndDecodeTile_ok net z x y res img). }
  do 3 (split; [done|]). intros i Hi.
  destruct (wf_image_read img (i * 4) Hwf) as (r & Hr & _); [lia|].
  destruct (wf_image_read img (i * 4 + 1) Hwf) as (g & Hg & _); [lia|].
  destruct (wf_image_read img (i * 4 + 2) Hwf) as (b & Hb & _); [lia|].
  exists r, g, b. do 3 (split; [done|]).
  rewrite (get_read _ _ _ (Hpx i Hi)).
  rewrite (terrarium_value _ _ r g b Hr Hg Hb). simpl. reflexivity.
Qed.

Lemma fetchAndDecodeTile_terrarium_witness :
  exists t, fetchAndDecodeTile smallNet 3 4 3 = Returned t /\
    width t = 2 /\ height t = 2 /\ Z.of_nat (length (elev t)) = 2 * 2 /\
    forall i, 0 <= i < 2 * 2 ->
      exists r g b,
        read (img_data smallImage) (i * 4) = Some r /\
        read (img_data smallImage) (i * 4 + 1) = Some g /\
        read (img_data smallImage) (i * 4 + 2) = Some b /\
        num_eq (get (elev t) i)
               (Fin (inject_Z r * 256 + inject_Z g + inject_Z b / 256 - 32768)).
Proof.
  refine (fetchAndDecodeTile_terrarium smallNet 3 4 3 (okResponse smallImage)
            smallImage eq_refl eq_refl eq_refl _).
  repeat split; try (vm_compute; congruence).
  repeat constructor; lia.
Defined.

(** The elevations that the decoder produces are multiples of 1/256 between
    -32768 and 32768: storing them as 32-bit floats does not round them,
    and two different elevations differ by at least 1/256. *)
Lemma terrarium_on_grid img i :
  wf_image img -> 0 <= i < img_width img * img_height img ->
  exists q, terrarium (img_data img) (i * 4) = Fin q /\ on_grid256 q /\
    (-32768 <= q < 32768)%Q.
Proof.
  intros Hwf Hi.
  destruct (wf_image_read img (i * 4) Hwf) as (r & Hr & Hr'); [lia|].
  destruct (wf_image_read img (i * 4 + 1) Hwf) as (g & Hg & Hg'); [lia|].
  destruct (wf_image_read img (i * 4 + 2) Hwf) as (b & Hb & Hb'); [lia|].
  rewrite (terrarium_value _ _ r g b Hr Hg Hb). eexists. split; [reflexivity|].
  set (m := r * 65536 + g * 256 + b - 8388608).
  assert (Heq : (inject_Z r * inject_Z 256 + inject_Z g + inject_Z b / inject_Z 256
                 - inject_Z 32768
                 == inject_Z m * (1 # 256))%Q).
  { unfold Qeq, m. cbn. lia. }
  split.
  - exists m. split; [unfold m; lia|exact Heq].
  - rewrite Heq.
    assert (Hm : (inject_Z (-8388608) <= inject_Z m < inject_Z 8388608)%Q).
    { rewrite <- Zle_Qle, <- Zlt_Qlt. unfold m. lia. }
    revert Hm. generalize (inject_Z m). intros a.
    change (inject_Z (-8388608)) with (-8388608)%Q.
    change (inject_Z 8388608) with 8388608%Q. intros Hm. lra.
Qed.

Lemma on_grid256_gap l u :
  on_grid256 l -> on_grid256 u -> (l < u)%Q -> (1 # 256 <= u - l)%Q.
Proof.
  intros (m & _ & Hl) (k & _ & Hu) Hlt. rewrite Hl, Hu in *.
  assert (Hmk : m < k).
  { rewrite Zlt_Qlt. revert Hlt. generalize (inject_Z m) (inject_Z k).
    intros a b Hlt. lra. }
  assert (Hstep : (inject_Z m + 1 <= inject_Z k)%Q).
  { change 1%Q with (inject_Z 1). rewrite <- inject_Z_plus, <- Zle_Qle. lia. }
  revert Hstep. generalize (inject_Z m) (inject_Z k). intros a b Hstep. lra.
Qed.

(** ** The interchange text *)

Lemma foldl_push {A B : Type} (f : A -> B) (l : list A) (acc : list B) :
  foldl (fun acc x => acc ++ [f x]) acc l = acc ++ (f <$> l).
Proof.
  revert acc. induction l as [|x l IH]; intros acc; simpl.
  - by rewrite app_nil_r.
  - rewrite IH. by rewrite <- app_assoc.
Qed.

Lemma reverse_seqZ h :
  reverse (seqZ 0 h) = (fun i => h - 1 - i) <$> seqZ 0 h.
Proof.
  apply list_eq. intros n.
  rewrite list_lookup_fmap.
  destruct (decide (Z.of_nat n < h)) as [Hn|Hn].
  - rewrite lookup_seqZ_lt by done. simpl.
    rewrite reverse_lookup by (rewrite length_seqZ; lia).
    rewrite length_seqZ. rewrite lookup_seqZ_lt by lia. f_equal. lia.
  - rewrite lookup_seqZ_ge by lia. simpl.
    apply lookup_ge_None. rewrite length_reverse, length_seqZ. lia.
Qed.

Lemma datRow_row heightmap w h y :
  0 <= w -> Z.of_nat (length heightmap) = w * h -> 0 <= y < h ->
  datRow heightmap w y = Some <$> row heightmap w y.
Proof.
  intros Hw Hlen Hy. unfold datRow, for_range.
  rewrite (foldl_push (fun x => read heightmap (y * w + x))). simpl.
  apply list_eq. intros n. rewrite !list_lookup_fmap. unfold row.
  destruct (decide (Z.of_nat n < w)) as [Hn|Hn].
  - rewrite lookup_seqZ_lt by lia. simpl.
    rewrite lookup_take_lt by lia. rewrite lookup_drop.
    unfold read. destruct (Z.ltb_spec (y * w + (0 + Z.of_nat n)) 0); [nia|].
    replace (Z.to_nat (y * w + (0 + Z.of_nat n))) with (Z.to_nat (y * w) + n)%nat by nia.
    destruct (lookup_lt_is_Some_2 heightmap (Z.to_nat (y * w) + n)) as [b Hb]; [nia|].
    by rewrite Hb.
  - rewrite lookup_seqZ_ge by lia. simpl.
    rewrite lookup_take_ge by lia. done.
Qed.

Lemma length_row heightmap w h r :
  0 <= w -> Z.of_nat (length heightmap) = w * h -> 0 <= r < h ->
  Z.of_nat (length (row heightmap w r)) = w.
Proof.
  intros Hw Hlen Hr. unfold row. rewrite length_take, length_drop. nia.
Qed.

Lemma row_lookup heightmap w h r x :
  0 <= w -> Z.of_nat (length heightmap) = w * h -> 0 <= r < h -> 0 <= x < w ->
  row heightmap w r !! Z.to_nat x = heightmap !! Z.to_nat (r * w + x).
Proof.
  intros Hw Hlen Hr Hx. unfold row.
  rewrite lookup_take_lt by lia. rewrite lookup_drop. f_equal. nia.
Qed.

Lemma string_app_assoc (s1 s2 s3 : string) :
  (s1 +:+ s2) +:+ s3 = s1 +:+ (s2 +:+ s3).
Proof.
  induction s1 as [|c s1 IH]; [done|].
  change (String c ((s1 +:+ s2) +:+ s3) = String c (s1 +:+ (s2 +:+ s3))).
  by rewrite IH.
Qed.

Lemma join_unlines (ls : list string) :
  ls <> [] -> join LF ls +:+ LF = unlines ls.
Proof.
  unfold join. induction ls as [|l ls IH]; [done|]. intros _.
  destruct ls as [|l' ls].
  - simpl. done.
  - change (String.concat LF (l :: l' :: ls))
      with (l +:+ LF +:+ String.concat LF (l' :: ls)).
    rewrite !string_app_assoc. rewrite IH by done. done.
Qed.

Lemma datLines_lines heightmap w h :
  0 <= w -> Z.of_nat (length heightmap) = w * h ->
  datLines heightmap w h
  = (fun i => datLine (row heightmap w (h - 1 - i))) <$> seqZ 0 h.
Proof.
  intros Hw Hlen. unfold datLines, for_down.
  rewrite (foldl_push (fun y => join " " (showElement <$> datRow heightmap w y))).
  simpl. rewrite reverse_seqZ, <- list_fmap_compose.
  apply list_fmap_ext. intros n i Hi. simpl.
  apply lookup_seqZ in Hi as [-> Hn].
  rewrite (datRow_row heightmap w h) by lia.
  unfold datLine. by rewrite <- list_fmap_compose.
Qed.

(** C9.  For a heightmap of width [w] and height [h], the interchange text
    consists of [h] lines, each ended by a line feed; line [i] holds the
    [w] values of row [h - 1 - i] of the heightmap, in decimal and
    unchanged, separated by single spaces. *)
Theorem heightmapToDat_bottom_up heightmap w h :
  0 <= w -> 0 < h -> Z.of_nat (length heightmap) = w * h ->
  heightmapToDat heightmap w h
  = unlines ((fun i => datLine (row heightmap w (h - 1 - i))) <$> seqZ 0 h)
  /\ forall i, 0 <= i < h ->
       Z.of_nat (length (row heightmap w (h - 1 - i))) = w /\
       forall x, 0 <= x < w ->
         row heightmap w (h - 1 - i) !! Z.to_nat x
         = heightmap !! Z.to_nat ((h - 1 - i) * w + x).
Proof.
  intros Hw Hh Hlen. split.
  - unfold heightmapToDat. rewrite (datLines_lines heightmap w h) by done.
    apply join_unlines. rewrite seqZ_cons by lia. done.
  - intros i Hi. split.
    + apply (length_row heightmap w h); [done|done|lia].
    + intros x Hx. apply (row_lookup heightmap w h); [done|done|lia|done].
Qed.

Lemma heightmapToDat_bottom_up_witness :
  heightmapToDat [1; 2; 3; 4; 5; 6] 3 2
  = unlines ((fun i => datLine (row [1; 2; 3; 4; 5; 6] 3 (2 - 1 - i))) <$> seqZ 0 2)
  /\ forall i, 0 <= i < 2 ->
       Z.of_nat (length (row [1; 2; 3; 4; 5; 6] 3 (2 - 1 - i))) = 3 /\
       forall x, 0 <= x < 3 ->
         row [1; 2; 3; 4; 5; 6] 3 (2 - 1 - i) !! Z.to_nat x
         = [1; 2; 3; 4; 5; 6] !! Z.to_nat ((2 - 1 - i) * 3 + x).
Proof.
  apply (heightmapToDat_bottom_up [1; 2; 3; 4; 5; 6] 3 2); [lia|lia|reflexivity].
Defined.

(** ** Stitching *)

Lemma copyTile_writes full fullW ox oy t :
  copyTile full fullW ox oy t
  = writes (fun p : Z * Z => (oy + p.1) * fullW + (ox + p.2))
           (fun p : Z * Z => get (elev t) (p.1 * width t + p.2))
           (pairs (seqZ 0 (height t)) (seqZ 0 (width t))) full.
Proof. unfold copyTile. by rewrite for_range_nested. Qed.

Lemma length_copyTile full fullW ox oy t :
  length (copyTile full fullW ox oy t) = length full.
Proof. rewrite copyTile_writes. apply length_writes. Qed.

Lemma copyTile_read_in full fullW ox oy t y x :
  0 <= ox -> ox + width t <= fullW ->
  0 <= y < height t -> 0 <= x < width t ->
  0 <= (oy + y) * fullW + (ox + x) < Z.of_nat (length full) ->
  read (copyTile full fullW ox oy t) ((oy + y) * fullW + (ox + x))
  = Some (get (elev t) (y * width t + x)).
Proof.
  intros Hox Hfit Hy Hx Hj. rewrite copyTile_writes.
  apply read_writes_inv; [done| |].
  - intros [y' x'] Hin Heq. simpl in *.
    apply elem_of_pairs in Hin as [Hy' Hx'].
    apply elem_of_seqZ in Hy', Hx'.
    assert (y' = y) as -> by nia. assert (x' = x) as -> by lia. done.
  - right. exists (y, x). split; [|done].
    apply elem_of_pairs. split; apply elem_of_seqZ; lia.
Qed.

Lemma copyTile_read_out full fullW ox oy t j :
  (forall y x, 0 <= y < height t -> 0 <= x < width t ->
     (oy + y) * fullW + (ox + x) <> j) ->
  read (copyTile full fullW ox oy t) j = read full j.
Proof.
  intros Hout. rewrite copyTile_writes. apply read_writes_other.
  intros [y x] Hin. simpl. apply elem_of_pairs in Hin as [Hy Hx].
  apply elem_of_seqZ in Hy, Hx. apply Hout; lia.
Qed.

Lemma elem_of_tileRequests g tx ty :
  (tx, ty) ∈ tileRequests g
  <-> txMin g <= tx <= txMax g /\ tyMin g <= ty <= tyMax g.
Proof.
  unfold tileRequests. rewrite list_elem_of_bind. split.
  - intros (ty' & Hin & Hty). apply list_elem_of_bind in Hin as (tx' & Hin & Htx).
    apply list_elem_of_singleton in Hin. simplify_eq.
    apply elem_of_seqZ in Hty, Htx. lia.
  - intros [Hx Hy]. exists ty. split; [|apply elem_of_seqZ; lia].
    apply list_elem_of_bind. exists tx. split; [|apply elem_of_seqZ; lia].
    by apply list_elem_of_singleton.
Qed.


(** Index arithmetic: the tile and the pixel are recovered from an index. *)
Lemma stitchedIndex_owner g tx ty x y :
  txMin g <= tx <= txMax g -> tyMin g <= ty ->
  0 <= x < TS -> 0 <= y < TS ->
  owner g (stitchedIndex g tx ty x y) = (tx, ty) /\
  ownerPixel g (stitchedIndex g tx ty x y) = y * TS + x.
Proof.
  intros Hx Hy Hpx Hpy. unfold owner, ownerPixel, stitchedIndex, fullW, tw, TS in *.
  set (W := (txMax g - txMin g + 1) * 256).
  set (c := (tx - txMin g) * 256 + x). set (r := (ty - tyMin g) * 256 + y).
  assert (0 <= c < W) by (unfold c, W; nia).
  assert (0 <= r) by (unfold r; nia).
  assert (Hmod : (r * W + c) mod W = c).
  { rewrite Z.add_comm, Z.mod_add by lia. apply Z.mod_small. lia. }
  assert (Hdiv : (r * W + c) / W = r).
  { rewrite Z.add_comm, Z.div_add by lia. rewrite Z.div_small by lia. lia. }
  rewrite Hmod, Hdiv. unfold c, r.
  rewrite !(Z.add_comm (_ * 256)).
  rewrite !Z.div_add, !Z.mod_add by lia.
  rewrite !Z.div_small, !Z.mod_small by lia.
  split; [f_equal; lia|lia].
Qed.

Lemma owner_stitchedIndex g j :
  0 < fullW g ->
  0 <= j < fullW g * fullH g ->
  let '(tx, ty) := owner g j in
  txMin g <= tx <= txMax g /\ tyMin g <= ty <= tyMax g /\
  j = stitchedIndex g tx ty ((j mod fullW g) mod TS) ((j / fullW g) mod TS).
Proof.
  intros HW Hj. unfold owner, stitchedIndex.
  assert (HH : 0 < fullH g) by nia.
  pose proof (Z.mod_pos_bound j (fullW g) HW) as Hc.
  assert (Hr : 0 <= j / fullW g < fullH g).
  { split; [apply Z.div_pos; lia|]. apply Z.div_lt_upper_bound; lia. }
  pose proof (Z.div_mod j (fullW g) ltac:(lia)) as Hdm.
  pose proof (Z.div_mod (j mod fullW g) 256 ltac:(lia)) as Hc'.
  pose proof (Z.div_mod (j / fullW g) 256 ltac:(lia)) as Hr'.
  pose proof (Z.mod_pos_bound (j mod fullW g) 256 ltac:(lia)).
  pose proof (Z.mod_pos_bound (j / fullW g) 256 ltac:(lia)).
  unfold fullW, fullH, tw, th, TS in *.
  repeat split; try lia.
Qed.

Section Stitching.
Context (net : Network) (zoom : Z) (g : TileGrid).
Hypothesis Hok : tiles_ok net zoom g.

Lemma tileAt_ok tx ty :
  (tx, ty) ∈ tileRequests g ->
  fetchAndDecodeTile net zoom tx ty = Returned (tileAt net zoom tx ty) /\
  width (tileAt net zoom tx ty) = TS /\ height (tileAt net zoom tx ty) = TS.
Proof.
  intros Hin. destruct (Hok tx ty Hin) as (t & Ht & Hw & Hh).
  unfold tileAt. by rewrite Ht.
Qed.

Lemma length_settleOne full k :
  length (settleOne net zoom g full k) = length full.
Proof.
  unfold settleOne. destruct (tileRequests g !! k) as [[tx ty]|]; [|done].
  apply length_copyTile.
Qed.

(** One callback writes the region of its own tile and nothing else. *)
Lemma settleOne_read full k j :
  0 < fullW g ->
  Z.of_nat (length full) = fullW g * fullH g ->
  0 <= j < fullW g * fullH g ->
  read (settleOne net zoom g full k) j
  = if decide (tileRequests g !! k = Some (owner g j))
    then Some (get (elev (tileAt net zoom (owner g j).1 (owner g j).2))
                   (ownerPixel g j))
    else read full j.
Proof.
  intros HW Hlen Hj. unfold settleOne.
  destruct (tileRequests g !! k) as [[tx ty]|] eqn:Hk; [|by rewrite decide_False].
  assert (Hin : (tx, ty) ∈ tileRequests g) by (by eapply list_elem_of_lookup_2).
  destruct (tileAt_ok tx ty Hin) as (_ & Hwd & Hht).
  apply elem_of_tileRequests in Hin as [Hx Hy].
  pose proof (owner_stitchedIndex g j HW Hj) as Hown.
  destruct (owner g j) as [tx0 ty0] eqn:Ho. destruct Hown as (Hx0 & Hy0 & Hidx).
  pose proof (Z.mod_pos_bound (j mod fullW g) TS ltac:(done)) as Hpx.
  pose proof (Z.mod_pos_bound (j / fullW g) TS ltac:(done)) as Hpy.
  destruct (decide (Some (tx, ty) = Some (tx0, ty0))) as [Heq|Hne].
  - simplify_eq. simpl. rewrite Hidx at 1. unfold stitchedIndex.
    rewrite copyTile_read_in.
    + rewrite Hwd. done.
    + unfold TS; lia.
    + rewrite Hwd. unfold fullW, tw, TS. lia.
    + by rewrite Hht.
    + by rewrite Hwd.
    + fold (stitchedIndex g tx0 ty0 ((j mod fullW g) mod TS) ((j / fullW g) mod TS)).
      rewrite <- Hidx. lia.
  - apply copyTile_read_out. rewrite Hwd, Hht. intros y x Hy' Hx' Heq.
    destruct (stitchedIndex_owner g tx ty x y) as [Ho' _]; [lia|lia|done|done|].
    unfold stitchedIndex in Ho'. rewrite Heq, Ho in Ho'. congruence.
Qed.

Lemma settle_fold_read ks full j :
  0 < fullW g ->
  Z.of_nat (length full) = fullW g * fullH g ->
  0 <= j < fullW g * fullH g ->
  read (foldl (settleOne net zoom g) full ks) j
  = if decide (Exists (fun k => tileRequests g !! k = Some (owner g j)) ks)
    then Some (get (elev (tileAt net zoom (owner g j).1 (owner g j).2))
                   (ownerPixel g j))
    else read full j.
Proof.
  intros HW Hlen Hj. revert full Hlen.
  induction ks as [|k ks IH]; intros full Hlen.
  - cbn [foldl]. rewrite decide_False; [done|]. by intros ?%Exists_nil.
  - cbn [foldl]. rewrite IH by (by rewrite length_settleOne).
    rewrite settleOne_read by done.
    destruct (decide (Exists _ ks)) as [Hex|Hnex].
    + rewrite decide_True; [done|]. by apply Exists_cons_tl.
    + destruct (decide (tileRequests g !! k = Some (owner g j))) as [Hk|Hk].
      * rewrite decide_True; [done|]. by apply Exists_cons_hd.
      * rewrite decide_False; [done|]. by intros [?|?]%Exists_cons.
Qed.

Lemma length_settle_fold ks full :
  length (foldl (settleOne net zoom g) full ks) = length full.
Proof.
  revert full. induction ks as [|k ks IH]; intros full; [done|].
  simpl. by rewrite IH, length_settleOne.
Qed.

(** When every tile is served, awaiting the requests runs the callbacks
    in the order of the schedule. *)
Lemma awaitAll_ok ks full :
  awaitAll net zoom g ks full = Returned (foldl (settleOne net zoom g) full ks).
Proof.
  revert full. induction ks as [|k ks IH]; intros full; [done|].
  simpl. unfold settleOne at 2.
  destruct (tileRequests g !! k) as [[tx ty]|] eqn:Hk; [|apply IH].
  destruct (tileAt_ok tx ty) as (-> & _ & _); [by eapply list_elem_of_lookup_2|].
  apply IH.
Qed.


End Stitching.

Lemma stitch_ok net zoom g schedule :
  tiles_ok net zoom g -> 0 <= fullW g * fullH g ->
  stitch net zoom g schedule
  = Returned (foldl (settleOne net zoom g)
                (replicate (Z.to_nat (fullW g * fullH g)) (Fin 0)) schedule).
Proof.
  intros Hok Hsz. unfold stitch. rewrite newFloat32Array_Returned by done.
  simpl. by apply awaitAll_ok.
Qed.

(** C6.  For a grid of [tw] x [th] tiles of 256 x 256 pixels, the stitched
    raster has [tw * 256] columns and [th * 256] rows, and pixel [(x, y)]
    of tile [(tx, ty)] is found at row [(ty - tyMin) * 256 + y] and column
    [(tx - txMin) * 256 + x]. *)
Theorem stitch_tile_aligned net zoom g schedule :
  tiles_ok net zoom g ->
  0 <= tw g -> 0 <= th g ->
  schedule ≡ₚ seq 0 (length (tileRequests g)) ->
  exists full,
    stitch net zoom g schedule = Returned full /\
    fullW g = tw g * 256 /\ fullH g = th g * 256 /\
    Z.of_nat (length full) = fullW g * fullH g /\
    forall tx ty t x y,
      txMin g <= tx <= txMax g -> tyMin g <= ty <= tyMax g ->
      fetchAndDecodeTile net zoom tx ty = Returned t ->
      0 <= x < 256 -> 0 <= y < 256 ->
      read full (((ty - tyMin g) * 256 + y) * fullW g + ((tx - txMin g) * 256 + x))
      = Some (get (elev t) (y * 256 + x)).
Proof.
  intros Hok Hw Hh Hperm.
  assert (Hsz : 0 <= fullW g * fullH g) by (unfold fullW, fullH, TS; nia).
  eexists. split; [by apply stitch_ok|].
  split; [done|]. split; [done|]. split.
  { rewrite length_settle_fold, length_replicate. lia. }
  intros tx ty t x y Hx Hy Ht Hpx Hpy.
  assert (HW : 0 < fullW g) by (unfold fullW, tw, TS; lia).
  change (((ty - tyMin g) * 256 + y) * fullW g + ((tx - txMin g) * 256 + x))
    with (stitchedIndex g tx ty x y).
  destruct (stitchedIndex_owner g tx ty x y) as [Ho Hp]; [done|lia|done|done|].
  assert (Hj : 0 <= stitchedIndex g tx ty x y < fullW g * fullH g).
  { unfold stitchedIndex, fullW, fullH, tw, th, TS. nia. }
  rewrite (settle_fold_read net zoom g Hok) by
    (try done; rewrite length_replicate; lia).
  rewrite Ho, Hp. simpl. unfold tileAt. rewrite Ht.
  rewrite decide_True; [done|].
  assert (Hin : (tx, ty) ∈ tileRequests g) by (by apply elem_of_tileRequests).
  apply list_elem_of_lookup_1 in Hin as [k Hk].
  apply Exists_exists. exists k. split; [|done].
  rewrite Hperm. apply elem_of_seq. apply lookup_lt_Some in Hk. lia.
Qed.

Lemma wf_flatImage : wf_image flatImage.
Proof.
  unfold wf_image, flatImage. cbn [img_data img_width img_height].
  split; [unfold TS; lia|]. split; [unfold TS; lia|]. split.
  - rewrite length_replicate. apply Z2Nat.id. unfold TS. lia.
  - apply Forall_replicate. lia.
Qed.

Lemma tiles_ok_flatNet zoom g : tiles_ok flatNet zoom g.
Proof.
  intros tx ty _. destruct (decodeImage_Returned flatImage wf_flatImage)
    as (t & Ht & Hw & Hh & _).
  exists t. split; [|done].
  by rewrite (fetchAndDecodeTile_ok flatNet zoom tx ty (okResponse flatImage) flatImage).
Qed.

Lemma stitch_tile_aligned_witness :
  exists full,
    stitch flatNet 3 oneTile [0%nat] = Returned full /\
    fullW oneTile = tw oneTile * 256 /\ fullH oneTile = th oneTile * 256 /\
    Z.of_nat (length full) = fullW oneTile * fullH oneTile /\
    forall tx ty t x y,
      txMin oneTile <= tx <= txMax oneTile -> tyMin oneTile <= ty <= tyMax oneTile ->
      fetchAndDecodeTile flatNet 3 tx ty = Returned t ->
      0 <= x < 256 -> 0 <= y < 256 ->
      read full (((ty - tyMin oneTile) * 256 + y) * fullW oneTile
                 + ((tx - txMin oneTile) * 256 + x))
      = Some (get (elev t) (y * 256 + x)).
Proof.
  apply (stitch_tile_aligned flatNet 3 oneTile [0%nat]).
  - apply tiles_ok_flatNet.
  - vm_compute. congruence.
  - vm_compute. congruence.
  - reflexivity.
Defined.



(** ** Order on numbers *)

Lemma num_lt_Fin x y : num_lt (Fin x) (Fin y) = true <-> (x < y)%Q.
Proof.
  simpl. rewrite Qlt_alt. destruct (x ?= y)%Q; split; congruence.
Qed.

Lemma num_lt_Fin_false x y : num_lt (Fin x) (Fin y) = false <-> (y <= x)%Q.
Proof.
  rewrite <- not_true_iff_false, num_lt_Fin. split.
  - apply Qnot_lt_le.
  - apply Qle_not_lt.
Qed.

Lemma num_le_trans a b c : num_le a b -> num_le b c -> num_le a c.
Proof.
  destruct a, b, c; simpl; try done. apply Qle_trans.
Qed.

Lemma num_le_refl a : is_finite a -> num_le a a.
Proof. destruct a; simpl; try done. intros _. apply Qle_refl. Qed.

(** ** The running minimum and maximum *)

Lemma trackMin_cases vs l :
  trackMin vs l = l \/ trackMin vs l ∈ vs.
Proof.
  unfold trackMin. revert l. induction vs as [|v vs IH]; intros l; [by left|].
  cbn [foldl]. destruct (IH (if num_lt v l then v else l)) as [Heq|Hin].
  - rewrite Heq. destruct (num_lt v l); [right; left|by left].
  - right. by right.
Qed.

Lemma trackMax_cases vs u :
  trackMax vs u = u \/ trackMax vs u ∈ vs.
Proof.
  unfold trackMax. revert u. induction vs as [|v vs IH]; intros u; [by left|].
  cbn [foldl]. destruct (IH (if num_gt v u then v else u)) as [Heq|Hin].
  - rewrite Heq. destruct (num_gt v u); [right; left|by left].
  - right. by right.
Qed.

Lemma trackMin_le vs l :
  Forall is_finite vs -> l = PosInf \/ is_finite l ->
  num_le (trackMin vs l) l /\ forall v, v ∈ vs -> num_le (trackMin vs l) v.
Proof.
  unfold trackMin. intros Hfin. revert l.
  induction Hfin as [|v vs Hv Hfin IH]; intros l Hl.
  - cbn [foldl]. split; [|by intros v ?%elem_of_nil].
    destruct Hl as [->|Hl]; [done|]. by apply num_le_refl.
  - cbn [foldl].
    assert (Hstep : (l = PosInf \/ is_finite l) ->
        let l' := if num_lt v l then v else l in
        (l' = PosInf \/ is_finite l') /\ num_le l' l /\ num_le l' v).
    { intros _. destruct v as [| |x|]; try done.
      destruct Hl as [->|Hl]; [simpl; auto using Qle_refl|].
      destruct l as [| |y|]; try done.
      destruct (num_lt (Fin x) (Fin y)) eqn:E.
      - apply num_lt_Fin in E. simpl. auto using Qle_refl, Qlt_le_weak.
      - apply num_lt_Fin_false in E. simpl. auto using Qle_refl. }
    destruct (Hstep Hl) as (Hl' & Hle & Hlev).
    destruct (IH _ Hl') as [Hm Hall]. split.
    + eapply num_le_trans; eauto.
    + intros w [->|Hw]%elem_of_cons; [|by apply Hall].
      eapply num_le_trans; eauto.
Qed.

Lemma trackMax_ge vs u :
  Forall is_finite vs -> u = NegInf \/ is_finite u ->
  num_le u (trackMax vs u) /\ forall v, v ∈ vs -> num_le v (trackMax vs u).
Proof.
  unfold trackMax. intros Hfin. revert u.
  induction Hfin as [|v vs Hv Hfin IH]; intros u Hu.
  - cbn [foldl]. split; [|by intros v ?%elem_of_nil].
    destruct Hu as [->|Hu]; [done|]. by apply num_le_refl.
  - cbn [foldl].
    assert (Hstep : (u = NegInf \/ is_finite u) ->
        let u' := if num_gt v u then v else u in
        (u' = NegInf \/ is_finite u') /\ num_le u u' /\ num_le v u').
    { intros _. destruct v as [| |x|]; try done.
      destruct Hu as [->|Hu]; [simpl; auto using Qle_refl|].
      destruct u as [| |y|]; try done. unfold num_gt.
      destruct (num_lt (Fin y) (Fin x)) eqn:E.
      - apply num_lt_Fin in E. simpl. auto using Qle_refl, Qlt_le_weak.
      - apply num_lt_Fin_false in E. simpl. auto using Qle_refl. }
    destruct (Hstep Hu) as (Hu' & Hle & Hlev).
    destruct (IH _ Hu') as [Hm Hall]. split.
    + eapply num_le_trans; eauto.
    + intros w [->|Hw]%elem_of_cons; [|by apply Hall].
      eapply num_le_trans; eauto.
Qed.

(** ** Cropping *)


Lemma crop_fold full fullW c ps s :
  foldl (fun s p => cropPixel full fullW c p.1 p.2 s) s ps
  = {| cropped := writes (fun p : Z * Z => p.1 * cw c + p.2)
                         (windowValue full fullW c) ps (cropped s);
       lo := trackMin (windowValue full fullW c <$> ps) (lo s);
       hi := trackMax (windowValue full fullW c <$> ps) (hi s) |}.
Proof.
  unfold writes, trackMin, trackMax. revert s.
  induction ps as [|[y x] ps IH]; intros s; [by destruct s|].
  cbn [foldl fmap list_fmap]. rewrite IH. done.
Qed.

Lemma crop_Returned full fullW c :
  0 <= cw c * ch c ->
  crop full fullW c
  = Returned
      {| cropped := writes (fun p : Z * Z => p.1 * cw c + p.2)
                           (windowValue full fullW c) (windowPixels c)
                           (replicate (Z.to_nat (cw c * ch c)) (Fin 0));
         lo := trackMin (windowValue full fullW c <$> windowPixels c) PosInf;
         hi := trackMax (windowValue full fullW c <$> windowPixels c) NegInf |}.
Proof.
  intros Hsz. unfold crop. rewrite newFloat32Array_Returned by done.
  cbn [mbind outcome_bind mret outcome_ret]. f_equal.
  rewrite for_range_nested. apply crop_fold.
Qed.

Lemma elem_of_windowPixels c y x :
  (y, x) ∈ windowPixels c <-> 0 <= y < ch c /\ 0 <= x < cw c.
Proof.
  unfold windowPixels. rewrite elem_of_pairs, !elem_of_seqZ. lia.
Qed.

(** Inside the raster every pixel of the window reads an element. *)
Lemma window_read full fullW fullH c y x :
  Z.of_nat (length full) = fullW * fullH ->
  inside fullW fullH c ->
  0 <= y < ch c -> 0 <= x < cw c ->
  exists v, read full ((cropT c + y) * fullW + (cropL c + x)) = Some v /\
    windowValue full fullW c (y, x) = v /\ v ∈ full.
Proof.
  intros Hlen (HL & HR & HT & HB) Hy Hx. unfold cw, ch in *.
  destruct (read_is_Some full ((cropT c + y) * fullW + (cropL c + x))) as [v Hv].
  { rewrite Hlen. nia. }
  exists v. split; [done|]. split.
  - unfold windowValue, get. simpl. by rewrite Hv.
  - unfold read in Hv. destruct (_ <? 0); [done|].
    by eapply list_elem_of_lookup_2.
Qed.

Lemma window_finite full fullW fullH c :
  Z.of_nat (length full) = fullW * fullH ->
  Forall is_finite full ->
  inside fullW fullH c ->
  Forall is_finite (windowValue full fullW c <$> windowPixels c).
Proof.
  intros Hlen Hfin Hin. apply Forall_fmap, Forall_forall.
  intros [y x] Hp. apply elem_of_windowPixels in Hp as [Hy Hx].
  destruct (window_read full fullW fullH c y x) as (v & _ & Hval & Hv); try done.
  unfold compose. rewrite Hval. rewrite Forall_forall in Hfin. by apply Hfin.
Qed.

Lemma crop_window_min full fullW fullH c :
  Z.of_nat (length full) = fullW * fullH ->
  Forall is_finite full ->
  inside fullW fullH c ->
  0 < cw c -> 0 < ch c ->
  window_min full fullW c
    (trackMin (windowValue full fullW c <$> windowPixels c) PosInf).
Proof.
  intros Hlen Hfin Hin Hw Hh.
  pose proof (window_finite full fullW fullH c Hlen Hfin Hin) as Hvs.
  destruct (trackMin_le _ PosInf Hvs) as [_ Hle]; [by left|].
  assert (H0 : (0, 0) ∈ windowPixels c) by (apply elem_of_windowPixels; lia).
  split.
  - intros x y Hx Hy. apply Hle. apply list_elem_of_fmap.
    exists (y, x). split; [done|]. by apply elem_of_windowPixels.
  - destruct (trackMin_cases (windowValue full fullW c <$> windowPixels c) PosInf)
      as [Hinit|Hmem].
    + exfalso. specialize (Hle (windowValue full fullW c (0, 0))).
      rewrite Hinit in Hle.
      rewrite Forall_forall in Hvs.
      assert (Hv : windowValue full fullW c (0, 0)
                   ∈ windowValue full fullW c <$> windowPixels c)
        by (apply list_elem_of_fmap; eauto).
      specialize (Hle Hv). specialize (Hvs _ Hv).
      by destruct (windowValue full fullW c (0, 0)).
    + apply list_elem_of_fmap in Hmem as ([y x] & Heq & Hp).
      apply elem_of_windowPixels in Hp. exists x, y. tauto.
Qed.

Lemma crop_window_max full fullW fullH c :
  Z.of_nat (length full) = fullW * fullH ->
  Forall is_finite full ->
  inside fullW fullH c ->
  0 < cw c -> 0 < ch c ->
  window_max full fullW c
    (trackMax (windowValue full fullW c <$> windowPixels c) NegInf).
Proof.
  intros Hlen Hfin Hin Hw Hh.
  pose proof (window_finite full fullW fullH c Hlen Hfin Hin) as Hvs.
  destruct (trackMax_ge _ NegInf Hvs) as [_ Hle]; [by left|].
  assert (H0 : (0, 0) ∈ windowPixels c) by (apply elem_of_windowPixels; lia).
  split.
  - intros x y Hx Hy. apply Hle. apply list_elem_of_fmap.
    exists (y, x). split; [done|]. by apply elem_of_windowPixels.
  - destruct (trackMax_cases (windowValue full fullW c <$> windowPixels c) NegInf)
      as [Hinit|Hmem].
    + exfalso. specialize (Hle (windowValue full fullW c (0, 0))).
      rewrite Hinit in Hle.
      rewrite Forall_forall in Hvs.
      assert (Hv : windowValue full fullW c (0, 0)
                   ∈ windowValue full fullW c <$> windowPixels c)
        by (apply list_elem_of_fmap; eauto).
      specialize (Hle Hv). specialize (Hvs _ Hv).
      by destruct (windowValue full fullW c (0, 0)).
    + apply list_elem_of_fmap in Hmem as ([y x] & Heq & Hp).
      apply elem_of_windowPixels in Hp. exists x, y. tauto.
Qed.




(** ** Normalising *)

Lemma Qis_zero_true q : Qis_zero q = true <-> (q == 0)%Q.
Proof.
  unfold Qis_zero, Qeq. simpl. rewrite Z.eqb_eq. lia.
Qed.

Lemma Qis_zero_false q : Qis_zero q = false <-> ~ (q == 0)%Q.
Proof. rewrite <- Qis_zero_true. by destruct (Qis_zero q). Qed.

Lemma toUint8_byte z : 0 <= z <= 255 -> toUint8 (Fin (inject_Z z)) = z.
Proof.
  intros Hz. unfold toUint8. cbn [Qnum Qden inject_Z]. rewrite Z.quot_1_r.
  apply Z.mod_small. lia.
Qed.

Lemma Qround_half_up_comp x y : (x == y)%Q -> Qround_half_up x = Qround_half_up y.
Proof.
  intros Heq. unfold Qround_half_up. apply Qfloor_comp. rewrite Heq. reflexivity.
Qed.

Lemma Qround_half_up_unit t :
  (0 <= t <= 1)%Q -> 0 <= Qround_half_up (t * 255) <= 255.
Proof.
  intros [H0 H1]. unfold Qround_half_up. split.
  - change 0 with (Qfloor 0). apply Qfloor_resp_le. lra.
  - assert (Hle : Qfloor (t * 255 + (1 # 2)) <= Qfloor (255 + (1 # 2)))
      by (apply Qfloor_resp_le; lra).
    exact Hle.
Qed.

Lemma Qround_half_up_0 t : (t == 0)%Q -> Qround_half_up (t * 255) = 0.
Proof. intros Ht. rewrite (Qround_half_up_comp _ 0); [done|]. rewrite Ht. ring. Qed.

Lemma Qround_half_up_1 t : (t == 1)%Q -> Qround_half_up (t * 255) = 255.
Proof. intros Ht. rewrite (Qround_half_up_comp _ 255); [done|]. rewrite Ht. ring. Qed.

Lemma Qclamp_unit t : (0 <= t <= 1)%Q -> (Qclamp t 0 1 == t)%Q.
Proof.
  intros [H0 H1]. unfold Qclamp.
  rewrite (Q.min_l t 1) by done. by apply Q.max_r.
Qed.

(** The value stored for one pixel, against the reference formula. *)
Lemma normalizePixel_spec eps v l u :
  (l <= v <= u)%Q -> (0 < eps)%Q -> ((l < u)%Q -> (eps <= u - l)%Q) ->
  let b := normalizePixel (Fin v) (Fin l)
             (num_or (num_sub (Fin u) (Fin l)) (num_of_Z 1)) in
  b = normalize_ref eps v l u /\ 0 <= b <= 255 /\
  ((v == l)%Q -> b = 0) /\ ((v == u)%Q -> (l < u)%Q -> b = 255) /\
  ((l == u)%Q -> b = 0).
Proof.
  intros [Hlv Hvu] Heps Hsmall.
  unfold normalizePixel, normalize_ref, num_or, num_of_Z.
  cbn [num_sub num_truthy]. destruct (Qis_zero (u - l)) eqn:Hz; cbn [negb].
  - (* flat raster: the range is replaced by 1 *)
    apply Qis_zero_true in Hz.
    assert (Hv : (v - l == 0)%Q) by nra.
    assert (Ht : ((v - l) / inject_Z 1 == 0)%Q) by (rewrite Hv; reflexivity).
    cbn [num_div]. change (Qis_zero (inject_Z 1)) with false.
    cbn [num_mul num_round]. change (inject_Z 255) with 255%Q.
    rewrite (Qround_half_up_0 _ Ht). rewrite toUint8_byte by lia.
    assert (Href : (Qclamp ((v - l) / Qmax (u - l) eps) 0 1 == 0)%Q).
    { assert (Hq : ((v - l) / Qmax (u - l) eps == 0)%Q).
      { rewrite Hv. unfold Qdiv. apply Qmult_0_l. }
      rewrite Qclamp_unit; [done|]. rewrite Hq. lra. }
    rewrite (Qround_half_up_0 _ Href).
    split; [done|]. split; [lia|]. split; [done|]. split; [|done].
    intros _ Hlu. exfalso. lra.
  - (* the range is positive *)
    apply Qis_zero_false in Hz.
    assert (Hlu : (l < u)%Q) by (apply Qnot_le_lt; intros Hle; apply Hz; nra).
    assert (Hpos : (0 < u - l)%Q) by nra.
    cbn [num_div]. rewrite (proj2 (Qis_zero_false _)) by done.
    cbn [num_mul num_round]. change (inject_Z 255) with 255%Q.
    set (t := ((v - l) / (u - l))%Q).
    assert (Ht : (0 <= t <= 1)%Q).
    { unfold t. split.
      - apply Qle_shift_div_l; [done|]. nra.
      - apply Qle_shift_div_r; [done|]. nra. }
    pose proof (Qround_half_up_unit t Ht) as Hb.
    rewrite toUint8_byte by done.
    assert (Href : (Qclamp ((v - l) / Qmax (u - l) eps) 0 1 == t)%Q).
    { assert (Hq : ((v - l) / Qmax (u - l) eps == t)%Q).
      { unfold t. rewrite (Q.max_l (u - l) eps) by auto. reflexivity. }
      rewrite Qclamp_unit; [done|]. rewrite Hq. done. }
    rewrite (Qround_half_up_comp
               (Qclamp ((v - l) / Qmax (u - l) eps) 0 1 * 255) (t * 255))
      by (rewrite Href; reflexivity).
    split; [done|]. split; [done|]. split; [|split].
    + intros Heq. apply Qround_half_up_0. unfold t. rewrite Heq.
      unfold Qminus. rewrite Qplus_opp_r. unfold Qdiv. apply Qmult_0_l.
    + intros Heq _. apply Qround_half_up_1. unfold t. rewrite Heq.
      apply Qmult_inv_r. done.
    + intros Heq. exfalso. nra.
Qed.

(** C1.  On a cropped raster whose values lie between the recorded minimum
    [l] and maximum [u], the normaliser stores for each value [v] the byte
    [round(clamp((v - l) / max(u - l, eps), 0, 1) * 255)], for every
    positive [eps] that does not exceed a positive range.  Hence every
    byte lies in 0..255, a value equal to the minimum gives 0, a value
    equal to the maximum gives 255 when the range is positive, and on a
    flat raster every byte is 0. *)
Theorem normalize_bounds (s : CropState) (c : CropWindow) (l u eps : Q) :
  lo s = Fin l -> hi s = Fin u ->
  Z.of_nat (length (cropped s)) = cw c * ch c ->
  (forall i, 0 <= i < cw c * ch c ->
     exists v, get (cropped s) i = Fin v /\ (l <= v <= u)%Q) ->
  (0 < eps)%Q -> ((l < u)%Q -> (eps <= u - l)%Q) ->
  exists u8,
    normalize s c = Returned u8 /\
    Z.of_nat (length u8) = cw c * ch c /\
    forall i, 0 <= i < cw c * ch c ->
      exists v b,
        get (cropped s) i = Fin v /\ read u8 i = Some b /\
        b = normalize_ref eps v l u /\
        0 <= b <= 255 /\
        ((v == l)%Q -> b = 0) /\
        ((v == u)%Q -> (l < u)%Q -> b = 255) /\
        ((l == u)%Q -> b = 0).
Proof.
  intros Hlo Hhi Hlen Hvals Heps Hsmall. unfold normalize.
  rewrite newUint8Array_Returned by lia.
  cbn [mbind outcome_bind mret outcome_ret]. eexists. split; [reflexivity|].
  split; [rewrite length_fill, length_replicate; lia|].
  intros i Hi. destruct (Hvals i Hi) as (v & Hv & Hrange).
  exists v. eexists. split; [done|]. split.
  { apply (read_fill (fun i => normalizePixel (get (cropped s) i) (lo s)
             (num_or (num_sub (hi s) (lo s)) (num_of_Z 1)))).
    - lia.
    - rewrite length_replicate. lia. }
  rewrite Hv, Hlo, Hhi. by apply normalizePixel_spec.
Qed.

Lemma normalize_bounds_witness :
  exists u8,
    normalize smallCrop smallWindow = Returned u8 /\
    Z.of_nat (length u8) = cw smallWindow * ch smallWindow /\
    forall i, 0 <= i < cw smallWindow * ch smallWindow ->
      exists v b,
        get (cropped smallCrop) i = Fin v /\ read u8 i = Some b /\
        b = normalize_ref (1 # 256) v 10 40.25 /\
        0 <= b <= 255 /\
        ((v == 10)%Q -> b = 0) /\
        ((v == 40.25)%Q -> (10 < 40.25)%Q -> b = 255) /\
        ((10 == 40.25)%Q -> b = 0).
Proof.
  apply (normalize_bounds smallCrop smallWindow 10 40.25 (1 # 256)).
  - reflexivity.
  - reflexivity.
  - reflexivity.
  - intros i Hi. change (cw smallWindow * ch smallWindow) with 4 in Hi.
    assert (Hcases : i = 0 \/ i = 1 \/ i = 2 \/ i = 3) by lia.
    destruct Hcases as [Hi0|[Hi1|[Hi2|Hi3]]]; subst i; eexists;
      (split; [reflexivity|]); split; vm_compute; congruence.
  - reflexivity.
  - intros _. vm_compute. congruence.
Defined.

(** ** The message of a tile error determines the tile and the status *)

Ltac elem_of_literal :=
  repeat first [ by apply list_elem_of_here | apply list_elem_of_further ].

Lemma pretty_N_char_numeral x : numeral_char (pretty_N_char x).
Proof.
  unfold numeral_char, pretty_N_char.
  repeat case_match; elem_of_literal.
Qed.

Lemma pretty_N_go_occurs x s c :
  occurs c (pretty_N_go x s) -> numeral_char c \/ occurs c s.
Proof.
  revert s. induction (N.lt_wf_0 x) as [x _ IH]; intros s Hc.
  assert (x = 0 \/ 0 < x)%N as [->|Hx] by lia.
  - rewrite pretty_N_go_0 in Hc. by right.
  - rewrite pretty_N_go_step in Hc by done.
    pose proof (IH _ (N.div_lt x 10 Hx eq_refl) _ Hc) as Hc'.
    destruct Hc' as [Hc'|[->|Hc']]; [by left| |by right].
    left. apply pretty_N_char_numeral.
Qed.

Lemma pretty_Z_occurs (z : Z) c : occurs c (pretty z) -> numeral_char c.
Proof.
  assert (HN : forall n : N, occurs c (pretty n) -> numeral_char c).
  { intros n. unfold pretty, pretty_N. case_decide.
    - intros [->|[]]. unfold numeral_char. elem_of_literal.
    - intros Hc. by apply pretty_N_go_occurs in Hc as [Hc|[]]. }
  unfold pretty, pretty_Z. destruct z as [|p|p].
  - intros [->|[]]. unfold numeral_char. elem_of_literal.
  - exact (HN (N.pos p)).
  - intros [->|Hc]; [unfold numeral_char; elem_of_literal|].
    exact (HN (N.pos p) Hc).
Qed.

(** Two texts cut at the first occurrence of a separator. *)
Lemma split_at_separator c s1 s2 t1 t2 :
  ~ occurs c s1 -> ~ occurs c s2 ->
  s1 +:+ String c t1 = s2 +:+ String c t2 -> s1 = s2 /\ t1 = t2.
Proof.
  revert s2. induction s1 as [|a s1 IH]; intros [|b s2] H1 H2 Heq.
  - by injection Heq.
  - exfalso. apply H2. injection Heq as Hc _. left. done.
  - exfalso. apply H1. injection Heq as Hc _. left. done.
  - injection Heq as -> Heq.
    destruct (IH s2) as [-> ->]; try done.
    + intros Hc. apply H1. by right.
    + intros Hc. apply H2. by right.
Qed.

Lemma pretty_Z_no_slash (z : Z) : ~ occurs "/"%char (pretty z).
Proof.
  intros Hc%pretty_Z_occurs. unfold numeral_char in Hc.
  repeat (apply elem_of_cons in Hc as [Hc|Hc]; [discriminate|]).
  by apply elem_of_nil in Hc.
Qed.



(** ** The pipeline *)







(** ** The elevation range of a result *)

Lemma Forall_set {A : Type} (P : A -> Prop) (a : list A) i v :
  Forall P a -> P v -> Forall P (set a i v).
Proof.
  intros Ha Hv. unfold set. destruct (i <? 0); [done|]. by apply Forall_insert.
Qed.

Lemma Forall_writes {A K : Type} (P : A -> Prop) (idx : K -> Z) (val : K -> A) ks a :
  Forall P a -> (forall k, k ∈ ks -> P (val k)) -> Forall P (writes idx val ks a).
Proof.
  unfold writes. revert a. induction ks as [|k ks IH]; intros a Ha Hks; [done|].
  cbn [foldl]. apply IH.
  - apply Forall_set; [done|]. apply Hks. left.
  - intros k' Hk'. apply Hks. by right.
Qed.

Lemma terrarium_finite img i :
  wf_image img -> 0 <= i < img_width img * img_height img ->
  is_finite (terrarium (img_data img) (i * 4)).
Proof.
  intros Hwf Hi.
  destruct (wf_image_read img (i * 4) Hwf) as (r & Hr & _); [lia|].
  destruct (wf_image_read img (i * 4 + 1) Hwf) as (g & Hg & _); [lia|].
  destruct (wf_image_read img (i * 4 + 2) Hwf) as (b & Hb & _); [lia|].
  by rewrite (terrarium_value _ _ r g b Hr Hg Hb).
Qed.

Lemma fetched_tile_finite net z x y t :
  net_wf net -> fetchAndDecodeTile net z x y = Returned t ->
  forall py px, 0 <= py < height t -> 0 <= px < width t ->
    is_finite (get (elev t) (py * width t + px)).
Proof.
  intros Hwf Hf py px Hpy Hpx. unfold fetchAndDecodeTile in Hf.
  destruct (net (tileUrl z x y)) as [res|e] eqn:Hnet; [|done].
  cbn [mbind outcome_bind] in Hf. destruct (res_ok res); [|done]. cbn [negb] in Hf.
  destruct (res_image res) as [img|e] eqn:Himg; [|done].
  cbn [mbind outcome_bind] in Hf.
  pose proof (Hwf _ _ _ Hnet Himg) as Hi.
  destruct (decodeImage_Returned img Hi) as (t' & Ht' & Hw & Hh & _ & Hpx').
  rewrite Ht' in Hf. injection Hf as <-.
  rewrite Hw, Hh in *.
  assert (Hidx : 0 <= py * img_width img + px < img_width img * img_height img) by nia.
  rewrite (get_read _ _ _ (Hpx' _ Hidx)). by apply terrarium_finite.
Qed.

Lemma copyTile_finite full fullW ox oy t :
  Forall is_finite full ->
  (forall py px, 0 <= py < height t -> 0 <= px < width t ->
     is_finite (get (elev t) (py * width t + px))) ->
  Forall is_finite (copyTile full fullW ox oy t).
Proof.
  intros Hfull Ht. rewrite copyTile_writes. apply Forall_writes; [done|].
  intros [py px] Hp. apply elem_of_pairs in Hp as [Hy Hx].
  apply elem_of_seqZ in Hy, Hx. apply Ht; simpl; lia.
Qed.

Lemma awaitAll_finite net zoom g schedule full full' :
  net_wf net -> Forall is_finite full ->
  awaitAll net zoom g schedule full = Returned full' ->
  Forall is_finite full' /\ length full' = length full.
Proof.
  intros Hwf. revert full. induction schedule as [|k rest IH]; intros full Hfin Hret.
  - injection Hret as <-. done.
  - cbn [awaitAll] in Hret.
    destruct (tileRequests g !! k) as [[tx ty]|]; [|by apply IH].
    destruct (fetchAndDecodeTile net zoom tx ty) as [t|e] eqn:Hf; [|done].
    apply IH in Hret as [Hfin' Hlen'].
    + split; [done|]. by rewrite Hlen', length_copyTile.
    + apply copyTile_finite; [done|]. by eapply fetched_tile_finite.
Qed.

Lemma stitch_finite net zoom g schedule full :
  net_wf net -> stitch net zoom g schedule = Returned full ->
  Forall is_finite full /\ Z.of_nat (length full) = fullW g * fullH g.
Proof.
  intros Hwf Hst. unfold stitch, newFloat32Array in Hst.
  destruct (Z.ltb_spec (fullW g * fullH g) 0) as [Hneg|Hsz]; [done|].
  cbn [mbind outcome_bind] in Hst.
  apply awaitAll_finite in Hst as [Hfin Hlen]; [|done|by apply Forall_replicate].
  split; [done|]. rewrite Hlen, length_replicate. lia.
Qed.

Lemma createImageData_Returned sw sh data :
  createImageData sw sh = Returned data -> 0 < sw /\ 0 < sh.
Proof.
  unfold createImageData.
  destruct (Z.ltb_spec sw 0), (Z.ltb_spec sh 0); cbn [orb]; try done.
  destruct (Z.eqb_spec sw 0), (Z.eqb_spec sh 0); cbn [orb]; try done.
  intros _. lia.
Qed.

(** A result comes out of the last stages only for a window with at least
    one pixel; its range is the one found while cropping. *)
Lemma finish_Returned resample full g c outputPx res :
  finish resample full g c outputPx = Returned res ->
  0 < cw c /\ 0 < ch c /\
  exists s, crop full (fullW g) c = Returned s /\
    elevMin res = lo s /\ elevMax res = hi s /\
    hm_width res = outputPx /\ hm_height res = outputPx.
Proof.
  unfold finish. intros Hret.
  destruct (crop full (fullW g) c) as [s|e]; [|done].
  cbn [mbind outcome_bind] in Hret.
  destruct (normalize s c) as [u8|e]; [|done].
  cbn [mbind outcome_bind] in Hret. unfold resize in Hret.
  destruct (createImageData (cw c) (ch c)) as [srcImg|e] eqn:Hsrc; [|done].
  apply createImageData_Returned in Hsrc as [Hw Hh].
  cbn [mbind outcome_bind] in Hret.
  destruct (resample _ _ _ _) as [dstData|e]; [|done].
  cbn [mbind outcome_bind] in Hret.
  destruct (redChannel outputPx dstData) as [hm|e]; [|done].
  cbn [mbind outcome_bind mret outcome_ret] in Hret. injection Hret as <-.
  split; [done|]. split; [done|]. by exists s.
Qed.

(** The range reported by the last stages, for a raster of finite values
    and a window inside it. *)
Lemma finish_range resample full g c outputPx res :
  Z.of_nat (length full) = fullW g * fullH g ->
  Forall is_finite full ->
  inside (fullW g) (fullH g) c ->
  finish resample full g c outputPx = Returned res ->
  exists s,
    crop full (fullW g) c = Returned s /\
    elevMin res = lo s /\ elevMax res = hi s /\
    window_min full (fullW g) c (elevMin res) /\
    window_max full (fullW g) c (elevMax res) /\
    num_le (elevMin res) (elevMax res).
Proof.
  intros Hlen Hfin Hin Hret.
  apply finish_Returned in Hret as (Hw & Hh & s & Hs & Hmin & Hmax & _).
  assert (Hs' := Hs). rewrite crop_Returned in Hs' by nia. injection Hs' as <-.
  cbn [lo hi] in Hmin, Hmax.
  pose proof (crop_window_min full _ _ c Hlen Hfin Hin Hw Hh) as Hwmin.
  pose proof (crop_window_max full _ _ c Hlen Hfin Hin Hw Hh) as Hwmax.
  eexists. split; [exact Hs|]. cbn [lo hi]. rewrite Hmin, Hmax.
  split; [done|]. split; [done|]. split; [done|]. split; [done|].
  destruct Hwmin as [Hlow _]. destruct Hwmax as [Hup _].
  eapply num_le_trans; [apply (Hlow 0 0); lia|apply (Hup 0 0); lia].
Qed.

(** C7.  Whenever the pipeline returns a result for a request whose crop
    window lies inside the stitched raster, the reported [elevMin] and
    [elevMax] are the values tracked while cropping, they are the least
    and the greatest elevation over the crop window of the stitched
    raster, and [elevMin <= elevMax]; the resampler plays no part in
    them. *)
Theorem elevation_range {N : Type} `{Arith N} (net : Network)
    (schedule : list nat) (resample : Resampler) (params : TerrainParams N)
    (res : HeightmapResult) :
  let bbox := bboxOf params in
  let g := tileGrid bbox (zoom params) in
  net_wf net ->
  (forall c, cropWindow bbox g (zoom params) = Some c ->
             inside (fullW g) (fullH g) c) ->
  generateHeightmap net schedule resample params = Returned res ->
  exists full c s,
    stitch net (zoom params) g schedule = Returned full /\
    cropWindow bbox g (zoom params) = Some c /\
    crop full (fullW g) c = Returned s /\
    elevMin res = lo s /\ elevMax res = hi s /\
    window_min full (fullW g) c (elevMin res) /\
    window_max full (fullW g) c (elevMax res) /\
    num_le (elevMin res) (elevMax res).
Proof.
  intros bbox g Hwf Hinside Hret. unfold generateHeightmap in Hret.
  fold bbox g in Hret.
  destruct (stitch net (zoom params) g schedule) as [full|e] eqn:Hst; [|done].
  cbn [mbind outcome_bind] in Hret.
  destruct (cropWindow bbox g (zoom params)) as [c|] eqn:Hc; [|done].
  destruct (stitch_finite _ _ _ _ _ Hwf Hst) as [Hfin Hlen].
  destruct (finish_range _ _ _ _ _ _ Hlen Hfin (Hinside c eq_refl) Hret)
    as (s & Hs & Hrest).
  exists full, c, s. done.
Qed.

Lemma net_wf_smallNet : net_wf smallNet.
Proof.
  intros url res img Hnet Himg. injection Hnet as <-. injection Himg as <-.
  unfold wf_image. cbn [smallImage img_width img_height img_data].
  repeat split; try lia; try reflexivity.
  repeat constructor; lia.
Qed.

Lemma elevation_range_witness :
  let bbox := bboxOf (H := Q_Arith linearHost) smallParams in
  let g := tileGrid (H := Q_Arith linearHost) bbox (zoom smallParams) in
  exists full c s,
    stitch smallNet (zoom smallParams) g [0%nat] = Returned full /\
    cropWindow (H := Q_Arith linearHost) bbox g (zoom smallParams) = Some c /\
    crop full (fullW g) c = Returned s /\
    elevMin smallResult = lo s /\ elevMax smallResult = hi s /\
    window_min full (fullW g) c (elevMin smallResult) /\
    window_max full (fullW g) c (elevMax smallResult) /\
    num_le (elevMin smallResult) (elevMax smallResult).
Proof.
  apply (elevation_range (H := Q_Arith linearHost) smallNet [0%nat] flatResampler
           smallParams smallResult).
  - apply net_wf_smallNet.
  - intros c Hc. vm_compute in Hc. injection Hc as <-.
    vm_compute. intuition congruence.
  - vm_compute. reflexivity.
Defined.

(** ** The tile math over the real numbers *)


(** [1 << zoom] is a positive power of two unless the shift count, taken
    modulo 32, is 31. *)
Lemma shl_1_pos zoom : zoom mod 32 <> 31 -> 0 < shl 1 zoom.
Proof.
  intros Hz. unfold shl, toInt32.
  change ((1 + 2 ^ 31) mod 2 ^ 32 - 2 ^ 31) with 1.
  rewrite Z.shiftl_1_l.
  pose proof (Z.mod_pos_bound zoom 32 ltac:(lia)).
  assert (0 < 2 ^ (zoom mod 32) <= 2 ^ 30).
  { split; [apply Z.pow_pos_nonneg; lia|apply Z.pow_le_mono_r; lia]. }
  rewrite Z.mod_small; lia.
Qed.

Section RealTileMath.
Local Open Scope R_scope.

Lemma sinh_increasing x y : x < y -> sinh x < sinh y.
Proof.
  intros Hxy. unfold sinh.
  pose proof (exp_increasing x y Hxy).
  pose proof (exp_increasing (- y) (- x) ltac:(lra)).
  lra.
Qed.

Lemma cos_pos_quadrant r : - PI / 2 < r < PI / 2 -> 0 < cos r.
Proof. intros [Hl Hu]. apply cos_gt_0; lra. Qed.

(** [(tan r + 1 / cos r) * (1 / cos r - tan r) = 1] *)
Lemma sec_tan_product r :
  cos r <> 0 -> (tan r + 1 / cos r) * (1 / cos r - tan r) = 1.
Proof.
  intros Hc. unfold tan.
  pose proof (sin2_cos2 r) as Hsc. unfold Rsqr in Hsc.
  field_simplify_eq; [|done]. nra.
Qed.

Lemma sec_tan_pos r : - PI / 2 < r < PI / 2 -> 0 < tan r + 1 / cos r.
Proof.
  intros Hr. pose proof (cos_pos_quadrant r Hr) as Hc.
  pose proof (sec_tan_product r ltac:(lra)) as Hprod.
  assert (Hother : 0 <= 1 / cos r - tan r).
  { unfold tan. replace (1 / cos r - sin r / cos r) with ((1 - sin r) / cos r)
      by (field; lra).
    unfold Rdiv. apply Rmult_le_pos.
    - pose proof (SIN_bound r). lra.
    - left. by apply Rinv_0_lt_compat. }
  destruct (Rle_lt_dec (tan r + 1 / cos r) 0) as [Hneg|Hpos]; [|done].
  exfalso. nra.
Qed.

(** The hyperbolic sine of the Mercator ordinate is the tangent of the
    latitude. *)
Lemma sinh_mercator r : - PI / 2 < r < PI / 2 -> sinh (mercator r) = tan r.
Proof.
  intros Hr. unfold sinh, mercator.
  pose proof (cos_pos_quadrant r Hr) as Hc.
  pose proof (sec_tan_pos r Hr) as Hu.
  rewrite exp_Ropp, exp_ln by done.
  pose proof (sec_tan_product r ltac:(lra)) as Hprod.
  assert (Hinv : / (tan r + 1 / cos r) = 1 / cos r - tan r).
  { apply Rmult_eq_reg_l with (tan r + 1 / cos r); [|lra].
    rewrite Rinv_r by lra. lra. }
  rewrite Hinv. lra.
Qed.

Lemma mercator_increasing a b :
  - PI / 2 < a -> a <= b -> b < PI / 2 -> mercator a <= mercator b.
Proof.
  intros Ha Hab Hb. destruct (Rle_lt_dec (mercator a) (mercator b)) as [Hle|Hlt]; [done|].
  exfalso. apply sinh_increasing in Hlt.
  rewrite !sinh_mercator in Hlt by lra.
  destruct Hab as [Hab| ->]; [|lra].
  pose proof (tan_increasing a b Ha Hab Hb). lra.
Qed.

Lemma mercator_inverse r : - PI / 2 < r < PI / 2 -> atan (sinh (mercator r)) = r.
Proof. intros Hr. rewrite sinh_mercator by done. apply atan_tan. lra. Qed.
End RealTileMath.

Section RealProjection.
Local Open Scope R_scope.

Lemma lonToX_real lon n :
  lonToX (H := R_Arith) lon n = Zfloor (((lon + 180) / 360) * IZR n).
Proof. reflexivity. Qed.

Lemma latToY_real lat n :
  latToY (H := R_Arith) lat n
  = Zfloor (((1 - mercator (lat * PI / 180) / PI) / 2) * IZR n).
Proof. reflexivity. Qed.

Lemma lonToX_mono lon1 lon2 n :
  (0 < n)%Z -> lon1 <= lon2 ->
  (lonToX (H := R_Arith) lon1 n <= lonToX (H := R_Arith) lon2 n)%Z.
Proof.
  intros Hn Hlon. rewrite !lonToX_real. apply Zfloor_le.
  apply IZR_lt in Hn. nra.
Qed.

Lemma latToY_anti lat1 lat2 n :
  (0 < n)%Z -> -90 < lat1 -> lat1 <= lat2 -> lat2 < 90 ->
  (latToY (H := R_Arith) lat2 n <= latToY (H := R_Arith) lat1 n)%Z.
Proof.
  intros Hn Hl Hlat Hu. rewrite !latToY_real. apply Zfloor_le.
  apply IZR_lt in Hn. pose proof PI_RGT_0 as Hpi.
  assert (Hm : mercator (lat1 * PI / 180) <= mercator (lat2 * PI / 180)).
  { apply mercator_increasing; nra. }
  assert (Hq : mercator (lat1 * PI / 180) / PI <= mercator (lat2 * PI / 180) / PI).
  { unfold Rdiv. apply Rmult_le_compat_r; [|done].
    left. by apply Rinv_0_lt_compat. }
  nra.
Qed.


End RealProjection.

(** ** The tile grid of a bounding box *)


Section RealGrid.
Local Open Scope R_scope.



End RealGrid.

(** ** The crop window under the true functions

    With the real functions the tile grid contains the bounding box, so
    that the crop window lies inside the stitched raster: the premise of
    the statements about the crop holds for every bounding box between the
    poles. *)

Section RealCrop.
Local Open Scope R_scope.

Lemma xToLon_real x n :
  xToLon (H := R_Arith) x n = IZR x / IZR n * 360 - 180.
Proof. reflexivity. Qed.

Lemma yToLat_real y n :
  yToLat (H := R_Arith) y n = 180 / PI * atan (sinh (PI - 2 * PI * IZR y / IZR n)).
Proof.
  unfold yToLat, sinh.
  cbn [R_Arith lit n_add n_sub n_mul n_div n_opp Math_PI Math_exp Math_atan].
  set (v := PI - 2 * PI * IZR y / IZR n).
  by replace (1 / 2 * (exp v - exp (- v))) with ((exp v - exp (- v)) / 2) by lra.
Qed.

Lemma Math_round_real x : Math_round (H := R_Arith) x = Zfloor (x + 1 / 2).
Proof. reflexivity. Qed.

Lemma round_nonneg x : 0 <= x -> (0 <= Zfloor (x + 1 / 2))%Z.
Proof. intros Hx. apply Zfloor_lub. lra. Qed.

Lemma round_le x z : x <= IZR z -> (Zfloor (x + 1 / 2) <= z)%Z.
Proof.
  intros Hx. pose proof (Zfloor_bound (x + 1 / 2)) as [Hl _].
  assert (Hlt : IZR (Zfloor (x + 1 / 2)) < IZR (z + 1)) by (rewrite plus_IZR; lra).
  apply lt_IZR in Hlt. lia.
Qed.

Lemma round_mono x y : x <= y -> (Zfloor (x + 1 / 2) <= Zfloor (y + 1 / 2))%Z.
Proof. intros Hxy. apply Zfloor_le. lra. Qed.

Lemma atan_mono x y : x <= y -> atan x <= atan y.
Proof.
  intros [Hlt| ->]; [|lra]. left. by apply atan_increasing.
Qed.

Lemma sinh_mono x y : x <= y -> sinh x <= sinh y.
Proof.
  intros [Hlt| ->]; [|lra]. left. by apply sinh_increasing.
Qed.

(** The row of tiles of a latitude lies between the latitudes of its two
    edges. *)
Lemma yToLat_latToY lat n :
  (0 < n)%Z -> -90 < lat < 90 ->
  let y := latToY (H := R_Arith) lat n in
  yToLat (H := R_Arith) (y + 1) n < lat <= yToLat (H := R_Arith) y n.
Proof.
  intros Hn Hlat y. pose proof PI_RGT_0 as Hpi. apply IZR_lt in Hn.
  set (r := lat * PI / 180).
  assert (Hr : - PI / 2 < r < PI / 2) by (unfold r; nra).
  pose proof (mercator_inverse r Hr) as Hinv.
  assert (Hlat_r : lat = 180 / PI * r) by (unfold r; field; lra).
  pose proof (Zfloor_bound ((1 - mercator r / PI) / 2 * IZR n)) as [Hlo Hhi].
  assert (Hy : Zfloor ((1 - mercator r / PI) / 2 * IZR n) = y) by reflexivity.
  rewrite Hy in Hlo, Hhi.
  assert (Hk : 0 < 180 / PI) by (apply Rdiv_lt_0_compat; lra).
  set (mp := mercator r / PI) in *.
  assert (HM : mercator r = mp * PI) by (unfold mp; field; lra).
  rewrite !yToLat_real. split.
  - set (q := IZR (y + 1) / IZR n).
    replace (2 * PI * IZR (y + 1) / IZR n) with (2 * PI * q) by (unfold q; field; lra).
    assert (Hq : (1 - mp) / 2 < q).
    { apply Rmult_lt_reg_r with (IZR n); [done|].
      replace (q * IZR n) with (IZR (y + 1)) by (unfold q; field; lra).
      rewrite plus_IZR. lra. }
    assert (Hv : PI - 2 * PI * q < mercator r) by (rewrite HM; nra).
    apply sinh_increasing, atan_increasing in Hv. rewrite Hinv in Hv.
    apply (Rmult_lt_compat_l (180 / PI)) in Hv; [|done]. lra.
  - set (q := IZR y / IZR n).
    replace (2 * PI * IZR y / IZR n) with (2 * PI * q) by (unfold q; field; lra).
    assert (Hq : q <= (1 - mp) / 2).
    { apply Rmult_le_reg_r with (IZR n); [done|].
      replace (q * IZR n) with (IZR y) by (unfold q; field; lra). lra. }
    assert (Hv : mercator r <= PI - 2 * PI * q) by (rewrite HM; nra).
    apply sinh_mono, atan_mono in Hv. rewrite Hinv in Hv.
    apply (Rmult_le_compat_l (180 / PI)) in Hv; [|lra]. lra.
Qed.

(** The column of tiles of a longitude lies between the longitudes of its
    two edges. *)
Lemma xToLon_lonToX lon n :
  (0 < n)%Z ->
  let x := lonToX (H := R_Arith) lon n in
  xToLon (H := R_Arith) x n <= lon < xToLon (H := R_Arith) (x + 1) n.
Proof.
  intros Hn x. apply IZR_lt in Hn.
  pose proof (Zfloor_bound ((lon + 180) / 360 * IZR n)) as [Hlo Hhi].
  assert (Hx : Zfloor ((lon + 180) / 360 * IZR n) = x) by reflexivity.
  rewrite Hx in Hlo, Hhi. rewrite !xToLon_real, plus_IZR. split.
  - assert (Hq : IZR x / IZR n <= (lon + 180) / 360).
    { apply Rmult_le_reg_r with (IZR n); [done|].
      replace (IZR x / IZR n * IZR n) with (IZR x) by (field; lra). lra. }
    lra.
  - assert (Hq : (lon + 180) / 360 < (IZR x + 1) / IZR n).
    { apply Rmult_lt_reg_r with (IZR n); [done|].
      replace ((IZR x + 1) / IZR n * IZR n) with (IZR x + 1) by (field; lra). lra. }
    lra.
Qed.

(** Rounded interpolation of two points of an interval into [0, W]. *)
Lemma round_interpolate p q D W :
  0 <= p -> p <= q -> q <= D -> 0 < D -> (0 <= W)%Z ->
  (0 <= Zfloor (p / D * IZR W + 1 / 2)
   <= Zfloor (q / D * IZR W + 1 / 2))%Z /\
  (Zfloor (q / D * IZR W + 1 / 2) <= W)%Z.
Proof.
  intros Hp Hpq HqD HD HW. apply IZR_le in HW.
  assert (Hinv : 0 < / D) by (by apply Rinv_0_lt_compat).
  assert (Hrp : 0 <= p / D) by (unfold Rdiv; nra).
  assert (Hrpq : p / D <= q / D) by (unfold Rdiv; nra).
  assert (Hrq : q / D <= 1).
  { apply Rmult_le_reg_r with D; [done|].
    replace (q / D * D) with q by (field; lra). lra. }
  repeat split.
  - apply round_nonneg. nra.
  - apply round_mono. nra.
  - apply round_le. nra.
Qed.

Lemma crop_window_inside_real (bbox : GeoBoundingBox R) (zoom : Z) :
  west bbox < east bbox -> south bbox < north bbox ->
  -90 < south bbox -> north bbox < 90 ->
  (zoom mod 32 <> 31)%Z ->
  let g := tileGrid (H := R_Arith) bbox zoom in
  exists c, cropWindow (H := R_Arith) bbox g zoom = Some c /\
    inside (fullW g) (fullH g) c.
Proof.
  intros Hwe Hsn Hs Hn Hzoom g.
  pose proof (shl_1_pos zoom Hzoom) as Hpos.
  pose proof (xToLon_lonToX (west bbox) _ Hpos) as [HgW _].
  pose proof (xToLon_lonToX (east bbox) _ Hpos) as [_ HgE].
  pose proof (yToLat_latToY (north bbox) _ Hpos ltac:(lra)) as [_ HgN].
  pose proof (yToLat_latToY (south bbox) _ Hpos ltac:(lra)) as [HgS _].
  cbv zeta in HgW, HgE, HgN, HgS.
  assert (Htw : (0 <= fullW g)%Z).
  { unfold fullW, tw, g, tileGrid, TS. cbn [txMin txMax].
    pose proof (lonToX_mono (west bbox) (east bbox) _ Hpos ltac:(lra)). lia. }
  assert (Hth : (0 <= fullH g)%Z).
  { unfold fullH, th, g, tileGrid, TS. cbn [tyMin tyMax].
    pose proof (latToY_anti (south bbox) (north bbox) _ Hpos Hs ltac:(lra) Hn). lia. }
  unfold cropWindow.
  change (txMin g) with (lonToX (H := R_Arith) (west bbox) (shl 1 zoom)).
  change (txMax g) with (lonToX (H := R_Arith) (east bbox) (shl 1 zoom)).
  change (tyMin g) with (latToY (H := R_Arith) (north bbox) (shl 1 zoom)).
  change (tyMax g) with (latToY (H := R_Arith) (south bbox) (shl 1 zoom)).
  set (n := shl 1 zoom) in *.
  set (gridW := xToLon (H := R_Arith) (lonToX (H := R_Arith) (west bbox) n) n) in *.
  set (gridE := xToLon (H := R_Arith) (lonToX (H := R_Arith) (east bbox) n + 1) n) in *.
  set (gridN := yToLat (H := R_Arith) (latToY (H := R_Arith) (north bbox) n) n) in *.
  set (gridS := yToLat (H := R_Arith) (latToY (H := R_Arith) (south bbox) n + 1) n) in *.
  cbn [R_Arith n_is_zero n_sub].
  destruct (Req_dec_T (gridE - gridW) 0) as [Heq|_]; [lra|].
  destruct (Req_dec_T (gridN - gridS) 0) as [Heq|_]; [lra|].
  cbn [orb]. eexists. split; [reflexivity|].
  unfold inside, cropOffsets. cbn [cropL cropR cropT cropB].
  rewrite !Math_round_real.
  cbn [R_Arith lit n_add n_sub n_mul n_div].
  destruct (round_interpolate (west bbox - gridW) (east bbox - gridW)
              (gridE - gridW) (fullW g)) as [[? ?] ?]; try lra; try done.
  destruct (round_interpolate (gridN - north bbox) (gridN - south bbox)
              (gridN - gridS) (fullH g)) as [[? ?] ?]; try lra; try done.
Qed.
End RealCrop.

(** Read over the real numbers, the pipeline reports a range with
    [elevMin <= elevMax] for every request whose bounding box lies between
    the poles: the crop window is inside the raster by the lemma above. *)
Lemma elevation_range_real (net : Network) (schedule : list nat)
    (resample : Resampler) (params : TerrainParams R) (res : HeightmapResult) :
  let bbox := bboxOf (H := R_Arith) params in
  (west bbox < east bbox)%R -> (south bbox < north bbox)%R ->
  (-90 < south bbox)%R -> (north bbox < 90)%R ->
  zoom params mod 32 <> 31 ->
  net_wf net ->
  generateHeightmap (H := R_Arith) net schedule resample params = Returned res ->
  num_le (elevMin res) (elevMax res).
Proof.
  intros bbox Hwe Hsn Hs Hn Hzoom Hwf Hret. unfold generateHeightmap in Hret.
  fold bbox in Hret.
  destruct (crop_window_inside_real bbox (zoom params) Hwe Hsn Hs Hn Hzoom)
    as (c & Hc & Hin).
  destruct (stitch _ _ _ _) as [full|e] eqn:Hst; [|done].
  cbn [mbind outcome_bind] in Hret. rewrite Hc in Hret.
  destruct (stitch_finite _ _ _ _ _ Hwf Hst) as [Hfin Hlen].
  destruct (finish_range _ _ _ _ _ _ Hlen Hfin Hin Hret) as (s & _ & _ & _ & _ & _ & Hle).
  exact Hle.
Qed.

(** * Further properties

    Properties of the same code beyond the statements of the design
    document, and of the code around the pipeline: the demo loader, the
    SCAD template, the preview image and the size formatter. *)

(** ** Tiles, grid and bounding box *)

Section MoreProjection.
Local Open Scope R_scope.





End MoreProjection.

(** X7.  The URL of a tile determines its zoom, column and row: two
    different tiles are never fetched from the same URL. *)
Theorem tileUrl_inj z x y z' x' y' :
  tileUrl z x y = tileUrl z' x' y' -> z = z' /\ x = x' /\ y = y'.
Proof.
  unfold tileUrl. intros Heq.
  apply (inj (String.app "https://s3.amazonaws.com/elevation-tiles-prod/terrarium/")) in Heq.
  apply (split_at_separator "/"%char) in Heq as [Hz Heq];
    [|apply pretty_Z_no_slash..].
  apply (split_at_separator "/"%char) in Heq as [Hx Heq];
    [|apply pretty_Z_no_slash..].
  assert (Hdot : forall v : Z, ~ occurs "."%char (pretty v)).
  { intros v Hc%pretty_Z_occurs. unfold numeral_char in Hc.
    repeat (apply elem_of_cons in Hc as [Hc|Hc]; [discriminate|]).
    by apply elem_of_nil in Hc. }
  apply (split_at_separator "."%char) in Heq as [Hy _]; [|apply Hdot..].
  apply (inj pretty) in Hz, Hx, Hy. done.
Qed.

Lemma tileUrl_inj_witness : 12 = 12 /\ 2126 = 2126 /\ 1458 = 1458.
Proof. exact (tileUrl_inj 12 2126 1458 12 2126 1458 eq_refl). Defined.

Section MoreGrid.
Local Open Scope R_scope.




End MoreGrid.

Section CropBounds.
Local Open Scope R_scope.


End CropBounds.

(** ** Decoded tiles *)

(** X6.  Every elevation of a tile decoded from a well-formed image is a
    multiple of 1/256 between -32768 (included) and 32768 (excluded), and
    the tile has one elevation per pixel. *)
Theorem decoded_elevation_range net z x y t :
  net_wf net -> fetchAndDecodeTile net z x y = Returned t ->
  0 <= width t /\ 0 <= height t /\
  Z.of_nat (length (elev t)) = width t * height t /\
  forall i, 0 <= i < width t * height t ->
    exists q, read (elev t) i = Some (Fin q) /\ on_grid256 q /\
      (-32768 <= q < 32768)%Q.
Proof.
  intros Hwf Hf. unfold fetchAndDecodeTile in Hf.
  destruct (net (tileUrl z x y)) as [res|e] eqn:Hnet; [|done].
  cbn [mbind outcome_bind] in Hf. destruct (res_ok res); [|done]. cbn [negb] in Hf.
  destruct (res_image res) as [img|e] eqn:Himg; [|done].
  cbn [mbind outcome_bind] in Hf.
  pose proof (Hwf _ _ _ Hnet Himg) as Hi.
  destruct (decodeImage_Returned img Hi) as (t' & Ht' & Hw & Hh & Hlen & Hpx).
  rewrite Ht' in Hf. injection Hf as <-. rewrite Hw, Hh.
  pose proof Hi as (Hw0 & Hh0 & _).
  split; [done|]. split; [done|]. split; [done|].
  intros i Hi'. rewrite (Hpx i Hi').
  destruct (terrarium_on_grid img i Hi Hi') as (q & Hq & Hgrid & Hrange).
  exists q. by rewrite Hq.
Qed.

Lemma decoded_elevation_range_witness :
  exists t, fetchAndDecodeTile smallNet 3 4 3 = Returned t /\
  0 <= width t /\ 0 <= height t /\
  Z.of_nat (length (elev t)) = width t * height t /\
  forall i, 0 <= i < width t * height t ->
    exists q, read (elev t) i = Some (Fin q) /\ on_grid256 q /\
      (-32768 <= q < 32768)%Q.
Proof.
  eexists. split; [reflexivity|].
  apply (decoded_elevation_range smallNet 3 4 3); [exact net_wf_smallNet|reflexivity].
Defined.

(** ** The last stages of the pipeline *)

Lemma length_grayToRGBA u8 data : length (grayToRGBA u8 data) = length data.
Proof.
  unfold grayToRGBA, for_range. generalize (seqZ 0 (Z.of_nat (length u8) - 0)).
  intros l. revert data. induction l as [|i l IH]; intros data; [done|].
  cbn [foldl]. rewrite IH. by rewrite !length_set.
Qed.

Lemma grayToRGBA_writes u8 data :
  grayToRGBA u8 data
  = writes (fun p : Z * Z => p.1 * 4 + p.2)
           (fun p : Z * Z => if p.2 =? 3 then 255 else u8_get u8 p.1)
           (pairs (seqZ 0 (Z.of_nat (length u8))) [0; 1; 2; 3]) data.
Proof.
  unfold grayToRGBA, for_range, writes, pairs. rewrite Z.sub_0_r.
  generalize (seqZ 0 (Z.of_nat (length u8))). intros l. revert data.
  induction l as [|i l IH]; intros data; [done|].
  cbn [foldl mbind list_bind app]. rewrite IH. cbn [fst snd].
  by rewrite Z.add_0_r.
Qed.

(** The image after the loop: pixel [j / 4] is gray and opaque when the
    grayscale data has an element for it, and is left as it was
    otherwise. *)
Lemma grayToRGBA_read u8 data j :
  0 <= j < Z.of_nat (length data) ->
  read (grayToRGBA u8 data) j
  = if j / 4 <? Z.of_nat (length u8)
    then Some (if j mod 4 =? 3 then 255 else u8_get u8 (j / 4))
    else read data j.
Proof.
  intros Hj. rewrite grayToRGBA_writes.
  assert (Hks : forall i k, (i, k) ∈ pairs (seqZ 0 (Z.of_nat (length u8))) [0; 1; 2; 3]
                  <-> 0 <= i < Z.of_nat (length u8) /\ 0 <= k < 4).
  { intros i k. rewrite elem_of_pairs, elem_of_seqZ. split.
    - intros [Hi Hk]. split; [lia|].
      repeat (apply elem_of_cons in Hk as [->|Hk]; [lia|]). by apply elem_of_nil in Hk.
    - intros [Hi Hk]. split; [lia|].
      assert (k = 0 \/ k = 1 \/ k = 2 \/ k = 3) as [Hk0|[Hk1|[Hk2|Hk3]]] by lia;
        subst k; elem_of_literal. }
  pose proof (Z.div_mod j 4 ltac:(lia)) as Hdm.
  pose proof (Z.mod_pos_bound j 4 ltac:(lia)) as Hm.
  destruct (Z.ltb_spec (j / 4) (Z.of_nat (length u8))) as [Hin|Hout].
  - apply read_writes_inv; [done| |].
    + intros [i k] Hp Heq. apply Hks in Hp as [Hi Hk]. cbn [fst snd] in *.
      assert (Hi' : i = j / 4) by lia. assert (Hk' : k = j mod 4) by lia.
      by rewrite Hi', Hk'.
    + right. exists (j / 4, j mod 4). split; [|cbn [fst snd]; lia].
      apply Hks. split; [|done]. split; [apply Z.div_pos; lia|done].
  - apply read_writes_other. intros [i k] Hp Heq. apply Hks in Hp as [Hi Hk].
    cbn [fst snd] in *. assert (i = j / 4) by lia. lia.
Qed.

Lemma u8_get_read (a : list Z) i v : read a i = Some v -> u8_get a i = v.
Proof. unfold u8_get. by intros ->. Qed.

Lemma redChannel_Returned px dst hm :
  redChannel px dst = Returned hm ->
  Z.of_nat (length hm) = px * px /\
  forall i, 0 <= i < px * px -> read hm i = Some (u8_get dst (i * 4)).
Proof.
  unfold redChannel, newUint8Array.
  destruct (Z.ltb_spec (px * px) 0) as [Hneg|Hsz]; [done|].
  cbn [mbind outcome_bind mret outcome_ret]. intros [= <-].
  rewrite length_fill, length_replicate. split; [lia|].
  intros i Hi. apply (read_fill (fun i => u8_get dst (i * 4))); rewrite ?length_replicate; lia.
Qed.

(** X10.  Writing grayscale bytes into an RGBA image and reading the red
    channel back returns the bytes unchanged: the two loops around the
    canvas in the resize stage lose nothing by themselves. *)
Theorem redChannel_grayToRGBA u8 px data :
  Z.of_nat (length u8) = px * px ->
  4 * (px * px) <= Z.of_nat (length data) ->
  redChannel px (grayToRGBA u8 data) = Returned u8.
Proof.
  intros Hlen Hdata.
  destruct (redChannel px (grayToRGBA u8 data)) as [hm|e] eqn:Hred.
  - f_equal. apply redChannel_Returned in Hred as [Hlen' Hread].
    apply read_ext; [lia|]. intros i.
    destruct (decide (0 <= i < px * px)) as [Hi|Hi].
    + rewrite (Hread i Hi).
      assert (Hpx : read (grayToRGBA u8 data) (i * 4) = Some (u8_get u8 i)).
      { rewrite grayToRGBA_read by lia. rewrite Z.div_mul, Z.mod_mul by lia.
        by destruct (Z.ltb_spec i (Z.of_nat (length u8))); [|lia]. }
      rewrite (u8_get_read _ _ _ Hpx).
      destruct (read_is_Some u8 i) as [v Hv]; [lia|].
      by rewrite (u8_get_read _ _ _ Hv).
    + rewrite !read_None by lia. done.
  - exfalso. unfold redChannel, newUint8Array in Hred.
    destruct (Z.ltb_spec (px * px) 0) as [Hneg|Hsz]; [lia|done].
Qed.

Lemma redChannel_grayToRGBA_witness :
  redChannel 2 (grayToRGBA [7; 0; 255; 128] (replicate 16 0)) = Returned [7; 0; 255; 128].
Proof. apply (redChannel_grayToRGBA [7; 0; 255; 128] 2 (replicate 16 0)); simpl; lia. Defined.

(** X9.  A heightmap that [generateHeightmap] returns is square:
    its width and height are [outputPx], it has [outputPx * outputPx]
    bytes, the crop window had at least one pixel in each direction, and
    byte [i] is the red channel of pixel [i] of what the canvas returned
    for the gray image. *)
Theorem result_shape {N : Type} `{Arith N} (net : Network) (schedule : list nat)
    (resample : Resampler) (params : TerrainParams N) (res : HeightmapResult) :
  generateHeightmap net schedule resample params = Returned res ->
  hm_width res = outputPx params /\ hm_height res = outputPx params /\
  Z.of_nat (length (heightmap res)) = outputPx params * outputPx params /\
  exists c, cropWindow (bboxOf params) (tileGrid (bboxOf params) (zoom params))
              (zoom params) = Some c /\
    0 < cw c /\ 0 < ch c /\
    exists src dst, resample src (cw c) (ch c) (outputPx params) = Returned dst /\
      Z.of_nat (length src) = 4 * cw c * ch c /\
      forall i, 0 <= i < outputPx params * outputPx params ->
        read (heightmap res) i = Some (u8_get dst (i * 4)).
Proof.
  unfold generateHeightmap. intros Hret.
  destruct (stitch _ _ _ _) as [full|e]; [|done].
  cbn [mbind outcome_bind] in Hret.
  destruct (cropWindow _ _ _) as [c|]; [|done].
  unfold finish in Hret.
  destruct (crop _ _ c) as [s|e]; [|done].
  cbn [mbind outcome_bind] in Hret.
  destruct (normalize s c) as [u8|e]; [|done].
  cbn [mbind outcome_bind] in Hret. unfold resize in Hret.
  destruct (createImageData (cw c) (ch c)) as [srcImg|e] eqn:Hsrc; [|done].
  pose proof (createImageData_Returned _ _ _ Hsrc) as [Hw Hh].
  cbn [mbind outcome_bind] in Hret.
  destruct (resample _ _ _ _) as [dstData|e] eqn:Hdst; [|done].
  cbn [mbind outcome_bind] in Hret.
  destruct (redChannel _ dstData) as [hm|e] eqn:Hred; [|done].
  cbn [mbind outcome_bind mret outcome_ret] in Hret. injection Hret as <-.
  cbn [hm_width hm_height heightmap].
  apply redChannel_Returned in Hred as [Hlen Hread].
  split; [done|]. split; [done|]. split; [done|].
  exists c. split; [done|]. split; [done|]. split; [done|].
  exists (grayToRGBA u8 srcImg), dstData. split; [done|]. split; [|done].
  rewrite length_grayToRGBA. unfold createImageData in Hsrc.
  destruct (_ || _); [done|]. destruct (_ || _); [done|].
  injection Hsrc as <-. rewrite length_replicate. lia.
Qed.

Lemma result_shape_witness :
  hm_width smallResult = outputPx smallParams /\
  hm_height smallResult = outputPx smallParams /\
  Z.of_nat (length (heightmap smallResult)) = outputPx smallParams * outputPx smallParams /\
  exists c, cropWindow (H := Q_Arith linearHost) (bboxOf (H := Q_Arith linearHost) smallParams)
              (tileGrid (H := Q_Arith linearHost) (bboxOf (H := Q_Arith linearHost) smallParams)
                 (zoom smallParams))
              (zoom smallParams) = Some c /\
    0 < cw c /\ 0 < ch c /\
    exists src dst, flatResampler src (cw c) (ch c) (outputPx smallParams) = Returned dst /\
      Z.of_nat (length src) = 4 * cw c * ch c /\
      forall i, 0 <= i < outputPx smallParams * outputPx smallParams ->
        read (heightmap smallResult) i = Some (u8_get dst (i * 4)).
Proof.
  apply (result_shape (H := Q_Arith linearHost) smallNet [0%nat] flatResampler smallParams).
  vm_compute. reflexivity.
Defined.

(** X8.  A request whose crop window has no pixel in one direction (its
    bounding box rounds to the same pixel column or row at both ends) gets
    no heightmap: [generateHeightmap] throws. *)
Theorem empty_window_rejected {N : Type} `{Arith N} (net : Network)
    (schedule : list nat) (resample : Resampler) (params : TerrainParams N)
    (c : CropWindow) :
  let bbox := bboxOf params in
  let g := tileGrid bbox (zoom params) in
  cropWindow bbox g (zoom params) = Some c ->
  cw c <= 0 \/ ch c <= 0 ->
  exists e, generateHeightmap net schedule resample params = Threw e.
Proof.
  intros bbox g Hc Hempty.
  destruct (generateHeightmap net schedule resample params) as [res|e] eqn:Hret;
    [|by exists e].
  exfalso. unfold generateHeightmap in Hret. fold bbox in Hret. fold g in Hret.
  destruct (stitch _ _ _ _) as [full|e]; [|done].
  cbn [mbind outcome_bind] in Hret. rewrite Hc in Hret.
  apply finish_Returned in Hret as (Hw & Hh & _). lia.
Qed.

Lemma empty_window_rejected_witness :
  exists e, generateHeightmap (H := Q_Arith linearHost) smallNet [0%nat] flatResampler
              tinyParams = Threw e.
Proof.
  apply (empty_window_rejected (H := Q_Arith linearHost) smallNet [0%nat] flatResampler
           tinyParams {| cropL := 1; cropR := 1; cropT := 1; cropB := 1 |}).
  - vm_compute. reflexivity.
  - left. vm_compute. congruence.
Defined.

Lemma elevation_value_zero : elevation_value (Fin 0).
Proof.
  exists 0%Q. split; [done|]. split; [|lra].
  exists 0. split; [lia|]. reflexivity.
Qed.

Lemma elevation_value_finite v : elevation_value v -> is_finite v.
Proof. by intros (q & -> & _). Qed.

Lemma fetched_tile_elevation net z x y t :
  net_wf net -> fetchAndDecodeTile net z x y = Returned t ->
  forall py px, 0 <= py < height t -> 0 <= px < width t ->
    elevation_value (get (elev t) (py * width t + px)).
Proof.
  intros Hwf Hf py px Hpy Hpx. unfold fetchAndDecodeTile in Hf.
  destruct (net (tileUrl z x y)) as [res|e] eqn:Hnet; [|done].
  cbn [mbind outcome_bind] in Hf. destruct (res_ok res); [|done]. cbn [negb] in Hf.
  destruct (res_image res) as [img|e] eqn:Himg; [|done].
  cbn [mbind outcome_bind] in Hf.
  pose proof (Hwf _ _ _ Hnet Himg) as Hi.
  destruct (decodeImage_Returned img Hi) as (t' & Ht' & Hw & Hh & _ & Hpx').
  rewrite Ht' in Hf. injection Hf as <-.
  rewrite Hw, Hh in *.
  assert (Hidx : 0 <= py * img_width img + px < img_width img * img_height img) by nia.
  rewrite (get_read _ _ _ (Hpx' _ Hidx)).
  destruct (terrarium_on_grid img _ Hi Hidx) as (q & Hq & Hgrid & Hrange).
  by exists q.
Qed.

Lemma awaitAll_elevation net zoom g schedule full full' :
  net_wf net -> Forall elevation_value full ->
  awaitAll net zoom g schedule full = Returned full' ->
  Forall elevation_value full'.
Proof.
  intros Hwf. revert full. induction schedule as [|k rest IH]; intros full Hfin Hret.
  - by injection Hret as <-.
  - cbn [awaitAll] in Hret.
    destruct (tileRequests g !! k) as [[tx ty]|]; [|by apply (IH full)].
    destruct (fetchAndDecodeTile net zoom tx ty) as [t|e] eqn:Hf; [|done].
    apply IH in Hret; [done|].
    rewrite copyTile_writes. apply Forall_writes; [done|].
    intros [py px] Hp. apply elem_of_pairs in Hp as [Hy Hx].
    apply elem_of_seqZ in Hy, Hx.
    apply (fetched_tile_elevation net zoom tx ty t Hwf Hf); simpl; lia.
Qed.

Lemma stitch_elevation net zoom g schedule full :
  net_wf net -> stitch net zoom g schedule = Returned full ->
  Forall elevation_value full.
Proof.
  intros Hwf Hst. unfold stitch, newFloat32Array in Hst.
  destruct (Z.ltb_spec (fullW g * fullH g) 0) as [Hneg|Hsz]; [done|].
  cbn [mbind outcome_bind] in Hst.
  apply awaitAll_elevation in Hst; [done|done|].
  apply Forall_replicate, elevation_value_zero.
Qed.

(** X24.  Whenever the pipeline returns a result for a network that serves
    well-formed images and a crop window inside the stitched raster, the
    reported [elevMin] and [elevMax] are finite multiples of 1/256 with
    [-32768 <= elevMin <= elevMax < 32768]; when they differ, they differ
    by at least 1/256, so the range the normaliser divides by is never
    smaller than that. *)
Theorem reported_range_bounded {N : Type} `{Arith N} (net : Network)
    (schedule : list nat) (resample : Resampler) (params : TerrainParams N)
    (res : HeightmapResult) :
  let bbox := bboxOf params in
  let g := tileGrid bbox (zoom params) in
  net_wf net ->
  (forall c, cropWindow bbox g (zoom params) = Some c ->
             inside (fullW g) (fullH g) c) ->
  generateHeightmap net schedule resample params = Returned res ->
  exists l u,
    elevMin res = Fin l /\ elevMax res = Fin u /\
    (-32768 <= l)%Q /\ (l <= u)%Q /\ (u < 32768)%Q /\
    on_grid256 l /\ on_grid256 u /\
    ((l < u)%Q -> (1 # 256 <= u - l)%Q).
Proof.
  intros bbox g Hwf Hin Hret. unfold generateHeightmap in Hret.
  fold bbox in Hret. fold g in Hret.
  destruct (stitch _ _ _ _) as [full|e] eqn:Hst; [|done].
  cbn [mbind outcome_bind] in Hret.
  destruct (cropWindow _ _ _) as [c|] eqn:Hc; [|done].
  specialize (Hin c eq_refl).
  destruct (stitch_finite _ _ _ _ _ Hwf Hst) as [Hfin Hlen].
  pose proof (stitch_elevation _ _ _ _ _ Hwf Hst) as Helev.
  destruct (finish_range _ _ _ _ _ _ Hlen Hfin Hin Hret)
    as (s & _ & _ & _ & Hmin & Hmax & Hle).
  rewrite Forall_forall in Helev.
  destruct Hmin as [_ (x & y & Hx & Hy & Hlo)].
  destruct Hmax as [_ (x' & y' & Hx' & Hy' & Hhi)].
  destruct (window_read full _ _ c y x Hlen Hin Hy Hx) as (v & _ & Hv & Hvin).
  destruct (window_read full _ _ c y' x' Hlen Hin Hy' Hx') as (v' & _ & Hv' & Hvin').
  rewrite Hv in Hlo. rewrite Hv' in Hhi.
  destruct (Helev v Hvin) as (l & Hl & Hgl & Hrl).
  destruct (Helev v' Hvin') as (u & Hu & Hgu & Hru).
  exists l, u. rewrite Hlo, Hhi in Hle |- *. rewrite Hl, Hu in Hle |- *.
  cbn [num_le] in Hle.
  split; [done|]. split; [done|]. split; [lra|]. split; [done|]. split; [lra|].
  split; [done|]. split; [done|]. by apply on_grid256_gap.
Qed.

Lemma reported_range_bounded_witness :
  exists l u,
    elevMin smallResult = Fin l /\ elevMax smallResult = Fin u /\
    (-32768 <= l)%Q /\ (l <= u)%Q /\ (u < 32768)%Q /\
    on_grid256 l /\ on_grid256 u /\
    ((l < u)%Q -> (1 # 256 <= u - l)%Q).
Proof.
  apply (reported_range_bounded (H := Q_Arith linearHost) smallNet [0%nat] flatResampler
           smallParams smallResult).
  - apply net_wf_smallNet.
  - intros c Hc. vm_compute in Hc. injection Hc as <-.
    vm_compute. intuition congruence.
  - vm_compute. reflexivity.
Defined.

(** ** More on normalising *)

Lemma normalize_read (s : CropState) (c : CropWindow) :
  Z.of_nat (length (cropped s)) = cw c * ch c ->
  exists u8,
    normalize s c = Returned u8 /\
    Z.of_nat (length u8) = cw c * ch c /\
    forall i, 0 <= i < cw c * ch c ->
      read u8 i = Some (normalizePixel (get (cropped s) i) (lo s)
                          (num_or (num_sub (hi s) (lo s)) (num_of_Z 1))).
Proof.
  intros Hlen. unfold normalize. rewrite newUint8Array_Returned by lia.
  cbn [mbind outcome_bind mret outcome_ret]. eexists. split; [reflexivity|].
  split; [rewrite length_fill, length_replicate; lia|].
  intros i Hi.
  apply (read_fill (fun i => normalizePixel (get (cropped s) i) (lo s)
           (num_or (num_sub (hi s) (lo s)) (num_of_Z 1)))).
  - lia.
  - rewrite length_replicate. lia.
Qed.

Lemma normalize_ref_mono eps v1 v2 l u :
  (0 < eps)%Q -> (v1 <= v2)%Q ->
  normalize_ref eps v1 l u <= normalize_ref eps v2 l u.
Proof.
  intros Heps Hv. unfold normalize_ref, Qround_half_up. apply Qfloor_resp_le.
  assert (HD : (0 < Qmax (u - l) eps)%Q).
  { eapply Qlt_le_trans; [exact Heps|]. apply Q.le_max_r. }
  assert (Hq : ((v1 - l) / Qmax (u - l) eps <= (v2 - l) / Qmax (u - l) eps)%Q).
  { unfold Qdiv. apply Qmult_le_compat_r; [lra|].
    apply Qlt_le_weak, Qinv_lt_0_compat, HD. }
  assert (Hc : (Qclamp ((v1 - l) / Qmax (u - l) eps) 0 1
                <= Qclamp ((v2 - l) / Qmax (u - l) eps) 0 1)%Q).
  { unfold Qclamp. apply Q.max_le_compat_l. by apply Q.min_le_compat_r. }
  lra.
Qed.

(** X11.  Normalising preserves the order of elevations: of two pixels
    the higher one never gets the smaller byte. *)
Theorem normalize_order_preserving (s : CropState) (c : CropWindow) (l u : Q) :
  lo s = Fin l -> hi s = Fin u ->
  Z.of_nat (length (cropped s)) = cw c * ch c ->
  (forall i, 0 <= i < cw c * ch c ->
     exists v, get (cropped s) i = Fin v /\ (l <= v <= u)%Q) ->
  exists u8,
    normalize s c = Returned u8 /\
    forall i j vi vj bi bj,
      get (cropped s) i = Fin vi -> get (cropped s) j = Fin vj ->
      read u8 i = Some bi -> read u8 j = Some bj ->
      (vi <= vj)%Q -> bi <= bj.
Proof.
  intros Hlo Hhi Hlen Hvals.
  destruct (normalize_read s c Hlen) as (u8 & Hret & Hlen8 & Hread).
  exists u8. split; [done|].
  intros i j vi vj bi bj Hvi Hvj Hbi Hbj Hle.
  pose proof (read_Some_lt _ _ _ Hbi) as Hi.
  pose proof (read_Some_lt _ _ _ Hbj) as Hj.
  rewrite Hlen8 in Hi, Hj.
  rewrite (Hread i Hi) in Hbi. rewrite (Hread j Hj) in Hbj.
  injection Hbi as <-. injection Hbj as <-.
  destruct (Hvals i Hi) as (vi' & Hvi' & Hri).
  destruct (Hvals j Hj) as (vj' & Hvj' & Hrj).
  rewrite Hvi in Hvi'. injection Hvi' as <-.
  rewrite Hvj in Hvj'. injection Hvj' as <-.
  rewrite Hvi, Hvj, Hlo, Hhi.
  set (eps := if Qlt_le_dec l u then (u - l)%Q else 1%Q).
  assert (Heps : (0 < eps)%Q) by (unfold eps; destruct (Qlt_le_dec l u); lra).
  assert (Hsmall : (l < u)%Q -> (eps <= u - l)%Q)
    by (unfold eps; destruct (Qlt_le_dec l u); lra).
  destruct (normalizePixel_spec eps vi l u Hri Heps Hsmall) as (-> & _).
  destruct (normalizePixel_spec eps vj l u Hrj Heps Hsmall) as (-> & _).
  by apply normalize_ref_mono.
Qed.

Lemma small_crop_values i :
  0 <= i < cw smallWindow * ch smallWindow ->
  exists v, get (cropped smallCrop) i = Fin v /\ (10 <= v <= 40.25)%Q.
Proof.
  intros Hi. change (cw smallWindow * ch smallWindow) with 4 in Hi.
  assert (Hcases : i = 0 \/ i = 1 \/ i = 2 \/ i = 3) by lia.
  destruct Hcases as [Hi0|[Hi1|[Hi2|Hi3]]]; subst i; eexists;
    (split; [reflexivity|]); split; vm_compute; congruence.
Qed.

Lemma normalize_order_preserving_witness :
  exists u8,
    normalize smallCrop smallWindow = Returned u8 /\
    forall i j vi vj bi bj,
      get (cropped smallCrop) i = Fin vi -> get (cropped smallCrop) j = Fin vj ->
      read u8 i = Some bi -> read u8 j = Some bj ->
      (vi <= vj)%Q -> bi <= bj.
Proof.
  apply (normalize_order_preserving smallCrop smallWindow 10 40.25);
    [reflexivity|reflexivity|reflexivity|exact small_crop_values].
Defined.

Lemma normalizePixel_error v l u :
  (l <= v <= u)%Q -> (l < u)%Q ->
  let b := normalizePixel (Fin v) (Fin l)
             (num_or (num_sub (Fin u) (Fin l)) (num_of_Z 1)) in
  (- ((u - l) / 510) < l + inject_Z b * ((u - l) / 255) - v <= (u - l) / 510)%Q.
Proof.
  intros Hr Hlu b.
  assert (Heps : (0 < u - l)%Q) by lra.
  destruct (normalizePixel_spec (u - l) v l u Hr Heps (fun _ => Qle_refl _))
    as (Href & _).
  fold b in Href. unfold normalize_ref in Href.
  set (t := ((v - l) / (u - l))%Q).
  assert (Ht : (0 <= t <= 1)%Q).
  { unfold t. split.
    - apply Qle_shift_div_l; [done|]. lra.
    - apply Qle_shift_div_r; [done|]. lra. }
  assert (Hcl : (Qclamp ((v - l) / Qmax (u - l) (u - l)) 0 1 == t)%Q).
  { rewrite Qclamp_unit.
    - unfold t. rewrite (Q.max_l (u - l) (u - l)) by apply Qle_refl. reflexivity.
    - rewrite (Q.max_l (u - l) (u - l)) by apply Qle_refl. exact Ht. }
  rewrite (Qround_half_up_comp _ (t * 255)) in Href by (rewrite Hcl; reflexivity).
  unfold Qround_half_up in Href.
  pose proof (Qfloor_le (t * 255 + (1 # 2))) as Hfl.
  pose proof (Qlt_floor (t * 255 + (1 # 2))) as Hfu.
  rewrite <- Href in Hfl, Hfu. rewrite inject_Z_plus in Hfu.
  change (inject_Z 1) with 1%Q in Hfu.
  assert (Hv' : (v == l + t * (u - l))%Q).
  { unfold t. field. lra. }
  revert Hfl Hfu. generalize (inject_Z b). intros B Hfl Hfu.
  assert (Hd : (l + B * ((u - l) / 255) - v == (B - t * 255) * ((u - l) / 255))%Q).
  { rewrite Hv' at 1. field. }
  rewrite Hd.
  assert (Hstep : (0 < (u - l) / 255)%Q) by (apply Qlt_shift_div_l; lra).
  assert (H510 : ((u - l) / 510 == (1 # 2) * ((u - l) / 255))%Q) by field.
  rewrite H510. revert Hstep. generalize ((u - l) / 255)%Q. intros S HS.
  split; nra.
Qed.

(** X12.  On a raster with a positive range, the byte [b] stored for an
    elevation [v] encodes it to within half a step: mapping [b] back to
    [elevMin + b * (elevMax - elevMin) / 255] gives [v] up to
    [(elevMax - elevMin) / 510]. *)
Theorem normalize_quantisation_error (s : CropState) (c : CropWindow) (l u : Q) :
  lo s = Fin l -> hi s = Fin u -> (l < u)%Q ->
  Z.of_nat (length (cropped s)) = cw c * ch c ->
  (forall i, 0 <= i < cw c * ch c ->
     exists v, get (cropped s) i = Fin v /\ (l <= v <= u)%Q) ->
  exists u8,
    normalize s c = Returned u8 /\
    forall i v b,
      get (cropped s) i = Fin v -> read u8 i = Some b ->
      let decoded := (l + inject_Z b * ((u - l) / 255))%Q in
      (- ((u - l) / 510) < decoded - v <= (u - l) / 510)%Q.
Proof.
  intros Hlo Hhi Hlu Hlen Hvals.
  destruct (normalize_read s c Hlen) as (u8 & Hret & Hlen8 & Hread).
  exists u8. split; [done|].
  intros i v b Hv Hb decoded.
  pose proof (read_Some_lt _ _ _ Hb) as Hi. rewrite Hlen8 in Hi.
  rewrite (Hread i Hi) in Hb. injection Hb as Hb.
  destruct (Hvals i Hi) as (v' & Hv' & Hr).
  rewrite Hv in Hv'. injection Hv' as <-.
  rewrite Hv, Hlo, Hhi in Hb. unfold decoded. rewrite <- Hb.
  by apply normalizePixel_error.
Qed.

Lemma normalize_quantisation_error_witness :
  exists u8,
    normalize smallCrop smallWindow = Returned u8 /\
    forall i v b,
      get (cropped smallCrop) i = Fin v -> read u8 i = Some b ->
      let decoded := (10 + inject_Z b * ((40.25 - 10) / 255))%Q in
      (- ((40.25 - 10) / 510) < decoded - v <= (40.25 - 10) / 510)%Q.
Proof.
  apply (normalize_quantisation_error smallCrop smallWindow 10 40.25);
    [reflexivity|reflexivity|reflexivity|reflexivity|exact small_crop_values].
Defined.

(** ** Loops that may throw *)


Lemma for_range_try_threw {S : Type} (body : Z -> S -> outcome S) (l : list Z) e :
  foldl (fun acc i => s ← acc; body i s) (Threw e) l = Threw e.
Proof. induction l as [|i l IH]; [done|]. cbn [foldl mbind outcome_bind]. exact IH. Qed.

Lemma for_range_try_spec {S : Type} (body : Z -> S -> outcome S)
    (ok : Z -> bool) (f : Z -> S -> S) (err : Z -> error) lo hi s :
  (forall i s, lo <= i < hi ->
     body i s = if ok i then Returned (f i s) else Threw (err i)) ->
  for_range_try lo hi body s
  = match firstBad ok lo hi with
    | Some i => Threw (err i)
    | None => Returned (for_range lo hi f s)
    end.
Proof.
  intros Hbody. unfold for_range_try, for_range, firstBad.
  assert (Hl : forall i, i ∈ seqZ lo (hi - lo) -> lo <= i < hi).
  { intros i Hi. apply elem_of_seqZ in Hi. lia. }
  revert s Hl. generalize (seqZ lo (hi - lo)). intros l.
  induction l as [|i l IH]; intros s Hl; [done|].
  cbn [foldl mbind outcome_bind list_find].
  rewrite Hbody by (apply Hl; left).
  destruct (ok i) eqn:Hok.
  - rewrite decide_False by congruence.
    rewrite IH by (intros j Hj; apply Hl; by right).
    cbn [fmap option_fmap option_map]. destruct (list_find _ l) as [[n j]|]; done.
  - rewrite decide_True by done. cbn. apply for_range_try_threw.
Qed.

Lemma firstBad_None ok lo hi :
  firstBad ok lo hi = None <-> forall i, lo <= i < hi -> ok i = true.
Proof.
  unfold firstBad. rewrite fmap_None, list_find_None, Forall_forall. split.
  - intros Hall i Hi. specialize (Hall i). rewrite elem_of_seqZ in Hall.
    destruct (ok i); [done|]. exfalso. apply Hall; [lia|done].
  - intros Hall i Hi. apply elem_of_seqZ in Hi. rewrite Hall by lia. done.
Qed.

Lemma firstBad_Some ok lo hi i :
  firstBad ok lo hi = Some i ->
  lo <= i < hi /\ ok i = false /\ forall j, lo <= j < i -> ok j = true.
Proof.
  unfold firstBad. intros Hf. apply fmap_Some in Hf as ([n i'] & Hf & ->).
  apply list_find_Some in Hf as (Hn & Hbad & Hbefore). cbn [snd].
  apply lookup_seqZ in Hn as [-> Hn]. split; [lia|]. split; [done|].
  intros j Hj. specialize (Hbefore (Z.to_nat (j - lo)) j).
  destruct (ok j) eqn:Hok; [done|]. exfalso. apply Hbefore; [|lia|done].
  apply lookup_seqZ. split; lia.
Qed.

(** ** The demo heightmap *)

Lemma numeral_char_plain c : numeral_char c -> is_space c = false.
Proof.
  unfold numeral_char. intros Hc.
  repeat (apply elem_of_cons in Hc as [->|Hc]; [done|]).
  by apply elem_of_nil in Hc.
Qed.

Lemma plain_pretty (z : Z) : plain (pretty z).
Proof. intros c Hc. by apply numeral_char_plain, (pretty_Z_occurs z). Qed.

Lemma plain_cons c s : plain (String c s) <-> is_space c = false /\ plain s.
Proof.
  unfold plain. cbn [occurs]. split.
  - intros Hp. split; [apply Hp; by left|]. intros c' Hc'. apply Hp. by right.
  - intros [Hc Hs] c' [->|Hc']; [done|by apply Hs].
Qed.

Lemma pretty_N_go_length x s :
  (String.length s <= String.length (pretty_N_go x s))%nat.
Proof.
  revert s. induction (N.lt_wf_0 x) as [x _ IH]; intros s.
  assert (x = 0 \/ 0 < x)%N as [->|Hx] by lia.
  - by rewrite pretty_N_go_0.
  - rewrite pretty_N_go_step by done.
    pose proof (IH _ (N.div_lt x 10 Hx eq_refl) (String (pretty_N_char (x `mod` 10)) s)) as Hl.
    cbn [String.length] in Hl. lia.
Qed.

Lemma pretty_Z_nonempty (z : Z) : pretty z <> "".
Proof.
  assert (HN : forall n : N, pretty n <> "").
  { intros n. unfold pretty, pretty_N. case_decide; [done|].
    assert (Hn : (0 < n)%N) by lia.
    rewrite pretty_N_go_step by done. intros Heq.
    pose proof (pretty_N_go_length (n `div` 10) (String (pretty_N_char (n `mod` 10)) "")) as Hl.
    rewrite Heq in Hl. cbn in Hl. lia. }
  unfold pretty, pretty_Z. destruct z as [|p|p]; [done|exact (HN (N.pos p))|done].
Qed.

Lemma snoc_app cur c s : snoc cur c +:+ s = cur +:+ String c s.
Proof. unfold snoc. by rewrite string_app_assoc. Qed.

Lemma string_app_nil_r (s : string) : s +:+ "" = s.
Proof.
  induction s as [|c s IH]; [done|].
  change (String c (s +:+ "") = String c s). by rewrite IH.
Qed.

Lemma is_space_LF c : is_space c = false -> is_LF c = false /\ is_CR c = false.
Proof.
  unfold is_space, is_LF, is_CR. cbn [existsb].
  destruct (Ascii.nat_of_ascii c =? 10)%nat, (Ascii.nat_of_ascii c =? 13)%nat;
    rewrite ?orb_true_r; cbn; try done.
  all: destruct (Ascii.nat_of_ascii c =? 9)%nat; cbn; try done.
  all: destruct (Ascii.nat_of_ascii c =? 11)%nat; cbn; try done.
  all: destruct (Ascii.nat_of_ascii c =? 12)%nat; cbn; done.
Qed.

Lemma trimEnd_plain s : plain s -> trimEnd s = s.
Proof.
  induction s as [|c s IH]; [done|]. intros [Hc Hs]%plain_cons.
  cbn [trimEnd]. rewrite IH by done. destruct s; [by rewrite Hc|done].
Qed.

Lemma trimEnd_app s t : trimEnd t <> "" -> trimEnd (s +:+ t) = s +:+ trimEnd t.
Proof.
  intros Ht. induction s as [|c s IH]; [done|].
  change (String c s +:+ t) with (String c (s +:+ t)). cbn [trimEnd].
  rewrite IH. change (String c s +:+ trimEnd t) with (String c (s +:+ trimEnd t)).
  destruct (s +:+ trimEnd t) eqn:Heq; [|done].
  exfalso. destruct s; [|done]. by apply Ht.
Qed.

Lemma trimStart_nonspace c s : is_space c = false -> trimStart (String c s) = String c s.
Proof. intros Hc. cbn [trimStart]. by rewrite Hc. Qed.

Lemma plain_nonempty_head s :
  plain s -> s <> "" -> exists c s', s = String c s' /\ is_space c = false.
Proof.
  destruct s as [|c s']; [done|]. intros [Hc _]%plain_cons _. by exists c, s'.
Qed.

Lemma datLine_cons v vs :
  datLine (v :: vs) = match vs with [] => pretty v | _ => pretty v +:+ " " +:+ datLine vs end.
Proof. unfold datLine, join. cbn [fmap list_fmap String.concat]. by destruct vs. Qed.

Lemma oneLine_cons c s :
  oneLine (String c s) <-> (is_LF c = false /\ is_CR c = false) /\ oneLine s.
Proof.
  unfold oneLine. cbn [occurs]. split.
  - intros Hp. split; [apply Hp; by left|]. intros c' Hc'. apply Hp. by right.
  - intros [Hc Hs] c' [->|Hc']; [done|by apply Hs].
Qed.

Lemma splitLines_from_oneLine l rest cur :
  oneLine l ->
  splitLines_from (l +:+ LF +:+ rest) cur = (cur +:+ l) :: splitLines_from rest "".
Proof.
  revert cur. induction l as [|c l IH]; intros cur Hp.
  - by rewrite string_app_nil_r.
  - apply oneLine_cons in Hp as [[HLF HCR] Hl].
    change (String c l +:+ LF +:+ rest) with (String c (l +:+ LF +:+ rest)).
    cbn [splitLines_from]. rewrite HLF, HCR.
    rewrite IH by done. by rewrite snoc_app.
Qed.

Lemma splitLines_unlines ls :
  Forall oneLine ls -> splitLines (unlines ls) = ls ++ [""].
Proof.
  unfold splitLines. induction 1 as [|l ls Hl Hls IH]; [done|].
  cbn [unlines foldr]. rewrite splitLines_from_oneLine by done.
  cbn [app]. f_equal. exact IH.
Qed.

Lemma occurs_app c s t : occurs c (s +:+ t) <-> occurs c s \/ occurs c t.
Proof.
  induction s as [|a s IH].
  - cbn [occurs]. change ("" +:+ t) with t. tauto.
  - change (String a s +:+ t) with (String a (s +:+ t)). cbn [occurs]. tauto.
Qed.

Lemma oneLine_datLine vs : oneLine (datLine vs).
Proof.
  induction vs as [|v vs IH]; [by intros c []|].
  assert (Hv : oneLine (pretty v)).
  { intros c Hc. by apply is_space_LF, (plain_pretty v). }
  rewrite datLine_cons. destruct vs as [|v' vs]; [done|].
  intros c Hc. apply occurs_app in Hc as [Hc|Hc]; [by apply Hv|].
  change (" " +:+ datLine (v' :: vs)) with (String " " (datLine (v' :: vs))) in Hc.
  destruct Hc as [->|Hc]; [done|by apply IH].
Qed.

Lemma trim_datLine vs : vs <> [] -> trim (datLine vs) = datLine vs /\ datLine vs <> "".
Proof.
  intros Hvs. destruct vs as [|v vs]; [done|clear Hvs].
  assert (Hne : datLine (v :: vs) <> "").
  { rewrite datLine_cons. pose proof (pretty_Z_nonempty v) as Hv.
    destruct vs; [done|]. destruct (pretty v); done. }
  split; [|done]. unfold trim.
  assert (Hstart : trimStart (datLine (v :: vs)) = datLine (v :: vs)).
  { rewrite datLine_cons.
    destruct (plain_nonempty_head (pretty v) (plain_pretty v) (pretty_Z_nonempty v))
      as (c & s' & Hs & Hc).
    rewrite Hs. destruct vs; by apply trimStart_nonspace. }
  rewrite Hstart. clear Hstart Hne. revert v. induction vs as [|v' vs IH]; intros v.
  - rewrite datLine_cons. apply trimEnd_plain, plain_pretty.
  - rewrite datLine_cons. rewrite trimEnd_app.
    + f_equal. change (" " +:+ datLine (v' :: vs)) with (String " " (datLine (v' :: vs))).
      change (String " " ?s) with (" " +:+ s). rewrite trimEnd_app; rewrite IH; [done|].
      rewrite datLine_cons. pose proof (pretty_Z_nonempty v') as Hv.
      destruct vs; [done|]. destruct (pretty v'); done.
    + change (" " +:+ datLine (v' :: vs)) with (String " " (datLine (v' :: vs))).
      cbn [trimEnd]. rewrite IH. rewrite datLine_cons.
      pose proof (pretty_Z_nonempty v') as Hv.
      destruct vs; destruct (pretty v'); done.
Qed.

Lemma splitSpaces_from_plain s t cur b :
  plain s -> s <> "" ->
  splitSpaces_from (s +:+ t) cur b = splitSpaces_from t (cur +:+ s) false.
Proof.
  revert cur b. induction s as [|c s IH]; intros cur b Hp Hne; [done|].
  apply plain_cons in Hp as [Hc Hs].
  change (String c s +:+ t) with (String c (s +:+ t)). cbn [splitSpaces_from].
  rewrite Hc. destruct s as [|c' s'].
  - cbn. done.
  - rewrite IH by done. by rewrite snoc_app.
Qed.

Lemma splitSpaces_from_plain_end s cur b :
  plain s -> s <> "" -> splitSpaces_from s cur b = [cur +:+ s].
Proof.
  intros Hp Hne. rewrite <- (string_app_nil_r s) at 1.
  by rewrite splitSpaces_from_plain.
Qed.

Lemma splitSpaces_datLine vs : vs <> [] -> splitSpaces (datLine vs) = pretty <$> vs.
Proof.
  intros Hvs. unfold splitSpaces. destruct vs as [|v vs]; [done|clear Hvs].
  generalize false. revert v. induction vs as [|v' vs IH]; intros v b.
  - rewrite datLine_cons.
    by rewrite splitSpaces_from_plain_end
      by (apply plain_pretty || apply pretty_Z_nonempty).
  - rewrite datLine_cons.
    rewrite splitSpaces_from_plain by (apply plain_pretty || apply pretty_Z_nonempty).
    change (" " +:+ datLine (v' :: vs)) with (String " " (datLine (v' :: vs))).
    cbn [splitSpaces_from]. change (is_space " ") with true. cbn match.
    rewrite IH. done.
Qed.

Section ParseDatSpec.
Context (Number : string -> num).

Lemma parseCell_spec rows width height y x st :
  parseCell Number (splitSpaces (default "" (read rows y))) width (height - 1 - y) y x st
  = if cellOk Number rows y x then Returned (cellStep Number rows width height y x st)
    else Threw (Error (invalidValueMessage y x)).
Proof.
  unfold parseCell, cellOk, cellStep, cellValue, cellParsed.
  by destruct (num_isFinite _).
Qed.

Lemma parseRow_spec rows width height y st :
  parseRow Number rows width height y st
  = if rowOk Number rows width y
    then Returned (for_range 0 width (cellStep Number rows width height y) st)
    else Threw (rowError Number rows width y).
Proof.
  unfold parseRow, rowOk, rowError, rowLength.
  destruct (_ =? width); cbn [negb andb]; [|done].
  rewrite (for_range_try_spec _ (cellOk Number rows y)
             (cellStep Number rows width height y)
             (fun x => Error (invalidValueMessage y x)))
    by (intros; apply parseCell_spec).
  destruct (firstBad _ 0 width) as [x|]; [|by rewrite bool_decide_eq_true_2].
  by rewrite bool_decide_eq_false_2.
Qed.

Lemma splitSpaces_from_nonempty s cur b : splitSpaces_from s cur b <> [].
Proof.
  revert cur b. induction s as [|c s IH]; intros cur b; [done|].
  cbn [splitSpaces_from]. destruct (is_space c); [destruct b|]; [apply IH|done|apply IH].
Qed.

Lemma rowLength_pos rows y : 1 <= rowLength rows y.
Proof.
  unfold rowLength, splitSpaces.
  pose proof (splitSpaces_from_nonempty (default "" (read rows y)) "" false) as Hne.
  destruct (splitSpaces_from _ _ _); [done|]. cbn [length]. lia.
Qed.

Lemma parseDatHeightmap_spec content :
  let rows := datRows content in
  let width := rowLength rows 0 in
  let height := Z.of_nat (length rows) in
  parseDatHeightmap Number content
  = if height =? 0 then Threw (Error "Demo heightmap is empty")
    else match firstBad (rowOk Number rows width) 0 height with
         | Some y => Threw (rowError Number rows width y)
         | None =>
             let st :=
               for_range 0 height (fun y =>
                 for_range 0 width (cellStep Number rows width height y))
                 {| ps_heightmap := replicate (Z.to_nat (width * height)) 0;
                    ps_elevMin := PosInf; ps_elevMax := NegInf |} in
             Returned {| heightmap := ps_heightmap st; hm_width := width;
                         hm_height := height;
                         elevMin := ps_elevMin st; elevMax := ps_elevMax st |}
         end.
Proof.
  intros rows width height. unfold parseDatHeightmap.
  fold (datRows content). fold rows. fold (rowLength rows 0). fold width. fold height.
  destruct (height =? 0); [done|].
  pose proof (rowLength_pos rows 0) as Hw. fold width in Hw.
  destruct (Z.eqb_spec width 0) as [Hw0|_]; [lia|].
  rewrite newUint8Array_Returned by (unfold height; lia).
  cbn [mbind outcome_bind].
  rewrite (for_range_try_spec _ (rowOk Number rows width)
             (fun y => for_range 0 width (cellStep Number rows width height y))
             (rowError Number rows width))
    by (intros; apply parseRow_spec).
  by destruct (firstBad _ 0 height).
Qed.
End ParseDatSpec.

Lemma num_lt_Z a b : num_lt (num_of_Z a) (num_of_Z b) = (a <? b).
Proof.
  unfold num_of_Z, num_lt, Qcompare, Z.ltb. cbn [Qnum Qden inject_Z].
  by rewrite !Z.mul_1_r.
Qed.

Lemma num_min_Z a b : num_min (num_of_Z a) (num_of_Z b) = num_of_Z (Z.min a b).
Proof.
  change (num_min (num_of_Z a) (num_of_Z b))
    with (if num_lt (num_of_Z b) (num_of_Z a) then num_of_Z b else num_of_Z a).
  rewrite num_lt_Z. destruct (Z.ltb_spec b a); f_equal; lia.
Qed.

Lemma num_max_Z a b : num_max (num_of_Z a) (num_of_Z b) = num_of_Z (Z.max a b).
Proof.
  change (num_max (num_of_Z a) (num_of_Z b))
    with (if num_lt (num_of_Z a) (num_of_Z b) then num_of_Z b else num_of_Z a).
  rewrite num_lt_Z. destruct (Z.ltb_spec a b); f_equal; lia.
Qed.

Lemma clamp_byte q :
  num_max (num_of_Z 0) (num_min (num_of_Z 255) (num_round (Fin q)))
  = num_of_Z (Z.max 0 (Z.min 255 (Qround_half_up q))).
Proof.
  cbn [num_round]. fold (num_of_Z (Qround_half_up q)).
  by rewrite num_min_Z, num_max_Z.
Qed.

Lemma foldl_num_min_Z m bs :
  foldl num_min (num_of_Z m) (num_of_Z <$> bs) = num_of_Z (foldl Z.min m bs).
Proof.
  revert m. induction bs as [|b bs IH]; intros m; [done|].
  cbn [fmap list_fmap foldl]. by rewrite num_min_Z, IH.
Qed.

Lemma foldl_num_max_Z m bs :
  foldl num_max (num_of_Z m) (num_of_Z <$> bs) = num_of_Z (foldl Z.max m bs).
Proof.
  revert m. induction bs as [|b bs IH]; intros m; [done|].
  cbn [fmap list_fmap foldl]. by rewrite num_max_Z, IH.
Qed.

Lemma foldl_Z_min m bs :
  foldl Z.min m bs ∈ m :: bs /\ forall b, b ∈ m :: bs -> foldl Z.min m bs <= b.
Proof.
  revert m. induction bs as [|b bs IH]; intros m.
  - cbn [foldl]. split; [by left|]. intros b [->|Hb]%elem_of_cons; [lia|].
    by apply elem_of_nil in Hb.
  - cbn [foldl]. destruct (IH (Z.min m b)) as [Hin Hle]. split.
    + apply elem_of_cons in Hin as [Hin|Hin].
      * rewrite Hin. destruct (Z.min_spec m b) as [[_ ->]|[_ ->]];
          [by left|right; by left].
      * right. by right.
    + intros b' Hb'.
      assert (Hm : foldl Z.min (Z.min m b) bs <= Z.min m b) by (apply Hle; by left).
      apply elem_of_cons in Hb' as [->|Hb']; [lia|].
      apply elem_of_cons in Hb' as [->|Hb']; [lia|].
      apply Hle. by right.
Qed.

Lemma foldl_Z_max m bs :
  foldl Z.max m bs ∈ m :: bs /\ forall b, b ∈ m :: bs -> b <= foldl Z.max m bs.
Proof.
  revert m. induction bs as [|b bs IH]; intros m.
  - cbn [foldl]. split; [by left|]. intros b [->|Hb]%elem_of_cons; [lia|].
    by apply elem_of_nil in Hb.
  - cbn [foldl]. destruct (IH (Z.max m b)) as [Hin Hle]. split.
    + apply elem_of_cons in Hin as [Hin|Hin].
      * rewrite Hin. destruct (Z.max_spec m b) as [[_ ->]|[_ ->]];
          [right; by left|by left].
      * right. by right.
    + intros b' Hb'.
      assert (Hm : Z.max m b <= foldl Z.max (Z.max m b) bs) by (apply Hle; by left).
      apply elem_of_cons in Hb' as [->|Hb']; [lia|].
      apply elem_of_cons in Hb' as [->|Hb']; [lia|].
      apply Hle. by right.
Qed.

(** The running range over a non-empty list of integers. *)
Lemma track_range_Z bs :
  bs <> [] ->
  exists lo hi,
    foldl num_min PosInf (num_of_Z <$> bs) = num_of_Z lo /\
    foldl num_max NegInf (num_of_Z <$> bs) = num_of_Z hi /\
    lo ∈ bs /\ hi ∈ bs /\ forall b, b ∈ bs -> lo <= b <= hi.
Proof.
  destruct bs as [|b bs]; [done|intros _].
  exists (foldl Z.min b bs), (foldl Z.max b bs).
  cbn [fmap list_fmap foldl].
  change (num_min PosInf (num_of_Z b)) with (num_of_Z b).
  change (num_max NegInf (num_of_Z b)) with (num_of_Z b).
  rewrite foldl_num_min_Z, foldl_num_max_Z.
  destruct (foldl_Z_min b bs) as [Hmin Hle], (foldl_Z_max b bs) as [Hmax Hge].
  repeat split; try done; [by apply Hle|by apply Hge].
Qed.

Lemma cell_index_inj w a x b x' :
  0 <= x < w -> 0 <= x' < w -> a * w + x = b * w + x' -> a = b /\ x = x'.
Proof.
  intros Hx Hx' Heq.
  destruct (Z.lt_trichotomy a b) as [Hlt|[Heq'|Hgt]]; [nia| |nia].
  subst b. split; [done|lia].
Qed.

Section ParseDatResult.
Context (Number : string -> num).

Lemma parse_fold rows w h ps st :
  foldl (fun st (p : Z * Z) => cellStep Number rows w h p.1 p.2 st) st ps
  = {| ps_heightmap :=
         writes (fun p : Z * Z => (h - 1 - p.1) * w + p.2)
                (fun p : Z * Z => toUint8 (cellValue Number rows p.1 p.2))
                ps (ps_heightmap st);
       ps_elevMin :=
         foldl num_min (ps_elevMin st)
           ((fun p : Z * Z => cellValue Number rows p.1 p.2) <$> ps);
       ps_elevMax :=
         foldl num_max (ps_elevMax st)
           ((fun p : Z * Z => cellValue Number rows p.1 p.2) <$> ps) |}.
Proof.
  unfold writes. revert st. induction ps as [|p ps IH]; intros st; [by destruct st|].
  cbn [foldl fmap list_fmap]. by rewrite IH.
Qed.

Lemma cellValue_byte rows y x :
  cellOk Number rows y x = true ->
  exists b, 0 <= b <= 255 /\ cellValue Number rows y x = num_of_Z b /\
    toUint8 (cellValue Number rows y x) = b.
Proof.
  unfold cellOk, cellValue. destruct (cellParsed Number rows y x) as [| |q|]; try done.
  intros _. rewrite clamp_byte. eexists. split; [|split; [reflexivity|]].
  - lia.
  - apply toUint8_byte. lia.
Qed.

Lemma parse_result content r :
  parseDatHeightmap Number content = Returned r ->
  let rows := datRows content in
  let w := hm_width r in
  let h := hm_height r in
  h = Z.of_nat (length rows) /\ w = rowLength rows 0 /\ 1 <= w /\ 1 <= h /\
  (forall y, 0 <= y < h -> rowLength rows y = w) /\
  (forall y x, 0 <= y < h -> 0 <= x < w -> cellOk Number rows y x = true) /\
  Z.of_nat (length (heightmap r)) = w * h /\
  (forall y x, 0 <= y < h -> 0 <= x < w ->
     read (heightmap r) (y * w + x) = Some (byteAt Number rows h y x)) /\
  exists lo hi, elevMin r = num_of_Z lo /\ elevMax r = num_of_Z hi /\
    lo ∈ heightmap r /\ hi ∈ heightmap r /\
    forall b, b ∈ heightmap r -> lo <= b <= hi /\ 0 <= b <= 255.
Proof.
  rewrite parseDatHeightmap_spec. cbv zeta.
  set (rows := datRows content). set (w := rowLength rows 0).
  set (h := Z.of_nat (length rows)).
  destruct (Z.eqb_spec h 0) as [|Hh0]; [done|].
  destruct (firstBad _ 0 h) eqn:Hrows; [done|].
  intros [= <-]. cbn [hm_width hm_height heightmap elevMin elevMax].
  pose proof (rowLength_pos rows 0) as Hw. fold w in Hw.
  assert (Hh : 1 <= h) by (unfold h in *; lia).
  rewrite firstBad_None in Hrows.
  assert (Hlen : forall y, 0 <= y < h -> rowLength rows y = w).
  { intros y Hy. specialize (Hrows y Hy). unfold rowOk in Hrows.
    apply andb_true_iff in Hrows as [Hl _]. by apply Z.eqb_eq in Hl. }
  assert (Hok : forall y x, 0 <= y < h -> 0 <= x < w -> cellOk Number rows y x = true).
  { intros y x Hy Hx. specialize (Hrows y Hy). unfold rowOk in Hrows.
    apply andb_true_iff in Hrows as [_ Hc]. apply bool_decide_eq_true in Hc.
    rewrite firstBad_None in Hc. by apply Hc. }
  rewrite (for_range_nested h w (cellStep Number rows w h)), parse_fold.
  cbn [ps_heightmap ps_elevMin ps_elevMax].
  set (ps := pairs (seqZ 0 h) (seqZ 0 w)).
  set (hm := writes _ _ ps _).
  assert (Hps : forall y x, (y, x) ∈ ps <-> 0 <= y < h /\ 0 <= x < w).
  { intros y x. unfold ps. rewrite elem_of_pairs, !elem_of_seqZ. lia. }
  assert (Hhm : Z.of_nat (length hm) = w * h).
  { unfold hm. rewrite length_writes, length_replicate. nia. }
  assert (Hread : forall y x, 0 <= y < h -> 0 <= x < w ->
            read hm (y * w + x) = Some (byteAt Number rows h y x)).
  { intros y x Hy Hx. unfold hm. apply read_writes_inv.
    - rewrite length_replicate. nia.
    - intros [y' x'] Hp Hidx. apply Hps in Hp as [Hy' Hx']. cbn [fst snd] in *.
      destruct (cell_index_inj w (h - 1 - y') x' y x Hx' Hx Hidx) as [Hyy ->].
      unfold byteAt. rewrite <- Hyy. f_equal. f_equal. lia.
    - right. exists (h - 1 - y, x). split; [apply Hps; lia|]. cbn [fst snd]. f_equal. lia. }
  split; [done|]. split; [done|]. split; [done|]. split; [done|].
  split; [done|]. split; [done|]. split; [done|]. split; [done|].
  set (bs := (fun p : Z * Z => toUint8 (cellValue Number rows p.1 p.2)) <$> ps).
  assert (Hvals : (fun p : Z * Z => cellValue Number rows p.1 p.2) <$> ps
                  = num_of_Z <$> bs).
  { unfold bs. rewrite <- list_fmap_compose. apply list_fmap_ext.
    intros i [y x] Hp. apply list_elem_of_lookup_2, Hps in Hp as [Hy Hx]. cbn [fst snd compose].
    destruct (cellValue_byte rows y x (Hok y x Hy Hx)) as (b & _ & Hv & Hb).
    by rewrite Hb. }
  rewrite Hvals.
  assert (Hbs : forall b, b ∈ bs <-> b ∈ hm).
  { intros b. unfold bs. rewrite list_elem_of_fmap. split.
    - intros ([y x] & -> & Hp). apply Hps in Hp as [Hy Hx]. cbn [fst snd].
      assert (Hr : read hm ((h - 1 - y) * w + x) = Some (byteAt Number rows h (h - 1 - y) x))
        by (apply Hread; lia).
      unfold byteAt in Hr. replace (h - 1 - (h - 1 - y)) with y in Hr by lia.
      unfold read in Hr. destruct (_ <? 0); [done|]. by eapply list_elem_of_lookup_2.
    - intros Hb. apply list_elem_of_lookup_1 in Hb as [j Hj].
      pose proof (lookup_lt_Some _ _ _ Hj) as Hjl.
      set (y := Z.of_nat j / w). set (x := Z.of_nat j mod w).
      assert (Hy : 0 <= y < h).
      { unfold y. split; [apply Z.div_pos; lia|]. apply Z.div_lt_upper_bound; lia. }
      assert (Hx : 0 <= x < w) by (unfold x; apply Z.mod_pos_bound; lia).
      assert (Hj' : Z.of_nat j = y * w + x).
      { unfold y, x. rewrite Z.mul_comm. apply Z.div_mod. lia. }
      exists (h - 1 - y, x). split; [|apply Hps; lia]. cbn [fst snd].
      pose proof (Hread y x Hy Hx) as Hr. rewrite <- Hj' in Hr.
      unfold read in Hr. destruct (Z.ltb_spec (Z.of_nat j) 0); [lia|].
      rewrite Nat2Z.id, Hj in Hr. by injection Hr. }
  assert (Hne : bs <> []).
  { unfold bs, ps. intros Hnil. apply fmap_nil_inv in Hnil.
    assert (Hin : (0, 0) ∈ pairs (seqZ 0 h) (seqZ 0 w)).
    { apply elem_of_pairs. rewrite !elem_of_seqZ. lia. }
    rewrite Hnil in Hin. by apply elem_of_nil in Hin. }
  destruct (track_range_Z bs Hne) as (lo & hi & Hlo & Hhi & Hlo' & Hhi' & Hall).
  exists lo, hi. rewrite Hlo, Hhi.
  split; [done|]. split; [done|]. split; [by apply Hbs|]. split; [by apply Hbs|].
  intros b Hb. split; [by apply Hall, Hbs|].
  apply Hbs in Hb. unfold bs in Hb. apply list_elem_of_fmap in Hb as ([y x] & -> & Hp).
  apply Hps in Hp as [Hy Hx]. cbn [fst snd].
  destruct (cellValue_byte rows y x (Hok y x Hy Hx)) as (b & Hb & _ & ->). done.
Qed.
End ParseDatResult.

Lemma string_length_pos (s : string) : s <> "" -> (0 < String.length s)%nat.
Proof. destruct s; [done|]. cbn [String.length]. lia. Qed.

Lemma datRows_unlines (vss : list (list Z)) :
  Forall (fun vs => vs <> []) vss ->
  datRows (unlines (datLine <$> vss)) = datLine <$> vss.
Proof.
  intros Hne. unfold datRows. rewrite splitLines_unlines.
  2:{ apply Forall_fmap, Forall_true. intros vs. apply oneLine_datLine. }
  rewrite fmap_app, filter_app. cbn [fmap list_fmap].
  change (trim "") with "".
  rewrite (filter_cons_False _ "") by (cbn; lia).
  rewrite filter_nil, app_nil_r.
  induction Hne as [|vs vss Hvs Hvss IH]; [done|].
  cbn [fmap list_fmap]. destruct (trim_datLine vs Hvs) as [Htrim Hnonempty].
  rewrite Htrim. rewrite filter_cons_True by by apply string_length_pos.
  f_equal. exact IH.
Qed.

Lemma row_nonempty heightmap w h r :
  0 < w -> Z.of_nat (length heightmap) = w * h -> 0 <= r < h ->
  row heightmap w r <> [].
Proof.
  intros Hw Hlen Hr Hnil.
  pose proof (length_row heightmap w h r ltac:(lia) Hlen Hr) as Hl.
  rewrite Hnil in Hl. cbn in Hl. lia.
Qed.

Lemma datRows_heightmapToDat heightmap w h :
  0 < w -> 0 < h -> Z.of_nat (length heightmap) = w * h ->
  datRows (heightmapToDat heightmap w h)
  = (fun i => datLine (row heightmap w (h - 1 - i))) <$> seqZ 0 h.
Proof.
  intros Hw Hh Hlen. unfold heightmapToDat.
  rewrite datLines_lines by (done || lia).
  rewrite join_unlines.
  2:{ intros Hnil. apply fmap_nil_inv in Hnil.
      assert (Hin : 0 ∈ seqZ 0 h) by (apply elem_of_seqZ; lia).
      rewrite Hnil in Hin. by apply elem_of_nil in Hin. }
  rewrite (list_fmap_compose (fun i => row heightmap w (h - 1 - i)) datLine).
  apply datRows_unlines. apply Forall_fmap, Forall_forall. intros i Hi.
  apply elem_of_seqZ in Hi. cbn. apply (row_nonempty heightmap w h); [done|done|lia].
Qed.

Section ParseDatRoundTrip.
Context (Number : string -> num).
Hypothesis Number_byte : forall b, 0 <= b <= 255 -> Number (pretty b) = num_of_Z b.

Lemma round_Z (z : Z) : Qround_half_up (inject_Z z) = z.
Proof.
  unfold Qround_half_up.
  assert (H1 : z <= Qfloor (inject_Z z + (1 # 2))).
  { rewrite <- (Qfloor_Z z) at 1. apply Qfloor_resp_le. lra. }
  assert (H2 : Qfloor (inject_Z z + (1 # 2)) < z + 1).
  { rewrite Zlt_Qlt. eapply Qle_lt_trans; [apply Qfloor_le|].
    rewrite inject_Z_plus. change (inject_Z 1) with 1%Q. lra. }
  lia.
Qed.

Lemma dat_cell heightmap w h y x :
  0 < w -> 0 < h -> Z.of_nat (length heightmap) = w * h ->
  Forall (fun b => 0 <= b <= 255) heightmap ->
  0 <= y < h -> 0 <= x < w ->
  let rows := datRows (heightmapToDat heightmap w h) in
  rowLength rows y = w /\
  exists b, read heightmap ((h - 1 - y) * w + x) = Some b /\ 0 <= b <= 255 /\
    cellParsed Number rows y x = num_of_Z b /\
    cellValue Number rows y x = num_of_Z b.
Proof.
  intros Hw Hh Hlen Hbytes Hy Hx rows. unfold rows.
  rewrite datRows_heightmapToDat by done.
  unfold rowLength, cellValue, cellParsed.
  assert (Hrow : read ((fun i => datLine (row heightmap w (h - 1 - i))) <$> seqZ 0 h) y
                 = Some (datLine (row heightmap w (h - 1 - y)))).
  { unfold read. destruct (Z.ltb_spec y 0); [lia|].
    rewrite list_lookup_fmap, (lookup_seqZ_lt 0 h) by lia.
    cbn. do 3 f_equal. lia. }
  rewrite Hrow. cbn [default from_option Datatypes.id].
  rewrite splitSpaces_datLine by (apply (row_nonempty heightmap w h); [done|done|lia]).
  rewrite length_fmap.
  pose proof (length_row heightmap w h (h - 1 - y) ltac:(lia) Hlen ltac:(lia)) as Hl.
  split; [done|].
  destruct (read_is_Some heightmap ((h - 1 - y) * w + x)) as [b Hb]; [nia|].
  exists b. split; [done|].
  assert (Hb' : 0 <= b <= 255).
  { rewrite Forall_forall in Hbytes. apply Hbytes.
    unfold read in Hb. destruct (_ <? 0); [done|]. by eapply list_elem_of_lookup_2. }
  split; [done|].
  assert (Hv : read (pretty <$> row heightmap w (h - 1 - y)) x = Some (pretty b)).
  { unfold read in *. destruct (Z.ltb_spec x 0); [lia|].
    destruct (Z.ltb_spec ((h - 1 - y) * w + x) 0); [nia|].
    rewrite list_lookup_fmap.
    rewrite (row_lookup heightmap w h) by (done || lia). by rewrite Hb. }
  rewrite Hv, Number_byte by done. split; [done|].
  unfold num_of_Z at 3. rewrite clamp_byte, round_Z. f_equal. lia.
Qed.

Lemma parse_heightmapToDat heightmap0 w h :
  0 < w -> 0 < h -> Z.of_nat (length heightmap0) = w * h ->
  Forall (fun b => 0 <= b <= 255) heightmap0 ->
  exists r,
    parseDatHeightmap Number (heightmapToDat heightmap0 w h) = Returned r /\
    hm_width r = w /\ hm_height r = h /\ heightmap r = heightmap0.
Proof.
  intros Hw Hh Hlen Hbytes.
  assert (Hret : exists r,
            parseDatHeightmap Number (heightmapToDat heightmap0 w h) = Returned r /\
            hm_width r = w /\ hm_height r = h).
  { rewrite parseDatHeightmap_spec. cbv zeta.
    set (rows := datRows (heightmapToDat heightmap0 w h)).
    assert (Hrows : Z.of_nat (length rows) = h).
    { unfold rows. rewrite datRows_heightmapToDat by done.
      rewrite length_fmap, length_seqZ. lia. }
    assert (Hwidth : rowLength rows 0 = w).
    { by destruct (dat_cell heightmap0 w h 0 0 Hw Hh Hlen Hbytes) as [Hl _]; [lia..|]. }
    rewrite Hrows, Hwidth. destruct (Z.eqb_spec h 0); [lia|].
    assert (Hok : firstBad (rowOk Number rows w) 0 h = None).
    { apply firstBad_None. intros y Hy. unfold rowOk. apply andb_true_iff. split.
      - destruct (dat_cell heightmap0 w h y 0 Hw Hh Hlen Hbytes Hy) as [Hl _]; [lia|].
        by apply Z.eqb_eq.
      - apply bool_decide_eq_true, firstBad_None. intros x Hx.
        destruct (dat_cell heightmap0 w h y x Hw Hh Hlen Hbytes Hy Hx)
          as (_ & b & _ & _ & Hp & _).
        fold rows in Hp. unfold cellOk. by rewrite Hp. }
    rewrite Hok. eexists. split; [reflexivity|]. done. }
  destruct Hret as (r & Hret & Hrw & Hrh).
  exists r. split; [done|]. split; [done|]. split; [done|].
  destruct (parse_result Number _ r Hret)
    as (_ & _ & _ & _ & _ & _ & Hrlen & Hread & _).
  rewrite Hrw, Hrh in *.
  apply read_ext; [lia|]. intros j.
  destruct (decide (0 <= j < w * h)) as [Hj|Hj].
  - set (y := j / w). set (x := j mod w).
    assert (Hy : 0 <= y < h).
    { unfold y. split; [apply Z.div_pos; lia|]. apply Z.div_lt_upper_bound; lia. }
    assert (Hx : 0 <= x < w) by (unfold x; apply Z.mod_pos_bound; lia).
    assert (Hj' : j = y * w + x).
    { unfold y, x. rewrite Z.mul_comm. apply Z.div_mod. lia. }
    rewrite Hj', (Hread y x Hy Hx). unfold byteAt.
    destruct (dat_cell heightmap0 w h (h - 1 - y) x Hw Hh Hlen Hbytes)
      as (_ & b & Hb & Hb' & _ & Hv); [lia|done|].
    rewrite Hv. unfold num_of_Z. rewrite toUint8_byte by done.
    replace (h - 1 - (h - 1 - y)) with y in Hb by lia. by rewrite Hb.
  - rewrite !read_None by lia. done.
Qed.
End ParseDatRoundTrip.

(** X13.  [parseDatHeightmap] inverts [heightmapToDat]: for a heightmap of
    [w * h] bytes with positive [w] and [h], parsing the interchange text
    returns the same bytes, width and height (the rows, written
    bottom-up, are put back top-down), and reports as range the smallest
    and the largest byte.  [Number] is assumed to read the decimal
    numerals of 0..255. *)
Theorem parseDatHeightmap_heightmapToDat (Number : string -> num)
    (heightmap0 : list Z) (w h : Z) :
  (forall b, 0 <= b <= 255 -> Number (pretty b) = num_of_Z b) ->
  0 < w -> 0 < h -> Z.of_nat (length heightmap0) = w * h ->
  Forall (fun b => 0 <= b <= 255) heightmap0 ->
  exists r,
    parseDatHeightmap Number (heightmapToDat heightmap0 w h) = Returned r /\
    heightmap r = heightmap0 /\ hm_width r = w /\ hm_height r = h /\
    exists lo hi, elevMin r = num_of_Z lo /\ elevMax r = num_of_Z hi /\
      lo ∈ heightmap0 /\ hi ∈ heightmap0 /\
      forall b, b ∈ heightmap0 -> lo <= b <= hi.
Proof.
  intros HNumber Hw Hh Hlen Hbytes.
  destruct (parse_heightmapToDat Number HNumber heightmap0 w h Hw Hh Hlen Hbytes)
    as (r & Hret & Hrw & Hrh & Heq).
  exists r. split; [done|]. split; [done|]. split; [done|]. split; [done|].
  destruct (parse_result Number _ r Hret)
    as (_ & _ & _ & _ & _ & _ & _ & _ & lo & hi & Hlo & Hhi & Hlo' & Hhi' & Hall).
  exists lo, hi. rewrite <- Heq. split; [done|]. split; [done|].
  split; [done|]. split; [done|]. intros b Hb. by apply Hall.
Qed.

Lemma decimalNumber_byte b : 0 <= b <= 255 -> decimalNumber (pretty b) = num_of_Z b.
Proof.
  intros Hb.
  assert (Hall : Forall (fun z => decimal_from (pretty z) 0 = Some z) (seqZ 0 256)).
  { apply (bool_decide_unpack _). vm_compute. exact I. }
  rewrite Forall_forall in Hall. unfold decimalNumber.
  rewrite (Hall b); [done|]. apply elem_of_seqZ. lia.
Qed.

Lemma parseDatHeightmap_heightmapToDat_witness :
  exists r,
    parseDatHeightmap decimalNumber (heightmapToDat [1; 2; 3; 4; 5; 6] 3 2) = Returned r /\
    heightmap r = [1; 2; 3; 4; 5; 6] /\ hm_width r = 3 /\ hm_height r = 2 /\
    exists lo hi, elevMin r = num_of_Z lo /\ elevMax r = num_of_Z hi /\
      lo ∈ [1; 2; 3; 4; 5; 6] /\ hi ∈ [1; 2; 3; 4; 5; 6] /\
      forall b, b ∈ [1; 2; 3; 4; 5; 6] -> lo <= b <= hi.
Proof.
  apply (parseDatHeightmap_heightmapToDat decimalNumber [1; 2; 3; 4; 5; 6] 3 2).
  - exact decimalNumber_byte.
  - lia.
  - lia.
  - reflexivity.
  - repeat constructor; lia.
Defined.

(** X14.  Whatever the text, a result of [parseDatHeightmap] has at least
    one column and one row, [width * height] bytes, all in 0..255, and a
    range [elevMin <= elevMax] made of the smallest and the largest of
    these bytes (not of elevations in metres). *)
Theorem parseDatHeightmap_result (Number : string -> num) (content : string)
    (r : HeightmapResult) :
  parseDatHeightmap Number content = Returned r ->
  1 <= hm_width r /\ 1 <= hm_height r /\
  Z.of_nat (length (heightmap r)) = hm_width r * hm_height r /\
  Forall (fun b => 0 <= b <= 255) (heightmap r) /\
  exists lo hi, elevMin r = num_of_Z lo /\ elevMax r = num_of_Z hi /\
    0 <= lo /\ lo <= hi /\ hi <= 255 /\
    lo ∈ heightmap r /\ hi ∈ heightmap r /\
    forall b, b ∈ heightmap r -> lo <= b <= hi.
Proof.
  intros Hret.
  destruct (parse_result Number content r Hret)
    as (_ & _ & Hw & Hh & _ & _ & Hlen & _ & lo & hi & Hlo & Hhi & Hlo' & Hhi' & Hall).
  split; [done|]. split; [done|]. split; [done|]. split.
  { apply Forall_forall. intros b Hb. by apply Hall. }
  exists lo, hi. pose proof (Hall lo Hlo') as [Hl1 Hl2].
  pose proof (Hall hi Hhi') as [Hh1 Hh2].
  repeat split; try done; try lia; by apply Hall.
Qed.

Lemma parseDatHeightmap_result_witness :
  1 <= hm_width demoResult /\ 1 <= hm_height demoResult /\
  Z.of_nat (length (heightmap demoResult)) = hm_width demoResult * hm_height demoResult /\
  Forall (fun b => 0 <= b <= 255) (heightmap demoResult) /\
  exists lo hi, elevMin demoResult = num_of_Z lo /\ elevMax demoResult = num_of_Z hi /\
    0 <= lo /\ lo <= hi /\ hi <= 255 /\
    lo ∈ heightmap demoResult /\ hi ∈ heightmap demoResult /\
    forall b, b ∈ heightmap demoResult -> lo <= b <= hi.
Proof.
  apply (parseDatHeightmap_result decimalNumber demoText). vm_compute. reflexivity.
Defined.

Lemma blank_cons c s : blank (String c s) <-> is_space c = true /\ blank s.
Proof.
  unfold blank. cbn [occurs]. split.
  - intros Hp. split; [apply Hp; by left|]. intros c' Hc'. apply Hp. by right.
  - intros [Hc Hs] c' [->|Hc']; [done|by apply Hs].
Qed.

Lemma blank_snoc cur c : blank cur -> is_space c = true -> blank (snoc cur c).
Proof.
  intros Hcur Hc c' Hc'. unfold snoc in Hc'. apply occurs_app in Hc' as [Hc'|Hc'].
  - by apply Hcur.
  - destruct Hc' as [->|[]]. done.
Qed.

Lemma splitLines_from_cons c s cur :
  splitLines_from (String c s) cur
  = if is_LF c then cur :: splitLines_from s ""
    else if is_CR c then
      match s with
      | String c' s'' =>
          if is_LF c' then cur :: splitLines_from s'' ""
          else splitLines_from s (snoc cur c)
      | EmptyString => splitLines_from s (snoc cur c)
      end
    else splitLines_from s (snoc cur c).
Proof. reflexivity. Qed.

Lemma splitLines_from_blank s cur :
  blank s -> blank cur -> Forall blank (splitLines_from s cur).
Proof.
  assert (Hnil : blank "") by (by intros c' []).
  assert (Hboth : (forall cur, blank s -> blank cur ->
                     Forall blank (splitLines_from s cur)) /\
                  (forall c cur, blank (String c s) -> blank cur ->
                     Forall blank (splitLines_from (String c s) cur))).
  { clear cur. induction s as [|c0 s [IH0 IH1]].
    - split; [intros cur _ Hcur; cbn; by repeat constructor|].
      intros c cur [Hc _]%blank_cons Hcur. rewrite splitLines_from_cons.
      destruct (is_LF c); [by repeat constructor|].
      destruct (is_CR c); cbn; repeat constructor; by apply blank_snoc.
    - split; [intros cur; apply IH1|].
      intros c cur [Hc Hs]%blank_cons Hcur. rewrite splitLines_from_cons.
      destruct (is_LF c); [constructor; [done|by apply IH1]|].
      destruct (is_CR c).
      + destruct (is_LF c0).
        * constructor; [done|]. apply blank_cons in Hs as [_ Hs']. by apply IH0.
        * apply IH1; [done|by apply blank_snoc].
      + apply IH1; [done|by apply blank_snoc]. }
  apply Hboth.
Qed.

Lemma trim_blank s : blank s -> trim s = "".
Proof.
  unfold trim. intros Hs. assert (Hstart : trimStart s = ""); [|by rewrite Hstart].
  induction s as [|c s IH]; [done|]. apply blank_cons in Hs as [Hc Hs].
  cbn [trimStart]. rewrite Hc. by apply IH.
Qed.

Lemma datRows_blank content : blank content -> datRows content = [].
Proof.
  intros Hb. unfold datRows, splitLines.
  assert (Hlines : Forall blank (splitLines_from content "")).
  { apply splitLines_from_blank; [done|]. by intros c []. }
  induction Hlines as [|l ls Hl Hls IH]; [done|].
  cbn [fmap list_fmap]. rewrite (trim_blank l Hl).
  rewrite filter_cons_False by (cbn; lia). exact IH.
Qed.

(** X16.  A text made of white space only (the empty text included) is
    rejected with [Demo heightmap is empty]. *)
Theorem parseDatHeightmap_blank (Number : string -> num) (content : string) :
  (forall c, occurs c content -> is_space c = true) ->
  parseDatHeightmap Number content = Threw (Error "Demo heightmap is empty").
Proof.
  intros Hb. rewrite parseDatHeightmap_spec. cbv zeta.
  by rewrite (datRows_blank content Hb).
Qed.

Lemma parseDatHeightmap_blank_witness :
  parseDatHeightmap decimalNumber blankText = Threw (Error "Demo heightmap is empty").
Proof.
  apply (parseDatHeightmap_blank decimalNumber blankText).
  intros c Hc. cbn in Hc.
  destruct Hc as [Hc|[Hc|[Hc|[Hc|[Hc|[]]]]]]; subst c; reflexivity.
Defined.

(** X15.  Every failure of [parseDatHeightmap] is one of three errors: the
    text has no non-blank line; or, for the first row [y] that is not
    well formed, the row has another number of fields than the first row
    (the message names row [y + 1]), or its first field [x] that is not a
    finite number is named by row and column.  The error
    [Demo heightmap has no columns] is never raised. *)
Theorem parseDatHeightmap_errors (Number : string -> num) (content : string)
    (e : error) :
  parseDatHeightmap Number content = Threw e ->
  let rows := datRows content in
  let width := rowLength rows 0 in
  e <> Error "Demo heightmap has no columns" /\
  ((rows = [] /\ e = Error "Demo heightmap is empty") \/
   exists y, 0 <= y < Z.of_nat (length rows) /\
     (forall y', 0 <= y' < y ->
        rowLength rows y' = width /\
        forall x, 0 <= x < width -> num_isFinite (cellParsed Number rows y' x) = true) /\
     ((rowLength rows y <> width /\ e = Error (rowCountMessage y)) \/
      (rowLength rows y = width /\
       exists x, 0 <= x < width /\
         num_isFinite (cellParsed Number rows y x) = false /\
         (forall x', 0 <= x' < x ->
            num_isFinite (cellParsed Number rows y x') = true) /\
         e = Error (invalidValueMessage y x)))).
Proof.
  rewrite parseDatHeightmap_spec. cbv zeta.
  set (rows := datRows content). set (width := rowLength rows 0).
  destruct (Z.eqb_spec (Z.of_nat (length rows)) 0) as [Hempty|Hne].
  { intros [= <-]. split; [done|]. left. split; [|done]. by destruct rows. }
  destruct (firstBad _ 0 _) as [y|] eqn:Hbad; [|done].
  intros [= <-]. apply firstBad_Some in Hbad as (Hy & Hrow & Hbefore).
  assert (Hprev : forall y', 0 <= y' < y ->
            rowLength rows y' = width /\
            forall x, 0 <= x < width -> num_isFinite (cellParsed Number rows y' x) = true).
  { intros y' Hy'. specialize (Hbefore y' Hy'). unfold rowOk in Hbefore.
    apply andb_true_iff in Hbefore as [Hl Hc]. apply Z.eqb_eq in Hl. split; [done|].
    apply bool_decide_eq_true in Hc. rewrite firstBad_None in Hc. exact Hc. }
  unfold rowError. unfold rowOk in Hrow.
  destruct (Z.eqb_spec (rowLength rows y) width) as [Hl|Hl].
  - cbn [andb] in Hrow. apply bool_decide_eq_false in Hrow.
    destruct (firstBad (cellOk Number rows y) 0 width) as [x|] eqn:Hx; [|done].
    apply firstBad_Some in Hx as (Hx & Hcell & Hcells). cbn [default].
    split.
    { unfold invalidValueMessage. by intros [= Heq]. }
    right. exists y. split; [done|]. split; [done|]. right. split; [done|].
    by exists x.
  - split.
    { unfold rowCountMessage. by intros [= Heq]. }
    right. exists y. split; [done|]. split; [done|]. by left.
Qed.


Lemma parseDatHeightmap_errors_witness :
  let rows := datRows raggedText in
  let width := rowLength rows 0 in
  Error (rowCountMessage 1) <> Error "Demo heightmap has no columns" /\
  ((rows = [] /\ Error (rowCountMessage 1) = Error "Demo heightmap is empty") \/
   exists y, 0 <= y < Z.of_nat (length rows) /\
     (forall y', 0 <= y' < y ->
        rowLength rows y' = width /\
        forall x, 0 <= x < width ->
          num_isFinite (cellParsed decimalNumber rows y' x) = true) /\
     ((rowLength rows y <> width /\ Error (rowCountMessage 1) = Error (rowCountMessage y)) \/
      (rowLength rows y = width /\
       exists x, 0 <= x < width /\
         num_isFinite (cellParsed decimalNumber rows y x) = false /\
         (forall x', 0 <= x' < x ->
            num_isFinite (cellParsed decimalNumber rows y x') = true) /\
         Error (rowCountMessage 1) = Error (invalidValueMessage y x)))).
Proof.
  apply (parseDatHeightmap_errors decimalNumber raggedText (Error (rowCountMessage 1))).
  vm_compute. reflexivity.
Defined.

Lemma blank_unlines ls : Forall blank ls -> blank (unlines ls).
Proof.
  induction 1 as [|l ls Hl Hls IH]; [by intros c []|].
  cbn [unlines foldr]. intros c Hc. apply occurs_app in Hc as [Hc|Hc]; [by apply Hl|].
  apply occurs_app in Hc as [Hc|Hc]; [|by apply IH].
  destruct Hc as [->|[]]. done.
Qed.

Lemma heightmapToDat_blank heightmap w h :
  w <= 0 \/ h <= 0 -> blank (heightmapToDat heightmap w h).
Proof.
  intros Hwh. unfold heightmapToDat, datLines, for_down.
  rewrite (foldl_push (fun y => join " " (showElement <$> datRow heightmap w y))).
  cbn [app].
  destruct (reverse (seqZ 0 h)) as [|y ys] eqn:Hrev.
  { cbn [fmap list_fmap]. intros c [->|[]]. done. }
  rewrite <- Hrev. rewrite join_unlines.
  2:{ rewrite Hrev. done. }
  apply blank_unlines, Forall_fmap, Forall_forall. intros y' Hy'.
  apply elem_of_reverse, elem_of_seqZ in Hy'.
  destruct Hwh as [Hw|Hh]; [|lia]. cbn.
  unfold datRow, for_range. rewrite Z.sub_0_r, seqZ_nil by lia. by intros c [].
Qed.

(** X17.  The interchange text of an image without columns or without
    rows is rejected by [parseDatHeightmap] as empty: the round trip of
    X13 needs a positive width and height. *)
Theorem parseDatHeightmap_empty_image (Number : string -> num)
    (heightmap0 : list Z) (w h : Z) :
  w <= 0 \/ h <= 0 ->
  parseDatHeightmap Number (heightmapToDat heightmap0 w h)
  = Threw (Error "Demo heightmap is empty").
Proof.
  intros Hwh. rewrite parseDatHeightmap_spec. cbv zeta.
  by rewrite (datRows_blank _ (heightmapToDat_blank heightmap0 w h Hwh)).
Qed.

Lemma parseDatHeightmap_empty_image_witness :
  parseDatHeightmap decimalNumber (heightmapToDat [] 0 3)
  = Threw (Error "Demo heightmap is empty").
Proof. apply (parseDatHeightmap_empty_image decimalNumber [] 0 3). left. lia. Defined.

Lemma splitLines_from_oneLine_crlf l rest cur :
  oneLine l ->
  splitLines_from (l +:+ CRLF +:+ rest) cur = (cur +:+ l) :: splitLines_from rest "".
Proof.
  revert cur. induction l as [|c l IH]; intros cur Hp.
  - by rewrite string_app_nil_r.
  - apply oneLine_cons in Hp as [[HLF HCR] Hl].
    change (String c l +:+ CRLF +:+ rest) with (String c (l +:+ CRLF +:+ rest)).
    rewrite splitLines_from_cons, HLF, HCR.
    rewrite IH by done. by rewrite snoc_app.
Qed.

Lemma splitLines_unlinesCRLF ls :
  Forall oneLine ls -> splitLines (unlinesCRLF ls) = ls ++ [""].
Proof.
  unfold splitLines. induction 1 as [|l ls Hl Hls IH]; [done|].
  cbn [unlinesCRLF foldr]. rewrite splitLines_from_oneLine_crlf by done.
  cbn [app]. f_equal. exact IH.
Qed.

(** X23.  Line endings do not matter to [parseDatHeightmap]: a text whose
    lines end in a carriage return and a line feed gives the same result,
    or the same error, as the text with the same lines ended by a line
    feed. *)
Theorem parseDatHeightmap_crlf (Number : string -> num) (ls : list string) :
  Forall oneLine ls ->
  parseDatHeightmap Number (unlinesCRLF ls) = parseDatHeightmap Number (unlines ls).
Proof.
  intros Hls. rewrite !parseDatHeightmap_spec. cbv zeta.
  assert (Hrows : datRows (unlinesCRLF ls) = datRows (unlines ls)).
  { unfold datRows. by rewrite splitLines_unlinesCRLF, splitLines_unlines. }
  by rewrite Hrows.
Qed.

Lemma parseDatHeightmap_crlf_witness :
  parseDatHeightmap decimalNumber (unlinesCRLF (datLine <$> [[4; 5; 6]; [1; 2; 3]]))
  = parseDatHeightmap decimalNumber (unlines (datLine <$> [[4; 5; 6]; [1; 2; 3]])).
Proof.
  apply (parseDatHeightmap_crlf decimalNumber (datLine <$> [[4; 5; 6]; [1; 2; 3]])).
  apply Forall_fmap, Forall_true. intros vs. apply oneLine_datLine.
Defined.

(** X25.  What the pipeline returns can be saved and loaded back: for a
    result of [generateHeightmap] with a positive [outputPx] (its bytes in
    0..255, as in every [Uint8Array]), the text that [heightmapToDat] makes
    of its heightmap, width and height is parsed by [parseDatHeightmap]
    into the same heightmap with width and height [outputPx].  [Number] is
    assumed to read the decimal numerals of 0..255. *)
Theorem pipeline_dat_round_trip {N : Type} `{Arith N} (net : Network)
    (schedule : list nat) (resample : Resampler) (params : TerrainParams N)
    (res : HeightmapResult) (Number : string -> num) :
  (forall b, 0 <= b <= 255 -> Number (pretty b) = num_of_Z b) ->
  0 < outputPx params ->
  generateHeightmap net schedule resample params = Returned res ->
  Forall (fun b => 0 <= b <= 255) (heightmap res) ->
  exists r,
    parseDatHeightmap Number
      (heightmapToDat (heightmap res) (hm_width res) (hm_height res)) = Returned r /\
    heightmap r = heightmap res /\
    hm_width r = outputPx params /\ hm_height r = outputPx params.
Proof.
  intros HNumber Hpx Hret Hbytes. unfold generateHeightmap in Hret.
  destruct (stitch _ _ _ _) as [full|e]; [|done].
  cbn [mbind outcome_bind] in Hret.
  destruct (cropWindow _ _ _) as [c|]; [|done].
  unfold finish in Hret.
  destruct (crop _ _ c) as [s|e]; [|done].
  cbn [mbind outcome_bind] in Hret.
  destruct (normalize s c) as [u8|e]; [|done].
  cbn [mbind outcome_bind] in Hret. unfold resize in Hret.
  destruct (createImageData (cw c) (ch c)) as [srcImg|e]; [|done].
  cbn [mbind outcome_bind] in Hret.
  destruct (resample _ _ _ _) as [dstData|e]; [|done].
  cbn [mbind outcome_bind] in Hret.
  destruct (redChannel _ dstData) as [hm|e] eqn:Hred; [|done].
  cbn [mbind outcome_bind mret outcome_ret] in Hret. injection Hret as <-.
  cbn [hm_width hm_height heightmap] in *.
  apply redChannel_Returned in Hred as [Hlen _].
  destruct (parse_heightmapToDat Number HNumber hm (outputPx params) (outputPx params)
              Hpx Hpx Hlen Hbytes) as (r & Hr & Hw & Hh & Heq).
  by exists r.
Qed.

Lemma pipeline_dat_round_trip_witness :
  exists r,
    parseDatHeightmap decimalNumber
      (heightmapToDat (heightmap smallResult) (hm_width smallResult)
         (hm_height smallResult)) = Returned r /\
    heightmap r = heightmap smallResult /\
    hm_width r = outputPx smallParams /\ hm_height r = outputPx smallParams.
Proof.
  apply (pipeline_dat_round_trip (H := Q_Arith linearHost) smallNet [0%nat] flatResampler
           smallParams smallResult decimalNumber).
  - exact decimalNumber_byte.
  - reflexivity.
  - vm_compute. reflexivity.
  - vm_compute. repeat constructor; congruence.
Defined.

(** ** The SCAD template *)












(** ** The size formatter *)

Lemma padStart_long f s : (f <= String.length s)%nat -> padStart f s = s.
Proof. intros Hl. unfold padStart. by replace (f - String.length s)%nat with 0%nat by lia. Qed.

Lemma toFixed1_ratio (toString : num -> string) (n unit : Z) :
  0 < unit -> 0 <= n -> n < unit * 10 ^ 21 ->
  exists t,
    toFixed toString 1 (num_div (num_of_Z n) (num_of_Z unit))
    = pretty (t / 10) +:+ "." +:+ pretty (t mod 10) /\
    0 <= t /\ 20 * n - unit < 2 * unit * t <= 20 * n + unit.
Proof.
  intros Hunit Hn Hbig. unfold num_of_Z at 1 2. cbn [num_div].
  assert (HU : (0 < inject_Z unit)%Q) by (change 0%Q with (inject_Z 0); rewrite <- Zlt_Qlt; lia).
  assert (HN : (0 <= inject_Z n)%Q) by (change 0%Q with (inject_Z 0); rewrite <- Zle_Qle; lia).
  assert (HB : (inject_Z n < inject_Z unit * inject_Z (10 ^ 21))%Q).
  { rewrite <- inject_Z_mult, <- Zlt_Qlt. lia. }
  rewrite (proj2 (Qis_zero_false _)) by lra.
  set (x := (inject_Z n / inject_Z unit)%Q).
  assert (Hx0 : (0 <= x)%Q) by (unfold x; apply Qle_shift_div_l; lra).
  assert (Hx1 : (x < inject_Z (10 ^ 21))%Q).
  { unfold x. apply Qlt_shift_div_r; [done|]. lra. }
  unfold toFixed.
  assert (Hneg : num_lt (Fin x) (num_of_Z 0) = false).
  { apply num_lt_Fin_false. change (inject_Z 0) with 0%Q. done. }
  cbv zeta. rewrite Hneg. cbv iota. unfold num_of_Z.
  rewrite (proj2 (num_lt_Fin x (inject_Z (10 ^ 21)))) by done.
  set (t := Qround_half_up (x * inject_Z (10 ^ Z.of_nat 1))).
  exists t. change ("" +:+ fixedDigits 1 t) with (fixedDigits 1 t).
  unfold fixedDigits. change (10 ^ Z.of_nat 1) with 10 in *.
  assert (Hfl : (inject_Z t <= x * 10 + (1 # 2))%Q) by apply Qfloor_le.
  assert (Hfu : (x * 10 + (1 # 2) < inject_Z t + 1)%Q).
  { pose proof (Qlt_floor (x * inject_Z 10 + (1 # 2))) as H.
    rewrite inject_Z_plus in H. exact H. }
  assert (Hxu : (x * inject_Z unit == inject_Z n)%Q) by (unfold x; field; lra).
  assert (Hle : 2 * unit * t <= 20 * n + unit).
  { rewrite Zle_Qle, inject_Z_plus, !inject_Z_mult.
    change (inject_Z 2) with 2%Q. change (inject_Z 20) with 20%Q.
    rewrite <- Hxu. revert Hfl HU. generalize (inject_Z t) (inject_Z unit).
    intros T U Hfl HU. nra. }
  assert (Hlt : 20 * n - unit < 2 * unit * t).
  { rewrite Zlt_Qlt. unfold Z.sub. rewrite inject_Z_plus, inject_Z_opp, !inject_Z_mult.
    change (inject_Z 2) with 2%Q. change (inject_Z 20) with 20%Q.
    rewrite <- Hxu. revert Hfu HU. generalize (inject_Z t) (inject_Z unit).
    intros T U Hfu HU. nra. }
  assert (Ht : 0 <= t) by nia.
  split; [|lia].
  rewrite padStart_long; [done|].
  pose proof (pretty_Z_nonempty (t mod 10)) as Hne.
  destruct (pretty (t mod 10)); [done|]. cbn [String.length]. lia.
Qed.

(** X21.  [formatSize] on a byte count [n] below 2^53: below 1024 it prints
    the count itself with unit B; from 1024 on it prints [t / 10], a dot
    and the digit [t mod 10], with unit KB below 1024 * 1024 and MB from
    there on, where [t] is the number of tenths of the unit nearest to
    [n]: [|t / 10 - n / unit| <= 1 / 20], and [t >= 10]. *)
Theorem formatSize_rounding (toString : num -> string) (n : Z) :
  0 <= n < 2 ^ 53 ->
  (n < 1024 -> formatSize toString (num_of_Z n) = toString (num_of_Z n) +:+ " B") /\
  (1024 <= n ->
   let unit := if n <? 1024 * 1024 then 1024 else 1024 * 1024 in
   let name := if n <? 1024 * 1024 then " KB" else " MB" in
   exists t,
     formatSize toString (num_of_Z n)
     = (pretty (t / 10) +:+ "." +:+ pretty (t mod 10)) +:+ name /\
     10 <= t /\ 20 * n - unit < 2 * unit * t <= 20 * n + unit).
Proof.
  intros Hn. unfold formatSize. rewrite !num_lt_Z. split.
  - intros Hsmall. by destruct (Z.ltb_spec n 1024); [|lia].
  - intros Hbig. destruct (Z.ltb_spec n 1024); [lia|].
    destruct (Z.ltb_spec n (1024 * 1024)) as [HKB|HMB]; cbv zeta.
    + destruct (toFixed1_ratio toString n 1024) as (t & Heq & Ht & Hb); [lia..|].
      exists t. rewrite Heq. split; [done|]. lia.
    + destruct (toFixed1_ratio toString n (1024 * 1024)) as (t & Heq & Ht & Hb); [lia..|].
      exists t. rewrite Heq. split; [done|]. lia.
Qed.

Lemma formatSize_rounding_witness :
  (1536 < 1024 -> formatSize integerToString (num_of_Z 1536)
                  = integerToString (num_of_Z 1536) +:+ " B") /\
  (1024 <= 1536 ->
   let unit := if 1536 <? 1024 * 1024 then 1024 else 1024 * 1024 in
   let name := if 1536 <? 1024 * 1024 then " KB" else " MB" in
   exists t,
     formatSize integerToString (num_of_Z 1536)
     = (pretty (t / 10) +:+ "." +:+ pretty (t mod 10)) +:+ name /\
     10 <= t /\ 20 * 1536 - unit < 2 * unit * t <= 20 * 1536 + unit).
Proof. apply (formatSize_rounding integerToString 1536). lia. Defined.

(** ** The preview image *)

(** X22.  The image that [heightmapToPngBlob] hands to the encoder, for a
    positive width and height, has [4 * w * h] bytes; pixel [i] is the
    opaque gray [(v, v, v, 255)] when the heightmap has a value [v] at
    [i], and transparent black when the heightmap is too short; values
    of the heightmap beyond [w * h] are ignored. *)
Theorem heightmapToPngBlob_pixels {Blob : Type}
    (encode : list Z -> Z -> Z -> outcome Blob) (heightmap0 : list Z) (w h : Z) :
  0 < w -> 0 < h ->
  exists img,
    heightmapToPngBlob encode heightmap0 w h = encode img w h /\
    Z.of_nat (length img) = 4 * w * h /\
    forall i k, 0 <= i < w * h -> 0 <= k < 4 ->
      read img (i * 4 + k)
      = Some (match read heightmap0 i with
              | Some v => if k =? 3 then 255 else v
              | None => 0
              end).
Proof.
  intros Hw Hh. unfold heightmapToPngBlob, createImageData.
  destruct (Z.ltb_spec w 0), (Z.ltb_spec h 0); try lia. cbn [orb].
  destruct (Z.eqb_spec w 0), (Z.eqb_spec h 0); try lia. cbn [orb mbind outcome_bind].
  eexists. split; [reflexivity|].
  rewrite length_grayToRGBA, length_replicate. split; [lia|].
  intros i k Hi Hk.
  rewrite grayToRGBA_read by (rewrite length_replicate; nia).
  replace ((i * 4 + k) / 4) with i by (apply (Z.div_unique _ 4 i k); lia).
  replace ((i * 4 + k) mod 4) with k by (apply (Z.mod_unique _ 4 i k); lia).
  destruct (Z.ltb_spec i (Z.of_nat (length heightmap0))) as [Hin|Hout].
  - destruct (read_is_Some heightmap0 i) as [v Hv]; [lia|].
    by rewrite Hv, (u8_get_read _ _ _ Hv).
  - rewrite (read_None heightmap0 i) by lia.
    unfold read. destruct (Z.ltb_spec (i * 4 + k) 0); [lia|].
    rewrite lookup_replicate_2; [done|nia].
Qed.

Lemma heightmapToPngBlob_pixels_witness :
  exists img,
    heightmapToPngBlob rawEncoder [7; 9] 2 1 = rawEncoder img 2 1 /\
    Z.of_nat (length img) = 4 * 2 * 1 /\
    forall i k, 0 <= i < 2 * 1 -> 0 <= k < 4 ->
      read img (i * 4 + k)
      = Some (match read [7; 9] i with
              | Some v => if k =? 3 then 255 else v
              | None => 0
              end).
Proof. apply (heightmapToPngBlob_pixels rawEncoder [7; 9] 2 1); lia. Defined.
